(** * Input coercion, validation and AST reconstruction of graphql-js

    A shallow embedding of
    - [coerceInputValue], [coerceDefaultValue], [coerceInputValueImpl]
      (utilities/coerceInputValue.js),
    - [validateInputValue], [validateInputValueImpl], [reportInvalidValue]
      (utilities/validateInputValue.js),
    - [coerceInputLiteral], [isMissingVariable]
      (utilities/coerceInputLiteral.js),
    - [astFromValue] (utilities/astFromValue.js),
    followed by the properties of these functions.

    JavaScript values are a tagged union; [undefined] is an ordinary value
    and is what the coercion functions return for "no value".  Thrown
    errors are explicit ([Completion]).  The hidden [_coercedDefaultValue]
    field of a field descriptor lives in a store keyed by the descriptor's
    address, threaded through every function that may reach
    [coerceDefaultValue]. *)

From Stdlib Require Import PrimFloat FloatOps SpecFloat Uint63 ZArith.
From Stdlib Require Import Ascii String.
From stdpp Require Import base list strings gmap pretty.

Open Scope string_scope.
Set Warnings "-register-all".

(* ================================================================== *)
(** ** JavaScript values *)
(* ================================================================== *)

(** [props] of [VObj] lists the own enumerable properties of a plain
    object in the order [Object.keys] enumerates them; the keys of an
    object are pairwise distinct.  [VList] is an array (the iterable
    objects of this development).  [VSymbol] stands for the values that
    are neither nullish, object-like, boolean, number nor string. *)
Inductive value : Type :=
| VUndefined
| VNull
| VBool (b : bool)
| VNum (n : float)
| VStr (s : string)
| VSymbol (description : string)
| VList (items : list value)
| VObj (props : list (string * value)).

(** [v === undefined] *)
Definition isUndefined (v : value) : bool :=
  match v with VUndefined => true | _ => false end.

(** [v == null] *)
Definition isNullish (v : value) : bool :=
  match v with VUndefined | VNull => true | _ => false end.

(** [v === null] *)
Definition isNull (v : value) : bool :=
  match v with VNull => true | _ => false end.

(** jsutils/isObjectLike: [typeof value == 'object' && value !== null]. *)
Definition isObjectLike (v : value) : bool :=
  match v with VList _ | VObj _ => true | _ => false end.

(** jsutils/isIterableObject: an object carrying [Symbol.iterator];
    strings are excluded by their [typeof]. *)
Definition isIterableObject (v : value) : bool :=
  match v with VList _ => true | _ => false end.

Definition numberOfNat (n : nat) : float :=
  PrimFloat.of_uint63 (Uint63.of_Z (Z.of_nat n)).

Fixpoint assoc {A : Type} (k : string) (l : list (string * A)) : option A :=
  match l with
  | [] => None
  | (k', a) :: rest => if String.eqb k' k then Some a else assoc k rest
  end.

(** [array[key]] for a canonical index string or ["length"]. *)
Fixpoint arrayIndex (key : string) (items : list value) (index : nat) : value :=
  match items with
  | [] => VUndefined
  | item :: rest =>
      if String.eqb (pretty index) key then item
      else arrayIndex key rest (S index)
  end.

(** The methods of [Object.prototype] (ECMAScript 2022, Annex B
    included), other than [constructor]. *)
Definition objectPrototypeMethods : list string :=
  ["hasOwnProperty"; "isPrototypeOf"; "propertyIsEnumerable";
   "toLocaleString"; "toString"; "valueOf"; "__defineGetter__";
   "__defineSetter__"; "__lookupGetter__"; "__lookupSetter__"].

(** The methods of [Array.prototype] (ECMAScript 2022) that
    [Object.prototype] does not name. *)
Definition arrayPrototypeMethods : list string :=
  ["at"; "concat"; "copyWithin"; "entries"; "every"; "fill"; "filter";
   "find"; "findIndex"; "flat"; "flatMap"; "forEach"; "includes";
   "indexOf"; "join"; "keys"; "lastIndexOf"; "map"; "pop"; "push";
   "reduce"; "reduceRight"; "reverse"; "shift"; "slice"; "some"; "sort";
   "splice"; "unshift"; "values"].

(** A built-in function: one of the values [VSymbol] stands for. *)
Definition builtinFunction (name : string) : value :=
  VSymbol ("[function " ++ name ++ "]").

(** [Object.prototype[key]]: what a plain object answers for a key it
    does not hold itself. *)
Definition inheritedProperty (key : string) : value :=
  if String.eqb key "constructor" then builtinFunction "Object"
  else if existsb (String.eqb key) objectPrototypeMethods then
    builtinFunction key
  else if String.eqb key "__proto__" then VObj []
  else VUndefined.

(** [Array.prototype[key]]: what an array answers for a key that is
    neither its length nor one of its indices. *)
Definition inheritedArrayProperty (key : string) : value :=
  if String.eqb key "constructor" then builtinFunction "Array"
  else if existsb (String.eqb key) arrayPrototypeMethods then
    builtinFunction key
  else if String.eqb key "__proto__" then VList []
  else inheritedProperty key.

(** [inputValue[key]]: a property the object holds itself (for an array
    its length and its items), else the property it inherits.  Objects
    are plain objects and arrays; an object made without a prototype is
    not represented. *)
Definition getProperty (inputValue : value) (key : string) : value :=
  match inputValue with
  | VObj props =>
      match assoc key props with
      | Some v => v
      | None => inheritedProperty key
      end
  | VList items =>
      if String.eqb key "length" then VNum (numberOfNat (length items))
      else if existsb (fun i : nat => String.eqb (pretty i) key)
                (seq 0 (length items))
      then arrayIndex key items 0
      else inheritedArrayProperty key
  | _ => VUndefined
  end.

(** [Object.keys(inputValue)] *)
Definition Object_keys (inputValue : value) : list string :=
  match inputValue with
  | VObj props => map fst props
  | VList items => map (fun i : nat => pretty i) (seq 0 (length items))
  | _ => []
  end.

(** [obj[key] = v] on an object under construction: an existing key keeps
    its position, a new one is enumerated last. *)
Fixpoint setProperty (key : string) (v : value) (props : list (string * value))
  : list (string * value) :=
  match props with
  | [] => [(key, v)]
  | (k, old) :: rest =>
      if String.eqb k key then (k, v) :: rest
      else (k, old) :: setProperty key v rest
  end.

(* ================================================================== *)
(** ** Value literals (language/ast) *)
(* ================================================================== *)

(** One constructor per [Kind] of value node; an [ObjectField] node is
    the pair of its [name.value] and its [value]. *)
Inductive ValueNode : Type :=
| VariableNode (name : string)
| NullValue
| IntValue (value : string)
| FloatValue (value : string)
| StringValue (value : string)
| BooleanValue (value : bool)
| EnumValue (value : string)
| ListValue (values : list ValueNode)
| ObjectValue (fields : list (string * ValueNode)).

Definition isVariableNode (n : ValueNode) : bool :=
  match n with VariableNode _ => true | _ => false end.
Definition isNullNode (n : ValueNode) : bool :=
  match n with NullValue => true | _ => false end.
Definition isListNode (n : ValueNode) : bool :=
  match n with ListValue _ => true | _ => false end.

(* ================================================================== *)
(** ** Errors and completions *)
(* ================================================================== *)

(** [new GraphQLError(message, null, null, null, null, originalError)];
    the original error is kept by its message. *)
Record GraphQLError : Type := mkGraphQLError {
  message : string;
  originalError : option string;
}.

(** What a [throw] carries: a [GraphQLError] or any other [Error]. *)
Inductive Thrown : Type :=
| ThrownGraphQLError (e : GraphQLError)
| ThrownError (msg : string).

Inductive Completion (A : Type) : Type :=
| Return (a : A)
| Throw (t : Thrown).
Arguments Return {A} a.
Arguments Throw {A} t.

(* ================================================================== *)
(** ** Input types (type/definition) *)
(* ================================================================== *)

(** A leaf carries its [parseValue] and [parseLiteral]; an input object
    carries [Object.values(getFields())] in declaration order.  A field
    descriptor is an object of the schema: [field_addr] is its identity,
    under which its [_coercedDefaultValue] is stored.  Types are finite
    trees here; an input type that reaches itself through one of its
    fields is not represented. *)
Inductive GraphQLInputType : Type :=
| GraphQLNonNull (ofType : GraphQLInputType)
| GraphQLList (ofType : GraphQLInputType)
| GraphQLInputObjectType (name : string) (fields : list GraphQLInputField)
| GraphQLScalarType (name : string)
    (parseValue : value -> Completion value)
    (parseLiteral : ValueNode -> option (gmap string value) -> Completion value)
| GraphQLEnumType (name : string)
    (parseValue : value -> Completion value)
    (parseLiteral : ValueNode -> option (gmap string value) -> Completion value)
with GraphQLInputField : Type :=
| mkInputField (name : string) (type : GraphQLInputType)
    (defaultValue : value) (addr : positive).

Definition field_name (f : GraphQLInputField) : string :=
  match f with mkInputField n _ _ _ => n end.
Definition field_type (f : GraphQLInputField) : GraphQLInputType :=
  match f with mkInputField _ t _ _ => t end.
Definition field_defaultValue (f : GraphQLInputField) : value :=
  match f with mkInputField _ _ d _ => d end.
Definition field_addr (f : GraphQLInputField) : positive :=
  match f with mkInputField _ _ _ a => a end.

Definition isNonNullType (t : GraphQLInputType) : bool :=
  match t with GraphQLNonNull _ => true | _ => false end.
Definition isListType (t : GraphQLInputType) : bool :=
  match t with GraphQLList _ => true | _ => false end.
Definition isInputObjectType (t : GraphQLInputType) : bool :=
  match t with GraphQLInputObjectType _ _ => true | _ => false end.
Definition isEnumType (t : GraphQLInputType) : bool :=
  match t with GraphQLEnumType _ _ _ => true | _ => false end.
Definition isLeafType (t : GraphQLInputType) : bool :=
  match t with
  | GraphQLScalarType _ _ _ | GraphQLEnumType _ _ _ => true
  | _ => false
  end.

(** [getNamedType]: strips every list and non-null wrapper. *)
Fixpoint getNamedType (t : GraphQLInputType) : GraphQLInputType :=
  match t with
  | GraphQLNonNull ofType | GraphQLList ofType => getNamedType ofType
  | _ => t
  end.

(** [fieldDefs[fieldName]] on the field map of an input object. *)
Fixpoint lookupField (fieldDefs : list GraphQLInputField) (fieldName : string)
  : option GraphQLInputField :=
  match fieldDefs with
  | [] => None
  | f :: rest =>
      if String.eqb (field_name f) fieldName then Some f
      else lookupField rest fieldName
  end.

(** [Object.keys(type.getFields())] *)
Definition fieldNames (fieldDefs : list GraphQLInputField) : list string :=
  map field_name fieldDefs.

(** Modelled from the spec: [isRequiredInputField] of type/definition,
    "a required field (Non-Null and no default)". *)
Definition isRequiredInputField (f : GraphQLInputField) : bool :=
  isNonNullType (field_type f) && isUndefined (field_defaultValue f).

(** The built-in [GraphQLID] scalar, recognised by its reserved name (the
    source compares object identity). *)
Definition isGraphQLID (t : GraphQLInputType) : bool :=
  match t with
  | GraphQLScalarType name _ _ => String.eqb name "ID"
  | _ => false
  end.

(* ================================================================== *)
(** ** Paths (jsutils/Path) *)
(* ================================================================== *)

Inductive PathKey : Type :=
| KeyName (s : string)
| KeyIndex (n : nat).

(** Modelled from the spec: jsutils/Path, "an immutable, append-only
    linked structure recording the chain of field names / list indices
    (and enclosing type names, for object-field segments) from the
    coercion root to the current recursion point ... converted to an
    ordered array (root-to-leaf) on demand". *)
Inductive Path : Type :=
| mkPath (prev : option Path) (key : PathKey) (typename : option string).

Definition addPath (prev : option Path) (key : PathKey)
    (typename : option string) : option Path :=
  Some (mkPath prev key typename).

Fixpoint pathKeysLeafFirst (p : Path) : list PathKey :=
  match p with
  | mkPath None key _ => [key]
  | mkPath (Some prev) key _ => key :: pathKeysLeafFirst prev
  end.

Definition pathToArray (path : option Path) : list PathKey :=
  match path with
  | None => []
  | Some p => rev (pathKeysLeafFirst p)
  end.

(* ================================================================== *)
(** ** Collaborators outside these modules *)
(* ================================================================== *)

(** The helpers the four modules import and only call: [String(number)],
    [inspect] on values and on types, [printPathArray],
    [suggestionList] and [didYouMean]. *)
Class Jsutils : Type := {
  Number_toString : float -> string;
  inspect : value -> string;
  inspectType : GraphQLInputType -> string;
  printPathArray : list PathKey -> string;
  suggestionList : string -> list string -> list string;
  didYouMean : list string -> string;
}.

(* ================================================================== *)
(** ** The store of memoized defaults *)
(* ================================================================== *)

(** [memo] holds the [_coercedDefaultValue] field of every descriptor
    (absent: the field was never written and reads [undefined]).
    [events] records, oldest first, each recomputation of a default and
    each assignment to the hidden field; it is never read by the code. *)
Inductive MemoEvent : Type :=
| Recomputed (addr : positive)
| Written (addr : positive) (v : value).

Record Heap : Type := mkHeap {
  memo : gmap positive value;
  events : list MemoEvent;
}.

Definition emptyHeap : Heap := mkHeap ∅ [].

(** [withDefaultValue._coercedDefaultValue] *)
Definition readMemo (addr : positive) (h : Heap) : value :=
  default VUndefined (memo h !! addr).

(** [withDefaultValue._coercedDefaultValue = v] *)
Definition writeMemo (addr : positive) (v : value) (h : Heap) : Heap :=
  mkHeap (<[addr := v]> (memo h)) (events h ++ [Written addr v]).

Definition noteRecompute (addr : positive) (h : Heap) : Heap :=
  mkHeap (memo h) (events h ++ [Recomputed addr]).

(** Computations over the store. *)
Definition M (A : Type) : Type := Heap -> A * Heap.

Definition ret {A : Type} (a : A) : M A := fun h => (a, h).

Definition bind {A B : Type} (m : M A) (k : A -> M B) : M B :=
  fun h => let (a, h') := m h in k a h'.

Notation "'let*' x ':=' m 'in' k" := (bind m (fun x => k))
  (at level 10, x name, m at level 100, k at level 200, only parsing).

(* ================================================================== *)
(** ** utilities/coerceInputValue.js *)
(* ================================================================== *)

(** The body of [coerceDefaultValue], with the coercion of the raw
    default passed as [compute]. *)
Definition coerceDefaultValueWith (compute : M value) (addr : positive)
  : M value :=
  fun h =>
    let coercedDefaultValue := readMemo addr h in
    if isUndefined coercedDefaultValue then
      let (coercedDefaultValue, h') := compute (noteRecompute addr h) in
      (coercedDefaultValue, writeMemo addr coercedDefaultValue h')
    else (coercedDefaultValue, h).

(** The [for ... of inputValue] loop of the list case. *)
Fixpoint coerceItems (coerceItem : value -> nat -> M value)
    (items : list value) (index : nat) (coercedValue : list value)
  : M value :=
  match items with
  | [] => ret (VList coercedValue)
  | itemValue :: rest =>
      let* coercedItem := coerceItem itemValue index in
      if isUndefined coercedItem then ret VUndefined
      else coerceItems coerceItem rest (S index) (coercedValue ++ [coercedItem])
  end.

(** "Ensure every provided field is defined." *)
Definition everyKeyDefined (fieldDefs : list GraphQLInputField)
    (inputValue : value) : bool :=
  forallb
    (fun fieldName => bool_decide (is_Some (lookupField fieldDefs fieldName)))
    (Object_keys inputValue).

Fixpoint coerceInputValueImpl (inputValue : value) (type : GraphQLInputType)
    (path : option Path) {struct type} : M value :=
  match type with
  | GraphQLNonNull ofType =>
      if isNullish inputValue then ret VUndefined
      else coerceInputValueImpl inputValue ofType path
  | GraphQLList itemType =>
      if isNullish inputValue then ret VNull
      else
        match inputValue with
        | VList items =>
            coerceItems
              (fun itemValue index =>
                 coerceInputValueImpl itemValue itemType
                   (addPath path (KeyIndex index) None))
              items 0 []
        | _ =>
            let* coercedItem := coerceInputValueImpl inputValue itemType path in
            ret (if isUndefined coercedItem then VUndefined
                 else VList [coercedItem])
        end
  | GraphQLInputObjectType name fieldDefs =>
      if isNullish inputValue then ret VNull
      else if negb (isObjectLike inputValue) then ret VUndefined
      else
        (fix fieldLoop (fields : list GraphQLInputField)
             (coercedValue : list (string * value)) {struct fields} : M value :=
           match fields with
           | [] =>
               ret (if everyKeyDefined fieldDefs inputValue
                    then VObj coercedValue else VUndefined)
           | mkInputField fname ftype fdefault faddr :: rest =>
               let fieldValue := getProperty inputValue fname in
               if negb (isUndefined fieldValue) then
                 let* coercedFieldValue :=
                   coerceInputValueImpl fieldValue ftype
                     (addPath path (KeyName fname) (Some name)) in
                 if isUndefined coercedFieldValue then ret VUndefined
                 else
                   fieldLoop rest
                     (setProperty fname coercedFieldValue coercedValue)
               else if negb (isUndefined fdefault) then
                 let* coercedDefault :=
                   coerceDefaultValueWith
                     (coerceInputValueImpl fdefault ftype None) faddr in
                 fieldLoop rest (setProperty fname coercedDefault coercedValue)
               else if isNonNullType ftype then ret VUndefined
               else fieldLoop rest coercedValue
           end) fieldDefs []
  | GraphQLScalarType _ parseValue _
  | GraphQLEnumType _ parseValue _ =>
      if isNullish inputValue then ret VNull
      else
        match parseValue inputValue with
        | Return parsed => ret parsed
        | Throw _ => ret VUndefined
        end
  end.

Definition coerceDefaultValue (withDefaultValue : GraphQLInputField)
  : M value :=
  coerceDefaultValueWith
    (coerceInputValueImpl (field_defaultValue withDefaultValue)
       (field_type withDefaultValue) None)
    (field_addr withDefaultValue).

(* ================================================================== *)
(** ** Error callbacks *)
(* ================================================================== *)

(** An [onError] callback acts on state of the caller's choice and either
    returns or throws. *)
Definition OnErrorCB (St : Type) : Type :=
  list PathKey -> value -> GraphQLError -> St -> Completion St.

Definition skip {St : Type} : St -> Completion St := fun s => Return s.

Definition andThen {St : Type} (first second : St -> Completion St)
  : St -> Completion St :=
  fun s =>
    match first s with
    | Return s' => second s'
    | Throw t => Throw t
    end.

Definition dq : string := String (ascii_of_nat 34) EmptyString.

Section WithJsutils.
Context `{Jsutils}.

(* ================================================================== *)
(** ** utilities/validateInputValue.js *)
(* ================================================================== *)

Definition reportInvalidValue {St : Type} (onError : OnErrorCB St)
    (msg : string) (value : value) (path : option Path)
    (originalError : option string) : St -> Completion St :=
  onError (pathToArray path) value (mkGraphQLError msg originalError).

(** The [for ... of inputValue] loop of the list case. *)
Fixpoint validateItems {St : Type}
    (validateItem : value -> nat -> St -> Completion St)
    (items : list value) (index : nat) : St -> Completion St :=
  match items with
  | [] => skip
  | itemValue :: rest =>
      andThen (validateItem itemValue index)
              (validateItems validateItem rest (S index))
  end.

(** "Ensure every provided field is defined." *)
Fixpoint validateKeys {St : Type} (onError : OnErrorCB St)
    (typeName : string) (fieldDefs : list GraphQLInputField)
    (inputValue : value) (path : option Path) (keys : list string)
  : St -> Completion St :=
  match keys with
  | [] => skip
  | fieldName :: rest =>
      andThen
        (if bool_decide (is_Some (lookupField fieldDefs fieldName)) then skip
         else
           let suggestions := suggestionList fieldName (fieldNames fieldDefs) in
           reportInvalidValue onError
             ("Field " ++ dq ++ fieldName ++ dq ++ " is not defined by type "
                ++ dq ++ typeName ++ dq ++ "." ++ didYouMean suggestions)
             inputValue path None)
        (validateKeys onError typeName fieldDefs inputValue path rest)
  end.

Fixpoint validateInputValueImpl {St : Type} (inputValue : value)
    (type : GraphQLInputType) (onError : OnErrorCB St) (path : option Path)
    {struct type} : St -> Completion St :=
  match type with
  | GraphQLNonNull ofType =>
      if isNullish inputValue then
        reportInvalidValue onError
          ("Expected non-nullable type " ++ dq ++ inspectType type ++ dq
             ++ " not to be null.")
          inputValue path None
      else validateInputValueImpl inputValue ofType onError path
  | GraphQLList itemType =>
      if isNullish inputValue then skip
      else
        match inputValue with
        | VList items =>
            validateItems
              (fun itemValue index =>
                 validateInputValueImpl itemValue itemType onError
                   (addPath path (KeyIndex index) None))
              items 0
        | _ => validateInputValueImpl inputValue itemType onError path
        end
  | GraphQLInputObjectType name fieldDefs =>
      if isNullish inputValue then skip
      else if negb (isObjectLike inputValue) then
        reportInvalidValue onError
          ("Expected type " ++ dq ++ name ++ dq ++ " to be an object.")
          inputValue path None
      else
        andThen
          ((fix fieldLoop (fields : list GraphQLInputField) {struct fields}
              : St -> Completion St :=
              match fields with
              | [] => skip
              | mkInputField fname ftype fdefault faddr :: rest =>
                  let fieldValue := getProperty inputValue fname in
                  andThen
                    (if negb (isUndefined fieldValue) then
                       let fieldPath :=
                         addPath path (KeyName fname) (Some name) in
                       validateInputValueImpl fieldValue ftype onError fieldPath
                     else if isRequiredInputField
                               (mkInputField fname ftype fdefault faddr) then
                       reportInvalidValue onError
                         ("Field " ++ dq ++ fname ++ dq ++ " of required type "
                            ++ dq ++ inspectType ftype ++ dq
                            ++ " was not provided.")
                         inputValue path None
                     else skip)
                    (fieldLoop rest)
              end) fieldDefs)
          (validateKeys onError name fieldDefs inputValue path
             (Object_keys inputValue))
  | GraphQLScalarType name parseValue _
  | GraphQLEnumType name parseValue _ =>
      if isNullish inputValue then skip
      else
        match parseValue inputValue with
        | Throw (ThrownGraphQLError caughtError) =>
            onError (pathToArray path) inputValue caughtError
        | Throw (ThrownError caughtMessage) =>
            reportInvalidValue onError
              ("Expected type " ++ dq ++ name ++ dq ++ "." ++ " "
                 ++ caughtMessage)
              inputValue path (Some caughtMessage)
        | Return result =>
            if isUndefined result then
              reportInvalidValue onError
                ("Expected type " ++ dq ++ name ++ dq ++ ".")
                inputValue path None
            else skip
        end
  end.

Definition validateInputValue {St : Type} (inputValue : value)
    (type : GraphQLInputType) (onError : OnErrorCB St) : St -> Completion St :=
  validateInputValueImpl inputValue type onError None.

(* ================================================================== *)
(** ** utilities/coerceInputValue.js, entry point *)
(* ================================================================== *)

Definition coerceInputValue {St : Type} (inputValue : value)
    (type : GraphQLInputType) (onError : OnErrorCB St) (h : Heap) (s : St)
  : Completion (value * Heap * St) :=
  let (coercedValue, h') := coerceInputValueImpl inputValue type None h in
  if isUndefined coercedValue then
    match validateInputValue inputValue type onError s with
    | Return s' => Return (coercedValue, h', s')
    | Throw t => Throw t
    end
  else Return (coercedValue, h', s).

Definition defaultOnError {St : Type} : OnErrorCB St :=
  fun path invalidValue error _ =>
    let errorPrefix := "Invalid value " ++ inspect invalidValue in
    let errorPrefix :=
      if (0 <? length path)%nat then
        errorPrefix ++ " at " ++ dq ++ "value" ++ printPathArray path ++ dq
      else errorPrefix in
    Throw (ThrownGraphQLError
             (mkGraphQLError (errorPrefix ++ ": " ++ message error)
                (originalError error))).

(* ================================================================== *)
(** ** utilities/coerceInputLiteral.js *)
(* ================================================================== *)

(** [variables[name]]: the mapping is a plain object, so a name it does
    not hold itself is read from [Object.prototype]. *)
Definition lookupVariable (variables : gmap string value) (name : string)
  : value :=
  match variables !! name with
  | Some v => v
  | None => inheritedProperty name
  end.

(** "Returns true if the provided valueNode is a variable which is not
    defined in the set of variables." *)
Definition isMissingVariable (valueNode : ValueNode)
    (variables : option (gmap string value)) : bool :=
  match valueNode with
  | VariableNode name =>
      match variables with
      | None => true
      | Some vars => isUndefined (lookupVariable vars name)
      end
  | _ => false
  end.

(** jsutils/keyMap over the field nodes of an object literal: a later
    field of the same name replaces an earlier one. *)
Definition keyMap (fields : list (string * ValueNode))
  : gmap string ValueNode :=
  foldl (fun map field => <[field.1 := field.2]> map) ∅ fields.

(** The [for ... of valueNode.values] loop of the list case. *)
Fixpoint coerceItemNodes (coerceItem : ValueNode -> M value)
    (itemTypeNonNull : bool) (variables : option (gmap string value))
    (values : list ValueNode) (coercedValue : list value) : M value :=
  match values with
  | [] => ret (VList coercedValue)
  | itemNode :: rest =>
      let* itemValue := coerceItem itemNode in
      if isUndefined itemValue then
        if isMissingVariable itemNode variables && negb itemTypeNonNull then
          coerceItemNodes coerceItem itemTypeNonNull variables rest
            (coercedValue ++ [VNull])
        else ret VUndefined
      else
        coerceItemNodes coerceItem itemTypeNonNull variables rest
          (coercedValue ++ [itemValue])
  end.

Fixpoint coerceInputLiteral (valueNode : ValueNode) (type : GraphQLInputType)
    (variables : option (gmap string value)) {struct type} : M value :=
  match valueNode with
  | VariableNode varName =>
      match variables with
      | None => ret VUndefined
      | Some vars =>
          if isMissingVariable valueNode variables then ret VUndefined
          else
            let variableValue := lookupVariable vars varName in
            if isNull variableValue && isNonNullType type then ret VUndefined
            else ret variableValue
      end
  | _ =>
      match type with
      | GraphQLNonNull ofType =>
          if isNullNode valueNode then ret VUndefined
          else coerceInputLiteral valueNode ofType variables
      | GraphQLList itemType =>
          if isNullNode valueNode then ret VNull
          else
            match valueNode with
            | ListValue values =>
                coerceItemNodes
                  (fun itemNode =>
                     coerceInputLiteral itemNode itemType variables)
                  (isNonNullType itemType) variables values []
            | _ =>
                let* itemValue :=
                  coerceInputLiteral valueNode itemType variables in
                ret (if isUndefined itemValue then VUndefined
                     else VList [itemValue])
            end
      | GraphQLInputObjectType name fieldDefs =>
          if isNullNode valueNode then ret VNull
          else
            match valueNode with
            | ObjectValue nodeFields =>
                let fieldNodes := keyMap nodeFields in
                (fix fieldLoop (fields : list GraphQLInputField)
                     (coercedValue : list (string * value)) {struct fields}
                   : M value :=
                   match fields with
                   | [] => ret (VObj coercedValue)
                   | mkInputField fname ftype fdefault faddr :: rest =>
                       match fieldNodes !! fname with
                       | Some fieldNode =>
                           if negb (isMissingVariable fieldNode variables) then
                             let* fieldValue :=
                               coerceInputLiteral fieldNode ftype variables in
                             if isUndefined fieldValue then ret VUndefined
                             else fieldLoop rest
                                    (setProperty fname fieldValue coercedValue)
                           else if negb (isUndefined fdefault) then
                             let* coercedDefault :=
                               coerceDefaultValue
                                 (mkInputField fname ftype fdefault faddr) in
                             fieldLoop rest
                               (setProperty fname coercedDefault coercedValue)
                           else if isNonNullType ftype then ret VUndefined
                           else fieldLoop rest coercedValue
                       | None =>
                           if negb (isUndefined fdefault) then
                             let* coercedDefault :=
                               coerceDefaultValue
                                 (mkInputField fname ftype fdefault faddr) in
                             fieldLoop rest
                               (setProperty fname coercedDefault coercedValue)
                           else if isNonNullType ftype then ret VUndefined
                           else fieldLoop rest coercedValue
                       end
                   end) fieldDefs []
            | _ => ret VUndefined
            end
      | GraphQLScalarType _ _ parseLiteral
      | GraphQLEnumType _ _ parseLiteral =>
          if isNullNode valueNode then ret VNull
          else
            match parseLiteral valueNode variables with
            | Return parsed => ret parsed
            | Throw _ => ret VUndefined
            end
      end
  end.

(* ================================================================== *)
(** ** utilities/valueFromAST.js *)
(* ================================================================== *)

(** The deprecated entry point; its deprecation warning is not modelled.
    An absent node is answered without calling [coerceInputLiteral]. *)
Definition valueFromAST (valueNode : option ValueNode)
    (type : GraphQLInputType) (variables : option (gmap string value))
  : M value :=
  match valueNode with
  | None => ret VUndefined
  | Some node => coerceInputLiteral node type variables
  end.

(* ================================================================== *)
(** ** utilities/astFromValue.js *)
(* ================================================================== *)

Definition isDigit (c : ascii) : bool :=
  let n := nat_of_ascii c in (48 <=? n)%nat && (n <=? 57)%nat.

Definition isNonZeroDigit (c : ascii) : bool :=
  let n := nat_of_ascii c in (49 <=? n)%nat && (n <=? 57)%nat.

Definition isNameStart (c : ascii) : bool :=
  let n := nat_of_ascii c in
  (n =? 95)%nat || ((97 <=? n)%nat && (n <=? 122)%nat)
  || ((65 <=? n)%nat && (n <=? 90)%nat).

Definition isNameContinue (c : ascii) : bool := isNameStart c || isDigit c.

Fixpoint allChars (p : ascii -> bool) (s : string) : bool :=
  match s with
  | EmptyString => true
  | String c rest => p c && allChars p rest
  end.

Definition stripMinus (s : string) : string :=
  match s with
  | String c rest => if Ascii.eqb c "-" then rest else s
  | EmptyString => s
  end.

(** [integerStringRegExp.test(s)]: an optional minus sign, then either a
    single 0 or a digit 1-9 followed by any number of digits 0-9, up to
    the end of the string (IntValue: NegativeSign? 0, or NegativeSign?
    NonZeroDigit Digit+?). *)
Definition integerStringRegExp_test (s : string) : bool :=
  match stripMinus s with
  | EmptyString => false
  | String c rest =>
      if Ascii.eqb c "0" then String.eqb rest EmptyString
      else isNonZeroDigit c && allChars isDigit rest
  end.

(** [nameRegExp.test(s)], [/^[_a-zA-Z][_a-zA-Z0-9]*$/] *)
Definition nameRegExp_test (s : string) : bool :=
  match s with
  | EmptyString => false
  | String c rest => isNameStart c && allChars isNameContinue rest
  end.

(** [fieldDefs?.[fieldName]?.type] where [fieldDefs] is
    [namedType && isInputObjectType(namedType) && namedType.getFields()]. *)
Definition fieldTypeHint (namedType : option GraphQLInputType)
    (fieldName : string) : option GraphQLInputType :=
  match namedType with
  | Some (GraphQLInputObjectType _ fieldDefs) =>
      field_type <$> lookupField fieldDefs fieldName
  | _ => None
  end.

Fixpoint astFromValue (value : value) (type : option GraphQLInputType)
    {struct value} : Completion ValueNode :=
  let namedType := getNamedType <$> type in
  match value with
  | VUndefined | VNull => Return NullValue
  | VList items =>
      match
        (fix arrayFrom (items : list _) {struct items}
           : Completion (list ValueNode) :=
           match items with
           | [] => Return []
           | item :: rest =>
               match astFromValue item namedType with
               | Throw t => Throw t
               | Return node =>
                   match arrayFrom rest with
                   | Throw t => Throw t
                   | Return nodes => Return (node :: nodes)
                   end
               end
           end) items
      with
      | Throw t => Throw t
      | Return values => Return (ListValue values)
      end
  | VObj props =>
      match
        (fix mapKeys (props : list (string * _)) {struct props}
           : Completion (list (string * ValueNode)) :=
           match props with
           | [] => Return []
           | (fieldName, fieldValue) :: rest =>
               match astFromValue fieldValue
                       (fieldTypeHint namedType fieldName) with
               | Throw t => Throw t
               | Return node =>
                   match mapKeys rest with
                   | Throw t => Throw t
                   | Return nodes => Return ((fieldName, node) :: nodes)
                   end
               end
           end) props
      with
      | Throw t => Throw t
      | Return fields => Return (ObjectValue fields)
      end
  | VBool b => Return (BooleanValue b)
  | VNum n =>
      if negb (PrimFloat.is_finite n) then Return NullValue
      else
        let stringNum := Number_toString n in
        Return (if integerStringRegExp_test stringNum
                then IntValue stringNum
                else FloatValue stringNum)
  | VStr s =>
      if from_option isEnumType false namedType && nameRegExp_test s then
        Return (EnumValue s)
      else if from_option isGraphQLID false namedType
              && integerStringRegExp_test s then
        Return (IntValue s)
      else Return (StringValue s)
  | VSymbol _ =>
      Throw (ThrownError
               ("Cannot convert value to AST: " ++ inspect value ++ "."))
  end.

(* ================================================================== *)
(** ** The loops of the functions above, named *)
(* ================================================================== *)

(** Each local loop of a function above is given a name here, with the
    same body, so that it can be reasoned about on its own. *)

(** The field loop of [coerceInputValueImpl]. *)
Definition coerceFields (name : string) (fieldDefs : list GraphQLInputField)
    (inputValue : value) (path : option Path)
  : list GraphQLInputField -> list (string * value) -> M value :=
  fix fieldLoop (fields : list GraphQLInputField)
      (coercedValue : list (string * value)) {struct fields} : M value :=
    match fields with
    | [] =>
        ret (if everyKeyDefined fieldDefs inputValue
             then VObj coercedValue else VUndefined)
    | mkInputField fname ftype fdefault faddr :: rest =>
        let fieldValue := getProperty inputValue fname in
        if negb (isUndefined fieldValue) then
          let* coercedFieldValue :=
            coerceInputValueImpl fieldValue ftype
              (addPath path (KeyName fname) (Some name)) in
          if isUndefined coercedFieldValue then ret VUndefined
          else fieldLoop rest (setProperty fname coercedFieldValue coercedValue)
        else if negb (isUndefined fdefault) then
          let* coercedDefault :=
            coerceDefaultValueWith
              (coerceInputValueImpl fdefault ftype None) faddr in
          fieldLoop rest (setProperty fname coercedDefault coercedValue)
        else if isNonNullType ftype then ret VUndefined
        else fieldLoop rest coercedValue
    end.

(** What one declared field contributes to [validateInputValueImpl]. *)
Definition validateField {St : Type} (name : string) (inputValue : value)
    (onError : OnErrorCB St) (path : option Path) (field : GraphQLInputField)
  : St -> Completion St :=
  let fieldValue := getProperty inputValue (field_name field) in
  if negb (isUndefined fieldValue) then
    let fieldPath := addPath path (KeyName (field_name field)) (Some name) in
    validateInputValueImpl fieldValue (field_type field) onError fieldPath
  else if isRequiredInputField field then
    reportInvalidValue onError
      ("Field " ++ dq ++ field_name field ++ dq ++ " of required type "
         ++ dq ++ inspectType (field_type field) ++ dq
         ++ " was not provided.")
      inputValue path None
  else skip.

(** The field loop of [validateInputValueImpl]. *)
Fixpoint validateFields {St : Type} (name : string) (inputValue : value)
    (onError : OnErrorCB St) (path : option Path)
    (fields : list GraphQLInputField) : St -> Completion St :=
  match fields with
  | [] => skip
  | field :: rest =>
      andThen (validateField name inputValue onError path field)
              (validateFields name inputValue onError path rest)
  end.

(** The field loop of [coerceInputLiteral]. *)
Definition coerceLiteralFields (fieldNodes : gmap string ValueNode)
    (variables : option (gmap string value))
  : list GraphQLInputField -> list (string * value) -> M value :=
  fix fieldLoop (fields : list GraphQLInputField)
      (coercedValue : list (string * value)) {struct fields} : M value :=
    match fields with
    | [] => ret (VObj coercedValue)
    | mkInputField fname ftype fdefault faddr :: rest =>
        match fieldNodes !! fname with
        | Some fieldNode =>
            if negb (isMissingVariable fieldNode variables) then
              let* fieldValue :=
                coerceInputLiteral fieldNode ftype variables in
              if isUndefined fieldValue then ret VUndefined
              else fieldLoop rest (setProperty fname fieldValue coercedValue)
            else if negb (isUndefined fdefault) then
              let* coercedDefault :=
                coerceDefaultValue (mkInputField fname ftype fdefault faddr) in
              fieldLoop rest (setProperty fname coercedDefault coercedValue)
            else if isNonNullType ftype then ret VUndefined
            else fieldLoop rest coercedValue
        | None =>
            if negb (isUndefined fdefault) then
              let* coercedDefault :=
                coerceDefaultValue (mkInputField fname ftype fdefault faddr) in
              fieldLoop rest (setProperty fname coercedDefault coercedValue)
            else if isNonNullType ftype then ret VUndefined
            else fieldLoop rest coercedValue
        end
    end.

(** [Array.from(value, item => astFromValue(item, namedType))] *)
Definition astFromItems (namedType : option GraphQLInputType)
  : list value -> Completion (list ValueNode) :=
  fix arrayFrom (items : list value) {struct items}
    : Completion (list ValueNode) :=
    match items with
    | [] => Return []
    | item :: rest =>
        match astFromValue item namedType with
        | Throw t => Throw t
        | Return node =>
            match arrayFrom rest with
            | Throw t => Throw t
            | Return nodes => Return (node :: nodes)
            end
        end
    end.

(** [Object.keys(value).map(fieldName => ...)] of [astFromValue]. *)
Definition astFromProps (namedType : option GraphQLInputType)
  : list (string * value) -> Completion (list (string * ValueNode)) :=
  fix mapKeys (props : list (string * value)) {struct props}
    : Completion (list (string * ValueNode)) :=
    match props with
    | [] => Return []
    | (fieldName, fieldValue) :: rest =>
        match astFromValue fieldValue (fieldTypeHint namedType fieldName) with
        | Throw t => Throw t
        | Return node =>
            match mapKeys rest with
            | Throw t => Throw t
            | Return nodes => Return ((fieldName, node) :: nodes)
            end
        end
    end.

(** The type with every non-null wrapper removed, at any depth. *)
Fixpoint stripNonNull (t : GraphQLInputType) : GraphQLInputType :=
  match t with
  | GraphQLNonNull ofType => stripNonNull ofType
  | GraphQLList ofType => GraphQLList (stripNonNull ofType)
  | GraphQLInputObjectType name fields =>
      GraphQLInputObjectType name
        ((fix each (fs : list GraphQLInputField) : list GraphQLInputField :=
            match fs with
            | [] => []
            | mkInputField fname ftype fdefault faddr :: rest =>
                mkInputField fname (stripNonNull ftype) fdefault faddr
                  :: each rest
            end) fields)
  | GraphQLScalarType _ _ _ | GraphQLEnumType _ _ _ => t
  end.

Definition stripNonNullField (f : GraphQLInputField) : GraphQLInputField :=
  mkInputField (field_name f) (stripNonNull (field_type f))
    (field_defaultValue f) (field_addr f).

(* ================================================================== *)
(** ** Reports *)
(* ================================================================== *)

(** One invocation of the error callback. *)
Definition Report : Type := (list PathKey * value * GraphQLError)%type.

(** The callback that accumulates every report and never throws. *)
Definition collect : OnErrorCB (list Report) :=
  fun path invalidValue error acc =>
    Return (acc ++ [(path, invalidValue, error)])%list.

(** The reports [validateInputValueImpl] hands to an accumulating
    callback. *)
Definition reportsOf (inputValue : value) (type : GraphQLInputType)
    (path : option Path) : list Report :=
  match validateInputValueImpl inputValue type collect path [] with
  | Return reports => reports
  | Throw _ => []
  end.

(** Calling [onError] on each report in turn, until it throws. *)
Fixpoint deliver {St : Type} (onError : OnErrorCB St) (reports : list Report)
  : St -> Completion St :=
  match reports with
  | [] => skip
  | (path, invalidValue, error) :: rest =>
      andThen (onError path invalidValue error) (deliver onError rest)
  end.


(** The report for a null or absent value at a non-null type. *)
Definition nonNullReport (inputValue : value) (type : GraphQLInputType)
    (path : option Path) : Report :=
  (pathToArray path, inputValue,
   mkGraphQLError
     ("Expected non-nullable type " ++ dq ++ inspectType type ++ dq
        ++ " not to be null.") None).

(** The report for a required field that was not provided. *)
Definition missingFieldReport (inputValue : value) (path : option Path)
    (field : GraphQLInputField) : Report :=
  (pathToArray path, inputValue,
   mkGraphQLError
     ("Field " ++ dq ++ field_name field ++ dq ++ " of required type "
        ++ dq ++ inspectType (field_type field) ++ dq
        ++ " was not provided.") None).

(** The report for a key of the input that no field declares. *)
Definition unknownFieldReport (name : string)
    (fieldDefs : list GraphQLInputField) (inputValue : value)
    (path : option Path) (fieldName : string) : Report :=
  (pathToArray path, inputValue,
   mkGraphQLError
     ("Field " ++ dq ++ fieldName ++ dq ++ " is not defined by type "
        ++ dq ++ name ++ dq ++ "."
        ++ didYouMean (suggestionList fieldName (fieldNames fieldDefs)))
     None).

(** The keys of the input that no field declares, in key order. *)
Definition unknownKeys (fieldDefs : list GraphQLInputField)
    (inputValue : value) : list string :=
  List.filter
    (fun fieldName =>
       negb (bool_decide (is_Some (lookupField fieldDefs fieldName))))
    (Object_keys inputValue).

(** The reports one declared field gives rise to. *)
Definition fieldReports (name : string) (inputValue : value)
    (path : option Path) (field : GraphQLInputField) : list Report :=
  let fieldValue := getProperty inputValue (field_name field) in
  if negb (isUndefined fieldValue) then
    reportsOf fieldValue (field_type field)
      (addPath path (KeyName (field_name field)) (Some name))
  else if isRequiredInputField field then
    [missingFieldReport inputValue path field]
  else [].

(** The reports the items of an array give rise to, from [index] on. *)
Fixpoint itemsReports (itemType : GraphQLInputType) (path : option Path)
    (items : list value) (index : nat) : list Report :=
  match items with
  | [] => []
  | itemValue :: rest =>
      (reportsOf itemValue itemType (addPath path (KeyIndex index) None)
         ++ itemsReports itemType path rest (S index))%list
  end.

(** The reports of the unknown-key loop. *)
Definition unknownKeysReports (name : string)
    (fieldDefs : list GraphQLInputField) (inputValue : value)
    (path : option Path) : list Report :=
  map (unknownFieldReport name fieldDefs inputValue path)
      (unknownKeys fieldDefs inputValue).

(** The syntax of an integer literal: an optional minus sign, then a
    single 0 or a non-zero digit followed by digits. *)
Inductive IntegerSyntax : string -> Prop :=
| IntegerZero (negative : bool) :
    IntegerSyntax ((if negative then "-" else "") ++ "0")
| IntegerNonZero (negative : bool) (c : ascii) (rest : string) :
    isNonZeroDigit c = true -> allChars isDigit rest = true ->
    IntegerSyntax ((if negative then "-" else "") ++ String c rest).

(** [[coercedItem]], or no value when the item has none. *)
Definition listOfOne (coercedItem : value) : value :=
  if isUndefined coercedItem then VUndefined else VList [coercedItem].

(* ================================================================== *)
(** ** Reading the event log *)
(* ================================================================== *)

Definition eventAddr (e : MemoEvent) : positive :=
  match e with Recomputed addr | Written addr _ => addr end.

(** How many assignments to the hidden field of [addr] the log holds. *)
Fixpoint countWritten (addr : positive) (log : list MemoEvent) : nat :=
  match log with
  | [] => 0
  | Written a _ :: rest =>
      (if Pos.eqb a addr then 1 else 0) + countWritten addr rest
  | Recomputed _ :: rest => countWritten addr rest
  end.

(** How many coercions of the raw default of [addr] the log holds. *)
Fixpoint countRecomputed (addr : positive) (log : list MemoEvent) : nat :=
  match log with
  | [] => 0
  | Recomputed a :: rest =>
      (if Pos.eqb a addr then 1 else 0) + countRecomputed addr rest
  | Written _ _ :: rest => countRecomputed addr rest
  end.

(** The addresses of the field descriptors inside a type. *)
Fixpoint typeAddrs (t : GraphQLInputType) : list positive :=
  match t with
  | GraphQLNonNull ofType | GraphQLList ofType => typeAddrs ofType
  | GraphQLInputObjectType _ fields =>
      (fix each (fs : list GraphQLInputField) : list positive :=
         match fs with
         | [] => []
         | mkInputField _ ftype _ faddr :: rest =>
             (faddr :: typeAddrs ftype ++ each rest)%list
         end) fields
  | GraphQLScalarType _ _ _ | GraphQLEnumType _ _ _ => []
  end.

Definition fieldsAddrs (fields : list GraphQLInputField) : list positive :=
  flat_map (fun f => field_addr f :: typeAddrs (field_type f)) fields.

(** The hidden field of the descriptor at [addr] holds [cachedValue]. *)
Definition holds (addr : positive) (cachedValue : value) (h : Heap) : Prop :=
  readMemo addr h = cachedValue.

(** From [h] to [h'] the log only grew, by events at addresses in
    [addrs]. *)
Definition logsWithin (addrs : list positive) (h h' : Heap) : Prop :=
  exists evs,
    events h' = (events h ++ evs)%list
    /\ Forall (fun e => eventAddr e ∈ addrs) evs.

(** The events logged from [h] to [h']. *)
Definition loggedSince (h h' : Heap) : list MemoEvent :=
  drop (length (events h)) (events h').

(* ================================================================== *)
(** ** Values in coerced form *)
(* ================================================================== *)

(** The leaf [t] reads the literal that [astFromValue] writes for [v]
    back as [v]; the literal is not the null literal. *)
Definition LeafRoundTrips (v : value) (t : GraphQLInputType) : Prop :=
  match t with
  | GraphQLScalarType _ _ parseLiteral
  | GraphQLEnumType _ _ parseLiteral =>
      exists node,
        astFromValue v (Some t) = Return node
        /\ isNullNode node = false
        /\ parseLiteral node None = Return v
  | _ => False
  end.

(** [Canonical v t]: [v] has the form coercion against [t] produces.
    Non-null positions hold no null; a list type holds [null] or an
    array of canonical items; an input object type, whose field names
    are distinct, holds [null] or an object that lists, in declaration
    order, a canonical value for each declared field, where only a
    nullable field without default may be left out; a leaf holds [null]
    or a value the leaf reads back from its literal. *)
Inductive Canonical : value -> GraphQLInputType -> Prop :=
| CanonicalNonNull (v : value) (t : GraphQLInputType) :
    isNullish v = false -> Canonical v t -> Canonical v (GraphQLNonNull t)
| CanonicalListNull (t : GraphQLInputType) : Canonical VNull (GraphQLList t)
| CanonicalList (items : list value) (t : GraphQLInputType) :
    Forall (fun item => Canonical item t) items ->
    Canonical (VList items) (GraphQLList t)
| CanonicalObjectNull (name : string) (fds : list GraphQLInputField) :
    Canonical VNull (GraphQLInputObjectType name fds)
| CanonicalObject (props : list (string * value)) (name : string)
    (fds : list GraphQLInputField) :
    NoDup (fieldNames fds) -> CanonicalFields props fds ->
    Canonical (VObj props) (GraphQLInputObjectType name fds)
| CanonicalLeafNull (t : GraphQLInputType) :
    isLeafType t = true -> Canonical VNull t
| CanonicalLeaf (v : value) (t : GraphQLInputType) :
    LeafRoundTrips v t -> Canonical v t
with CanonicalFields
  : list (string * value) -> list GraphQLInputField -> Prop :=
| CanonicalFieldsNil : CanonicalFields [] []
| CanonicalFieldsPresent (f : GraphQLInputField) (fieldValue : value)
    (props : list (string * value)) (rest : list GraphQLInputField) :
    Canonical fieldValue (field_type f) -> CanonicalFields props rest ->
    CanonicalFields ((field_name f, fieldValue) :: props) (f :: rest)
| CanonicalFieldsAbsent (f : GraphQLInputField)
    (props : list (string * value)) (rest : list GraphQLInputField) :
    field_defaultValue f = VUndefined -> isNonNullType (field_type f) = false ->
    CanonicalFields props rest -> CanonicalFields props (f :: rest).

(* ================================================================== *)
(** ** Notions used to state further properties *)
(* ================================================================== *)

(** A value with no literal form occurs in [v], at any depth. *)
Fixpoint containsSymbol (v : value) : bool :=
  match v with
  | VSymbol _ => true
  | VList items =>
      (fix any (l : list value) : bool :=
         match l with
         | [] => false
         | item :: rest => containsSymbol item || any rest
         end) items
  | VObj props =>
      (fix any (l : list (string * value)) : bool :=
         match l with
         | [] => false
         | (_, fieldValue) :: rest => containsSymbol fieldValue || any rest
         end) props
  | _ => false
  end.

(** The first value with no literal form in [v], by description: the
    items of an array are searched in order and the properties of an
    object in key order, each to its full depth before the next. *)
Fixpoint firstSymbol (v : value) : option string :=
  match v with
  | VSymbol description => Some description
  | VList items =>
      (fix first (l : list value) : option string :=
         match l with
         | [] => None
         | item :: rest =>
             match firstSymbol item with
             | Some description => Some description
             | None => first rest
             end
         end) items
  | VObj props =>
      (fix first (l : list (string * value)) : option string :=
         match l with
         | [] => None
         | (_, fieldValue) :: rest =>
             match firstSymbol fieldValue with
             | Some description => Some description
             | None => first rest
             end
         end) props
  | _ => None
  end.

(** What [astFromValue] answers, by the first value with no literal form
    it meets: the error that names that value, or a result. *)
Definition astOutcome {A : Type} (unsupported : option string)
    (c : Completion A) : Prop :=
  match unsupported with
  | Some description =>
      c = Throw (ThrownError
                   ("Cannot convert value to AST: "
                      ++ inspect (VSymbol description) ++ "."))
  | None => exists result, c = Return result
  end.

(** A variable reference occurs in the node, at any depth. *)
Fixpoint nodeHasVariable (n : ValueNode) : bool :=
  match n with
  | VariableNode _ => true
  | ListValue values =>
      (fix any (l : list ValueNode) : bool :=
         match l with
         | [] => false
         | item :: rest => nodeHasVariable item || any rest
         end) values
  | ObjectValue fields =>
      (fix any (l : list (string * ValueNode)) : bool :=
         match l with
         | [] => false
         | (_, fieldNode) :: rest => nodeHasVariable fieldNode || any rest
         end) fields
  | _ => false
  end.

(** The value node of the last field named [k] in an object literal. *)
Fixpoint lastNode (k : string) (fields : list (string * ValueNode))
  : option ValueNode :=
  match fields with
  | [] => None
  | (k', n) :: rest =>
      match lastNode k rest with
      | Some later => Some later
      | None => if String.eqb k' k then Some n else None
      end
  end.

(** The node a field of the literal supplies for the loop of
    [coerceInputLiteral]: none when the field is absent or is a missing
    variable. *)
Definition suppliedNode (fieldNodes : gmap string ValueNode)
    (variables : option (gmap string value)) (k : string)
  : option ValueNode :=
  match fieldNodes !! k with
  | Some fieldNode =>
      if isMissingVariable fieldNode variables then None else Some fieldNode
  | None => None
  end.


(** From [h] to [h'] the hidden field of every descriptor outside
    [addrs] kept its content. *)
Definition memoWithin (addrs : list positive) (h h' : Heap) : Prop :=
  forall addr, addr ∉ addrs -> memo h' !! addr = memo h !! addr.

(** Every Int literal in the node has the syntax of an integer and every
    Enum literal that of a name, at any depth. *)
Fixpoint literalSyntaxOk (n : ValueNode) : bool :=
  match n with
  | IntValue s => integerStringRegExp_test s
  | EnumValue s => nameRegExp_test s
  | ListValue values =>
      (fix all (l : list ValueNode) : bool :=
         match l with
         | [] => true
         | item :: rest => literalSyntaxOk item && all rest
         end) values
  | ObjectValue fields =>
      (fix all (l : list (string * ValueNode)) : bool :=
         match l with
         | [] => true
         | (_, fieldNode) :: rest => literalSyntaxOk fieldNode && all rest
         end) fields
  | _ => true
  end.

End WithJsutils.

(* ================================================================== *)
(** ** Sample collaborators, types and callbacks *)
(* ================================================================== *)

(** Concrete stand-ins on which the functions above can be run. *)
Module Sample.

(** A leaf after [GraphQLString]: [parseValue] accepts strings,
    [parseLiteral] accepts string literals. *)
Definition parseStringValue (inputValue : value) : Completion value :=
  match inputValue with
  | VStr s => Return (VStr s)
  | _ =>
      Throw (ThrownGraphQLError
               (mkGraphQLError "String cannot represent a non string value"
                  None))
  end.

Definition parseStringLiteral (valueNode : ValueNode)
    (variables : option (gmap string value)) : Completion value :=
  match valueNode with
  | StringValue s => Return (VStr s)
  | _ =>
      Throw (ThrownGraphQLError
               (mkGraphQLError "String cannot represent a non string value"
                  None))
  end.

Definition String_ : GraphQLInputType :=
  GraphQLScalarType "String" parseStringValue parseStringLiteral.

(** A leaf after [GraphQLBoolean]. *)
Definition parseBooleanValue (inputValue : value) : Completion value :=
  match inputValue with
  | VBool b => Return (VBool b)
  | _ => Throw (ThrownError "Boolean cannot represent a non boolean value")
  end.

Definition parseBooleanLiteral (valueNode : ValueNode)
    (variables : option (gmap string value)) : Completion value :=
  match valueNode with
  | BooleanValue b => Return (VBool b)
  | _ => Throw (ThrownError "Boolean cannot represent a non boolean value")
  end.

Definition Boolean_ : GraphQLInputType :=
  GraphQLScalarType "Boolean" parseBooleanValue parseBooleanLiteral.

(** The digits after the decimal point of [f / 2^k], [f < 2^k]. *)
Fixpoint fractionDigits (fuel : nat) (f k : Z) : string :=
  match fuel with
  | O => ""
  | S fuel' =>
      if (f =? 0)%Z then ""
      else
        let f10 := (f * 10)%Z in
        pretty (f10 / 2 ^ k)%Z +:+ fractionDigits fuel' (f10 mod 2 ^ k)%Z k
  end.

(** A rendering of numbers: whole numbers in decimal, other finite
    numbers by their exact decimal expansion.  This is the string
    JavaScript gives for whole numbers below 10^21 in magnitude and for
    fractions with a short expansion, such as 123.5; JavaScript's
    exponent notation and shortest-digits rounding are not reproduced. *)
Definition numberToString (n : float) : string :=
  match FloatOps.Prim2SF n with
  | SpecFloat.S754_zero _ => "0"
  | SpecFloat.S754_infinity false => "Infinity"
  | SpecFloat.S754_infinity true => "-Infinity"
  | SpecFloat.S754_nan => "NaN"
  | SpecFloat.S754_finite sign m e =>
      (if sign then "-" else "") +:+
      (if (0 <=? e)%Z then pretty (Z.pos m * 2 ^ e)%Z
       else
         let k := (- e)%Z in
         let whole := (Z.pos m / 2 ^ k)%Z in
         let f := (Z.pos m mod 2 ^ k)%Z in
         if (f =? 0)%Z then pretty whole
         else pretty whole +:+ "." +:+ fractionDigits (Z.to_nat k) f k)
  end.

Definition joinWith (sep : string) (parts : list string) : string :=
  match parts with
  | [] => ""
  | first :: rest => foldl (fun acc part => acc +:+ sep +:+ part) first rest
  end.

Fixpoint inspectValue (v : value) : string :=
  match v with
  | VUndefined => "undefined"
  | VNull => "null"
  | VBool true => "true"
  | VBool false => "false"
  | VNum n => numberToString n
  | VStr s => dq +:+ s +:+ dq
  | VSymbol d => "Symbol(" +:+ d +:+ ")"
  | VList items =>
      "[" +:+ joinWith ", "
                ((fix each (l : list value) : list string :=
                    match l with
                    | [] => []
                    | x :: r => inspectValue x :: each r
                    end) items) +:+ "]"
  | VObj [] => "{}"
  | VObj props =>
      "{ " +:+ joinWith ", "
                 ((fix each (l : list (string * value)) : list string :=
                     match l with
                     | [] => []
                     | (k, x) :: r => (k +:+ ": " +:+ inspectValue x) :: each r
                     end) props) +:+ " }"
  end.

Fixpoint typeToString (t : GraphQLInputType) : string :=
  match t with
  | GraphQLNonNull ofType => typeToString ofType +:+ "!"
  | GraphQLList ofType => "[" +:+ typeToString ofType +:+ "]"
  | GraphQLInputObjectType name _ => name
  | GraphQLScalarType name _ _ => name
  | GraphQLEnumType name _ _ => name
  end.

Definition pathArrayToString (path : list PathKey) : string :=
  foldl (fun acc key =>
           match key with
           | KeyIndex i => acc +:+ "[" +:+ pretty i +:+ "]"
           | KeyName s => acc +:+ "." +:+ s
           end) "" path.

(** A stand-in for the distance-based [suggestionList]: the options that
    start with the first character of the input. *)
Definition sameInitial (input option : string) : bool :=
  match input, option with
  | String a _, String b _ => Ascii.eqb a b
  | _, _ => false
  end.

Definition suggest (input : string) (options : list string) : list string :=
  filter (fun option => sameInitial input option = true) options.

Definition didYouMeanText (suggestions : list string) : string :=
  match suggestions with
  | [] => ""
  | _ =>
      " Did you mean "
        +:+ joinWith ", " (map (fun x => dq +:+ x +:+ dq) suggestions) +:+ "?"
  end.

#[export] Instance jsutils : Jsutils := {|
  Number_toString := numberToString;
  inspect := inspectValue;
  inspectType := typeToString;
  printPathArray := pathArrayToString;
  suggestionList := suggest;
  didYouMean := didYouMeanText;
|}.

(** A callback that counts its invocations and never throws. *)
Definition countErrors : OnErrorCB nat := fun _ _ _ n => Return (S n).

(** Whole numbers among the floats, and their value. *)
Definition isInteger (n : float) : bool :=
  match FloatOps.Prim2SF n with
  | SpecFloat.S754_zero _ => true
  | SpecFloat.S754_finite _ m e =>
      (0 <=? e)%Z || (Z.pos m mod 2 ^ (- e) =? 0)%Z
  | _ => false
  end.

Definition integerValue (n : float) : Z :=
  match FloatOps.Prim2SF n with
  | SpecFloat.S754_finite sign m e =>
      let magnitude :=
        if (0 <=? e)%Z then (Z.pos m * 2 ^ e)%Z
        else (Z.pos m / 2 ^ (- e))%Z in
      if sign then (- magnitude)%Z else magnitude
  | _ => 0%Z
  end.

Definition numberOfZ (z : Z) : float :=
  if (z <? 0)%Z then (- PrimFloat.of_uint63 (Uint63.of_Z (- z)))%float
  else PrimFloat.of_uint63 (Uint63.of_Z z).

Definition fitsInt32 (z : Z) : bool :=
  (-2147483648 <=? z)%Z && (z <=? 2147483647)%Z.

Fixpoint digitsValue (acc : Z) (s : string) : Z :=
  match s with
  | EmptyString => acc
  | String c rest =>
      digitsValue (acc * 10 + Z.of_nat (nat_of_ascii c - 48))%Z rest
  end.

(** [parseInt(s, 10)] on a string with integer syntax. *)
Definition parseInt (s : string) : Z :=
  match s with
  | String c rest =>
      if Ascii.eqb c "-" then (- digitsValue 0 rest)%Z else digitsValue 0 s
  | EmptyString => 0%Z
  end.

(** A leaf after [GraphQLInt]: whole numbers within 32 bits. *)
Definition parseIntValue (inputValue : value) : Completion value :=
  match inputValue with
  | VNum n =>
      if isInteger n && fitsInt32 (integerValue n) then Return (VNum n)
      else
        Throw (ThrownGraphQLError
                 (mkGraphQLError "Int cannot represent this number" None))
  | _ =>
      Throw (ThrownGraphQLError
               (mkGraphQLError "Int cannot represent non-integer value" None))
  end.

Definition parseIntLiteral (valueNode : ValueNode)
    (variables : option (gmap string value)) : Completion value :=
  match valueNode with
  | IntValue s =>
      if fitsInt32 (parseInt s) then Return (VNum (numberOfZ (parseInt s)))
      else
        Throw (ThrownGraphQLError
                 (mkGraphQLError "Int cannot represent this number" None))
  | _ =>
      Throw (ThrownGraphQLError
               (mkGraphQLError "Int cannot represent non-integer value" None))
  end.

Definition Int_ : GraphQLInputType :=
  GraphQLScalarType "Int" parseIntValue parseIntLiteral.

(** A leaf after [GraphQLID]: strings, and whole numbers as strings. *)
Definition parseIDValue (inputValue : value) : Completion value :=
  match inputValue with
  | VStr s => Return (VStr s)
  | VNum n =>
      if isInteger n then Return (VStr (numberToString n))
      else
        Throw (ThrownGraphQLError
                 (mkGraphQLError "ID cannot represent value" None))
  | _ =>
      Throw (ThrownGraphQLError
               (mkGraphQLError "ID cannot represent value" None))
  end.

Definition parseIDLiteral (valueNode : ValueNode)
    (variables : option (gmap string value)) : Completion value :=
  match valueNode with
  | StringValue s | IntValue s => Return (VStr s)
  | _ =>
      Throw (ThrownGraphQLError
               (mkGraphQLError "ID cannot represent a non-string value" None))
  end.

Definition ID_ : GraphQLInputType :=
  GraphQLScalarType "ID" parseIDValue parseIDLiteral.

(** The enum of the tests of [astFromValue]: [HELLO], [GOODBYE], and
    [COMPLEX] whose internal value is an object. *)
Definition complexValue : value :=
  VObj [("someArbitrary", VStr "complexValue")].

Definition enumValueOf (name : string) : Completion value :=
  if String.eqb name "HELLO" then Return (VStr "HELLO")
  else if String.eqb name "GOODBYE" then Return (VStr "GOODBYE")
  else if String.eqb name "COMPLEX" then Return complexValue
  else
    Throw (ThrownGraphQLError
             (mkGraphQLError "Value does not exist in the enum" None)).

Definition parseEnumValue (inputValue : value) : Completion value :=
  match inputValue with
  | VStr s => enumValueOf s
  | _ =>
      Throw (ThrownGraphQLError
               (mkGraphQLError "Enum cannot represent non-string value" None))
  end.

Definition parseEnumLiteral (valueNode : ValueNode)
    (variables : option (gmap string value)) : Completion value :=
  match valueNode with
  | EnumValue s => enumValueOf s
  | _ =>
      Throw (ThrownGraphQLError
               (mkGraphQLError "Enum cannot represent non-enum value" None))
  end.

Definition MyEnum : GraphQLInputType :=
  GraphQLEnumType "MyEnum" parseEnumValue parseEnumLiteral.

(** [input MyInputObj { foo: Int, bar: MyEnum }] *)
Definition MyInputObj : GraphQLInputType :=
  GraphQLInputObjectType "MyInputObj"
    [mkInputField "foo" Int_ VUndefined 7;
     mkInputField "bar" MyEnum VUndefined 8].

(** [input Point { foo: Int! }] *)
Definition Point : GraphQLInputType :=
  GraphQLInputObjectType "Point"
    [mkInputField "foo" (GraphQLNonNull Int_) VUndefined 9].

Definition one : float := PrimFloat.of_uint63 1.
Definition minusOne : float := (- PrimFloat.of_uint63 1)%float.
Definition tenThousand : float := PrimFloat.of_uint63 10000.
Definition oneHundredTwentyThreeAndAHalf : float :=
  (PrimFloat.of_uint63 247 / PrimFloat.of_uint63 2)%float.

(** [input Person { name: String!, nick: String!, tags: [String] }] *)
Definition nameField : GraphQLInputField :=
  mkInputField "name" (GraphQLNonNull String_) VUndefined 1.
Definition nickField : GraphQLInputField :=
  mkInputField "nick" (GraphQLNonNull String_) VUndefined 2.
Definition tagsField : GraphQLInputField :=
  mkInputField "tags" (GraphQLList String_) VUndefined 3.
Definition Person : GraphQLInputType :=
  GraphQLInputObjectType "Person" [nameField; nickField; tagsField].

(** [input Greeting { text: String = "hello", loud: Boolean }] *)
Definition textField : GraphQLInputField :=
  mkInputField "text" String_ (VStr "hello") 4.
Definition loudField : GraphQLInputField :=
  mkInputField "loud" Boolean_ VUndefined 5.
Definition Greeting : GraphQLInputType :=
  GraphQLInputObjectType "Greeting" [textField; loudField].

(** [input Bad { name: String = true }], a default of the wrong type. *)
Definition badField : GraphQLInputField :=
  mkInputField "name" String_ (VBool true) 6.

Definition three : float := PrimFloat.of_uint63 3.

End Sample.

(* ================================================================== *)
(** * Properties *)
(* ================================================================== *)

Open Scope list_scope.

(** ** Induction over input types and values *)

Lemma GraphQLInputType_nested_ind (P : GraphQLInputType -> Prop) :
  (forall t, P t -> P (GraphQLNonNull t)) ->
  (forall t, P t -> P (GraphQLList t)) ->
  (forall name fields,
      Forall (fun f => P (field_type f)) fields ->
      P (GraphQLInputObjectType name fields)) ->
  (forall name pv pl, P (GraphQLScalarType name pv pl)) ->
  (forall name pv pl, P (GraphQLEnumType name pv pl)) ->
  forall t, P t.
Proof.
  intros HNonNull HList HObj HScalar HEnum.
  fix IH 1.
  intros [t | t | name fields | name pv pl | name pv pl].
  - apply HNonNull, IH.
  - apply HList, IH.
  - apply HObj.
    revert fields.
    fix IHfields 1.
    intros [| [fname ftype fdefault faddr] rest].
    + constructor.
    + constructor; [exact (IH ftype) | exact (IHfields rest)].
  - apply HScalar.
  - apply HEnum.
Qed.

Lemma value_nested_ind (P : value -> Prop) :
  P VUndefined -> P VNull ->
  (forall b, P (VBool b)) -> (forall n, P (VNum n)) ->
  (forall s, P (VStr s)) -> (forall d, P (VSymbol d)) ->
  (forall items, Forall P items -> P (VList items)) ->
  (forall props, Forall (fun kv => P kv.2) props -> P (VObj props)) ->
  forall v, P v.
Proof.
  intros HU HN HB HNum HS HSym HL HO.
  fix IH 1.
  intros [| | b | n | s | d | items | props].
  - exact HU.
  - exact HN.
  - apply HB.
  - apply HNum.
  - apply HS.
  - apply HSym.
  - apply HL. revert items. fix IHitems 1.
    intros [| item rest]; constructor; [exact (IH item) | exact (IHitems rest)].
  - apply HO. revert props. fix IHprops 1.
    intros [| [k v] rest]; constructor; [exact (IH v) | exact (IHprops rest)].
Qed.

(** ** The monad and the callbacks *)

Lemma bind_eq {A B : Type} (m : M A) (k : A -> M B) (h : Heap) :
  bind m k h = k (m h).1 (m h).2.
Proof. unfold bind. destruct (m h); reflexivity. Qed.

Lemma andThen_skip_l {St : Type} (m : St -> Completion St) (s : St) :
  andThen skip m s = m s.
Proof. reflexivity. Qed.

Lemma andThen_skip_r {St : Type} (m : St -> Completion St) (s : St) :
  andThen m skip s = m s.
Proof. unfold andThen, skip. destruct (m s); reflexivity. Qed.

Lemma andThen_assoc {St : Type} (a b c : St -> Completion St) (s : St) :
  andThen (andThen a b) c s = andThen a (andThen b c) s.
Proof. unfold andThen. destruct (a s); reflexivity. Qed.

Lemma andThen_ext {St : Type} (a a' b b' : St -> Completion St) :
  (forall s, a s = a' s) -> (forall s, b s = b' s) ->
  forall s, andThen a b s = andThen a' b' s.
Proof.
  intros Ha Hb s. unfold andThen. rewrite Ha. destruct (a' s); auto.
Qed.

Section Properties.
Context `{Jsutils}.

Lemma deliver_app {St : Type} (onError : OnErrorCB St) (r1 r2 : list Report)
    (s : St) :
  deliver onError (r1 ++ r2) s
  = andThen (deliver onError r1) (deliver onError r2) s.
Proof.
  revert s. induction r1 as [| [[p v] e] r1 IH]; intros s; simpl.
  - reflexivity.
  - rewrite andThen_assoc. apply andThen_ext; auto.
Qed.

Lemma deliver_collect (reports acc : list Report) :
  deliver collect reports acc = Return (acc ++ reports).
Proof.
  revert acc. induction reports as [| [[p v] e] rest IH]; intros acc; simpl.
  - by rewrite app_nil_r.
  - unfold andThen, collect at 1. rewrite IH. by rewrite <- app_assoc.
Qed.

Lemma deliver_one {St : Type} (onError : OnErrorCB St) p v e (s : St) :
  deliver onError [(p, v, e)] s = onError p v e s.
Proof. simpl. apply andThen_skip_r. Qed.

(** ** Validation delivers a fixed sequence of reports *)

Lemma validateInputValueImpl_object {St : Type} (v : value) (name : string)
    (fds : list GraphQLInputField) (onError : OnErrorCB St) (p : option Path)
    (s : St) :
  validateInputValueImpl v (GraphQLInputObjectType name fds) onError p s
  = (if isNullish v then skip
     else if negb (isObjectLike v) then
       reportInvalidValue onError
         ("Expected type " +:+ dq +:+ name +:+ dq +:+ " to be an object.")
         v p None
     else
       andThen (validateFields name v onError p fds)
               (validateKeys onError name fds v p (Object_keys v))) s.
Proof.
  simpl. destruct (isNullish v); [reflexivity |].
  destruct (negb (isObjectLike v)); [reflexivity |].
  apply andThen_ext; [| reflexivity].
  induction fds as [| [fname ftype fdefault faddr] rest IH]; intros s'.
  - reflexivity.
  - simpl. apply andThen_ext; [reflexivity | exact IH].
Qed.

Lemma validateItems_exists (t : GraphQLInputType) (p : option Path) :
  (forall v p', exists rs, forall St (onError : OnErrorCB St) s,
        validateInputValueImpl v t onError p' s = deliver onError rs s) ->
  forall items index, exists rs, forall St (onError : OnErrorCB St) s,
      validateItems
        (fun itemValue i =>
           validateInputValueImpl itemValue t onError
             (addPath p (KeyIndex i) None)) items index s
      = deliver onError rs s.
Proof.
  intros IH items. induction items as [| item rest IHrest]; intros index.
  - exists []. reflexivity.
  - destruct (IH item (addPath p (KeyIndex index) None)) as [r1 H1].
    destruct (IHrest (S index)) as [r2 H2].
    exists (r1 ++ r2). intros St onError s. simpl.
    rewrite deliver_app. apply andThen_ext; auto.
Qed.

Lemma validateKeys_delivers {St : Type} (onError : OnErrorCB St)
    (name : string) (fds : list GraphQLInputField) (v : value)
    (p : option Path) (keys : list string) (s : St) :
  validateKeys onError name fds v p keys s
  = deliver onError
      (map (unknownFieldReport name fds v p)
         (List.filter
            (fun k => negb (bool_decide (is_Some (lookupField fds k)))) keys))
      s.
Proof.
  revert s. induction keys as [| k rest IH]; intros s; simpl.
  - reflexivity.
  - destruct (bool_decide (is_Some (lookupField fds k))); simpl.
    + rewrite andThen_skip_l. apply IH.
    + apply andThen_ext; [reflexivity | exact IH].
Qed.

Lemma validateFields_exists (name : string) (v : value) (p : option Path)
    (fds : list GraphQLInputField) :
  Forall (fun f => forall v p', exists rs, forall St (onError : OnErrorCB St) s,
              validateInputValueImpl v (field_type f) onError p' s
              = deliver onError rs s) fds ->
  exists rs, forall St (onError : OnErrorCB St) s,
      validateFields name v onError p fds s = deliver onError rs s.
Proof.
  induction 1 as [| f rest Hf _ IH].
  - exists []. reflexivity.
  - destruct IH as [r2 H2].
    assert (exists r1, forall St (onError : OnErrorCB St) s,
               validateField name v onError p f s = deliver onError r1 s)
      as [r1 H1].
    { unfold validateField.
      destruct (negb (isUndefined (getProperty v (field_name f)))).
      - apply Hf.
      - destruct (isRequiredInputField f).
        + eexists. intros. unfold reportInvalidValue.
          symmetry. apply deliver_one.
        + exists []. reflexivity. }
    exists (r1 ++ r2). intros St onError s. simpl.
    rewrite deliver_app. apply andThen_ext; auto.
Qed.

Lemma validate_delivers_exists (t : GraphQLInputType) :
  forall v p, exists rs, forall St (onError : OnErrorCB St) s,
      validateInputValueImpl v t onError p s = deliver onError rs s.
Proof.
  induction t as [t IH | t IH | name fds IH | name pv pl | name pv pl]
    using GraphQLInputType_nested_ind; intros v p.
  - simpl. destruct (isNullish v).
    + eexists. intros. unfold reportInvalidValue. symmetry. apply deliver_one.
    + apply IH.
  - simpl. destruct (isNullish v); [exists []; reflexivity |].
    destruct v; try apply IH.
    apply validateItems_exists. exact IH.
  - destruct (validateFields_exists name v p fds IH) as [r1 H1].
    destruct (isNullish v) eqn:Hn.
    { exists []. intros.
      rewrite validateInputValueImpl_object, Hn. reflexivity. }
    destruct (isObjectLike v) eqn:Ho.
    + exists (r1 ++ map (unknownFieldReport name fds v p) (unknownKeys fds v)).
      intros St onError s.
      rewrite validateInputValueImpl_object, Hn, Ho. simpl negb. cbv iota.
      rewrite deliver_app. apply andThen_ext; [apply H1 |].
      intros s'. apply validateKeys_delivers.
    + eexists. intros St onError s.
      rewrite validateInputValueImpl_object, Hn, Ho. simpl negb. cbv iota.
      unfold reportInvalidValue. symmetry. apply deliver_one.
  - simpl. destruct (isNullish v); [exists []; reflexivity |].
    destruct (pv v) as [result | [e | m]].
    + destruct (isUndefined result).
      * eexists. intros. unfold reportInvalidValue. symmetry. apply deliver_one.
      * exists []. reflexivity.
    + eexists. intros. symmetry. apply deliver_one.
    + eexists. intros. unfold reportInvalidValue. symmetry. apply deliver_one.
  - simpl. destruct (isNullish v); [exists []; reflexivity |].
    destruct (pv v) as [result | [e | m]].
    + destruct (isUndefined result).
      * eexists. intros. unfold reportInvalidValue. symmetry. apply deliver_one.
      * exists []. reflexivity.
    + eexists. intros. symmetry. apply deliver_one.
    + eexists. intros. unfold reportInvalidValue. symmetry. apply deliver_one.
Qed.

Lemma reportsOf_intro (v : value) (t : GraphQLInputType) (p : option Path)
    (rs : list Report) :
  (forall St (onError : OnErrorCB St) s,
      validateInputValueImpl v t onError p s = deliver onError rs s) ->
  reportsOf v t p = rs.
Proof.
  intros Hrs. unfold reportsOf. rewrite Hrs, deliver_collect. reflexivity.
Qed.

(** Whatever the callback, validation calls it on the reports of
    [reportsOf], in order, and stops only if the callback throws. *)
Lemma validate_delivers {St : Type} (v : value) (t : GraphQLInputType)
    (onError : OnErrorCB St) (p : option Path) (s : St) :
  validateInputValueImpl v t onError p s = deliver onError (reportsOf v t p) s.
Proof.
  destruct (validate_delivers_exists t v p) as [rs Hrs].
  rewrite (reportsOf_intro v t p rs Hrs). apply Hrs.
Qed.

(** ** The reports, case by case *)

Lemma validateFields_delivers {St : Type} (name : string) (v : value)
    (onError : OnErrorCB St) (p : option Path) (fds : list GraphQLInputField)
    (s : St) :
  validateFields name v onError p fds s
  = deliver onError (flat_map (fieldReports name v p) fds) s.
Proof.
  revert s. induction fds as [| f rest IH]; intros s; simpl.
  - reflexivity.
  - rewrite deliver_app. apply andThen_ext; [| exact IH].
    intros s'. unfold validateField, fieldReports.
    destruct (negb (isUndefined (getProperty v (field_name f)))).
    + apply validate_delivers.
    + destruct (isRequiredInputField f); [| reflexivity].
      unfold reportInvalidValue, missingFieldReport.
      symmetry. apply deliver_one.
Qed.

Lemma validateItems_delivers {St : Type} (t : GraphQLInputType)
    (onError : OnErrorCB St) (p : option Path) (items : list value)
    (index : nat) (s : St) :
  validateItems
    (fun itemValue i =>
       validateInputValueImpl itemValue t onError (addPath p (KeyIndex i) None))
    items index s
  = deliver onError (itemsReports t p items index) s.
Proof.
  revert index s. induction items as [| item rest IH]; intros index s; simpl.
  - reflexivity.
  - rewrite deliver_app. apply andThen_ext; [| apply IH].
    intros s'. apply validate_delivers.
Qed.

Lemma reportsOf_nonNull_nullish (v : value) (t : GraphQLInputType)
    (p : option Path) :
  isNullish v = true ->
  reportsOf v (GraphQLNonNull t) p = [nonNullReport v (GraphQLNonNull t) p].
Proof.
  intros Hn. apply reportsOf_intro. intros St onError s. simpl. rewrite Hn.
  unfold reportInvalidValue, nonNullReport. symmetry. apply deliver_one.
Qed.

Lemma reportsOf_nonNull_present (v : value) (t : GraphQLInputType)
    (p : option Path) :
  isNullish v = false ->
  reportsOf v (GraphQLNonNull t) p = reportsOf v t p.
Proof.
  intros Hn. apply reportsOf_intro. intros St onError s. simpl. rewrite Hn.
  apply validate_delivers.
Qed.

Lemma reportsOf_nullish (v : value) (t : GraphQLInputType) (p : option Path) :
  isNullish v = true -> isNonNullType t = false -> reportsOf v t p = [].
Proof.
  intros Hn Ht. apply reportsOf_intro. intros St onError s.
  destruct t; try discriminate; simpl; rewrite Hn; reflexivity.
Qed.

Lemma reportsOf_list_items (items : list value) (t : GraphQLInputType)
    (p : option Path) :
  reportsOf (VList items) (GraphQLList t) p = itemsReports t p items 0.
Proof.
  apply reportsOf_intro. intros St onError s. simpl.
  apply validateItems_delivers.
Qed.

Lemma reportsOf_list_single (v : value) (t : GraphQLInputType)
    (p : option Path) :
  isNullish v = false -> isIterableObject v = false ->
  reportsOf v (GraphQLList t) p = reportsOf v t p.
Proof.
  intros Hn Hi. apply reportsOf_intro. intros St onError s.
  destruct v; try discriminate; simpl; apply validate_delivers.
Qed.

Lemma reportsOf_object (v : value) (name : string)
    (fds : list GraphQLInputField) (p : option Path) :
  isNullish v = false -> isObjectLike v = true ->
  reportsOf v (GraphQLInputObjectType name fds) p
  = flat_map (fieldReports name v p) fds ++ unknownKeysReports name fds v p.
Proof.
  intros Hn Ho. apply reportsOf_intro. intros St onError s.
  rewrite validateInputValueImpl_object, Hn, Ho. simpl negb. cbv iota.
  rewrite deliver_app. apply andThen_ext.
  - intros s'. apply validateFields_delivers.
  - intros s'. apply validateKeys_delivers.
Qed.

Lemma reportsOf_object_not_object (v : value) (name : string)
    (fds : list GraphQLInputField) (p : option Path) :
  isNullish v = false -> isObjectLike v = false ->
  reportsOf v (GraphQLInputObjectType name fds) p
  = [(pathToArray p, v,
      mkGraphQLError
        ("Expected type " +:+ dq +:+ name +:+ dq +:+ " to be an object.")
        None)].
Proof.
  intros Hn Ho. apply reportsOf_intro. intros St onError s.
  rewrite validateInputValueImpl_object, Hn, Ho. simpl negb. cbv iota.
  unfold reportInvalidValue. symmetry. apply deliver_one.
Qed.


Lemma objectLike_not_nullish (v : value) :
  isObjectLike v = true -> isNullish v = false.
Proof. by destruct v. Qed.

(** ** Unfolding the coercion functions *)

Lemma coerceInputValueImpl_object (v : value) (name : string)
    (fds : list GraphQLInputField) (p : option Path) :
  coerceInputValueImpl v (GraphQLInputObjectType name fds) p
  = (if isNullish v then ret VNull
     else if negb (isObjectLike v) then ret VUndefined
     else coerceFields name fds v p fds []).
Proof. reflexivity. Qed.

Lemma coerceInputValueImpl_list_single (v : value) (t : GraphQLInputType)
    (p : option Path) (h : Heap) :
  isNullish v = false -> isIterableObject v = false ->
  coerceInputValueImpl v (GraphQLList t) p h
  = (listOfOne (coerceInputValueImpl v t p h).1,
     (coerceInputValueImpl v t p h).2).
Proof.
  intros Hn Hi. destruct v; try discriminate; simpl;
    rewrite bind_eq; reflexivity.
Qed.

Lemma coerceInputLiteral_variable (name : string) (t : GraphQLInputType)
    (variables : option (gmap string value)) :
  coerceInputLiteral (VariableNode name) t variables
  = match variables with
    | None => ret VUndefined
    | Some vars =>
        if isMissingVariable (VariableNode name) variables then ret VUndefined
        else
          let variableValue := lookupVariable vars name in
          if isNull variableValue && isNonNullType t then ret VUndefined
          else ret variableValue
    end.
Proof. destruct t; reflexivity. Qed.

Lemma coerceInputLiteral_list_single (node : ValueNode)
    (t : GraphQLInputType) (variables : option (gmap string value))
    (h : Heap) :
  isVariableNode node = false -> isNullNode node = false ->
  isListNode node = false ->
  coerceInputLiteral node (GraphQLList t) variables h
  = (listOfOne (coerceInputLiteral node t variables h).1,
     (coerceInputLiteral node t variables h).2).
Proof.
  intros Hv Hn Hl. destruct node; try discriminate; simpl;
    rewrite bind_eq; reflexivity.
Qed.

(** ** Integer syntax *)

Lemma nonZeroDigit_not_minus (c : ascii) :
  isNonZeroDigit c = true -> Ascii.eqb c "-" = false.
Proof.
  intros Hc. destruct (Ascii.eqb c "-") eqn:E; [| reflexivity].
  apply Ascii.eqb_eq in E. subst c. discriminate.
Qed.

Lemma integerStringRegExp_test_spec (s : string) :
  integerStringRegExp_test s = true <-> IntegerSyntax s.
Proof.
  split.
  - unfold integerStringRegExp_test, stripMinus.
    destruct s as [| c rest]; [discriminate |].
    destruct (Ascii.eqb c "-") eqn:Hminus.
    + apply Ascii.eqb_eq in Hminus. subst c.
      destruct rest as [| d rest']; [discriminate |].
      destruct (Ascii.eqb d "0") eqn:Hzero.
      * intros Hrest. apply Ascii.eqb_eq in Hzero. apply String.eqb_eq in Hrest.
        subst. exact (IntegerZero true).
      * intros [Hd Hrest]%andb_prop.
        exact (IntegerNonZero true d rest' Hd Hrest).
    + destruct (Ascii.eqb c "0") eqn:Hzero.
      * intros Hrest. apply Ascii.eqb_eq in Hzero. apply String.eqb_eq in Hrest.
        subst. exact (IntegerZero false).
      * intros [Hd Hrest]%andb_prop.
        exact (IntegerNonZero false c rest Hd Hrest).
  - intros [negative | negative c rest Hc Hrest].
    + by destruct negative.
    + unfold integerStringRegExp_test.
      assert (Ascii.eqb c "0" = false) as Hzero.
      { destruct (Ascii.eqb c "0") eqn:E; [| reflexivity].
        apply Ascii.eqb_eq in E. subst c. discriminate. }
      destruct negative.
      * change (("-" ++ String c rest)%string)
          with (String "-" (String c rest)).
        cbn. by rewrite Hzero, Hc, Hrest.
      * change (("" ++ String c rest)%string) with (String c rest).
        unfold stripMinus. rewrite (nonZeroDigit_not_minus c Hc).
        by rewrite Hzero, Hc, Hrest.
Qed.

(** ** Unfolding [astFromValue] *)

Lemma astFromValue_list (items : list value) (type : option GraphQLInputType) :
  astFromValue (VList items) type
  = match astFromItems (getNamedType <$> type) items with
    | Throw t => Throw t
    | Return values => Return (ListValue values)
    end.
Proof. reflexivity. Qed.

Lemma astFromValue_object (props : list (string * value))
    (type : option GraphQLInputType) :
  astFromValue (VObj props) type
  = match astFromProps (getNamedType <$> type) props with
    | Throw t => Throw t
    | Return fields => Return (ObjectValue fields)
    end.
Proof. reflexivity. Qed.

Lemma astFromItems_cons (namedType : option GraphQLInputType) (item : value)
    (rest : list value) :
  astFromItems namedType (item :: rest)
  = match astFromValue item namedType with
    | Throw t => Throw t
    | Return node =>
        match astFromItems namedType rest with
        | Throw t => Throw t
        | Return nodes => Return (node :: nodes)
        end
    end.
Proof. reflexivity. Qed.

Lemma astFromProps_cons (namedType : option GraphQLInputType)
    (fieldName : string) (fieldValue : value) (rest : list (string * value)) :
  astFromProps namedType ((fieldName, fieldValue) :: rest)
  = match astFromValue fieldValue (fieldTypeHint namedType fieldName) with
    | Throw t => Throw t
    | Return node =>
        match astFromProps namedType rest with
        | Throw t => Throw t
        | Return nodes => Return ((fieldName, node) :: nodes)
        end
    end.
Proof. reflexivity. Qed.

Lemma getNamedType_idem (t : GraphQLInputType) :
  getNamedType (getNamedType t) = getNamedType t.
Proof. induction t; simpl; auto. Qed.

(** [astFromValue] reads its type hint only through [getNamedType]. *)
Lemma astFromValue_named (v : value) (t : GraphQLInputType) :
  astFromValue v (Some (getNamedType t)) = astFromValue v (Some t).
Proof.
  destruct v; try reflexivity.
  - simpl. by rewrite getNamedType_idem.
  - rewrite !astFromValue_list. simpl. by rewrite getNamedType_idem.
  - rewrite !astFromValue_object. simpl. by rewrite getNamedType_idem.
Qed.

Lemma stripNonNull_object (name : string) (fds : list GraphQLInputField) :
  stripNonNull (GraphQLInputObjectType name fds)
  = GraphQLInputObjectType name (map stripNonNullField fds).
Proof.
  simpl. f_equal. induction fds as [| [fname ftype fdefault faddr] rest IH].
  - reflexivity.
  - simpl. f_equal. exact IH.
Qed.

Lemma getNamedType_stripNonNull (t : GraphQLInputType) :
  getNamedType (stripNonNull t) = stripNonNull (getNamedType t).
Proof.
  induction t as [t IH | t IH | name fds _ | name pv pl | name pv pl]
    using GraphQLInputType_nested_ind; simpl; auto.
Qed.

Lemma lookupField_stripNonNull (fds : list GraphQLInputField) (k : string) :
  lookupField (map stripNonNullField fds) k
  = stripNonNullField <$> lookupField fds k.
Proof.
  induction fds as [| f rest IH]; simpl; [reflexivity |].
  destruct (String.eqb (field_name f) k); [reflexivity | exact IH].
Qed.

Lemma fieldTypeHint_stripNonNull (t : GraphQLInputType) (k : string) :
  fieldTypeHint (Some (getNamedType (stripNonNull t))) k
  = stripNonNull <$> fieldTypeHint (Some (getNamedType t)) k.
Proof.
  rewrite getNamedType_stripNonNull.
  induction t as [t IH | t IH | name fds _ | name pv pl | name pv pl]
    using GraphQLInputType_nested_ind; try exact IH; try reflexivity.
  cbn [getNamedType]. rewrite stripNonNull_object. cbn [fieldTypeHint].
  rewrite lookupField_stripNonNull. by destruct (lookupField fds k).
Qed.

Lemma named_kind_stripNonNull (t : GraphQLInputType) :
  isEnumType (getNamedType (stripNonNull t)) = isEnumType (getNamedType t)
  /\ isGraphQLID (getNamedType (stripNonNull t)) = isGraphQLID (getNamedType t).
Proof.
  rewrite getNamedType_stripNonNull.
  induction t as [t IH | t IH | name fds _ | name pv pl | name pv pl]
    using GraphQLInputType_nested_ind; try exact IH; by split.
Qed.

(** Non-null wrappers, at any depth of the type hint, leave the output of
    [astFromValue] unchanged. *)
Lemma astFromValue_stripNonNull (v : value) :
  forall t, astFromValue v (Some (stripNonNull t)) = astFromValue v (Some t).
Proof.
  induction v as [| | b | n | s | d | items IH | props IH]
    using value_nested_ind; intros t; try reflexivity.
  - simpl. destruct (named_kind_stripNonNull t) as [-> ->]. reflexivity.
  - rewrite !astFromValue_list. cbn [fmap option_fmap option_map].
    assert (astFromItems (Some (getNamedType (stripNonNull t))) items
            = astFromItems (Some (getNamedType t)) items) as ->; [| done].
    induction IH as [| item rest Hitem _ IHrest]; [reflexivity |].
    rewrite !astFromItems_cons, IHrest.
    rewrite getNamedType_stripNonNull, Hitem. reflexivity.
  - rewrite !astFromValue_object. cbn [fmap option_fmap option_map].
    assert (astFromProps (Some (getNamedType (stripNonNull t))) props
            = astFromProps (Some (getNamedType t)) props) as ->; [| done].
    induction IH as [| [k fv] rest Hfv _ IHrest]; [reflexivity |].
    rewrite !astFromProps_cons, IHrest.
    rewrite fieldTypeHint_stripNonNull.
    destruct (fieldTypeHint (Some (getNamedType t)) k) as [ft |]; simpl.
    + by rewrite Hfv.
    + reflexivity.
Qed.

(** ** The field loop of value coercion *)

Lemma coerceFields_nil (name : string) (fds : list GraphQLInputField)
    (v : value) (p : option Path) (acc : list (string * value)) :
  coerceFields name fds v p [] acc
  = ret (if everyKeyDefined fds v then VObj acc else VUndefined).
Proof. reflexivity. Qed.

Lemma coerceFields_cons (name : string) (fds : list GraphQLInputField)
    (v : value) (p : option Path) (f : GraphQLInputField)
    (rest : list GraphQLInputField) (acc : list (string * value)) :
  coerceFields name fds v p (f :: rest) acc
  = (let fieldValue := getProperty v (field_name f) in
     if negb (isUndefined fieldValue) then
       let* coercedFieldValue :=
         coerceInputValueImpl fieldValue (field_type f)
           (addPath p (KeyName (field_name f)) (Some name)) in
       if isUndefined coercedFieldValue then ret VUndefined
       else coerceFields name fds v p rest
              (setProperty (field_name f) coercedFieldValue acc)
     else if negb (isUndefined (field_defaultValue f)) then
       let* coercedDefault := coerceDefaultValue f in
       coerceFields name fds v p rest
         (setProperty (field_name f) coercedDefault acc)
     else if isNonNullType (field_type f) then ret VUndefined
     else coerceFields name fds v p rest acc).
Proof. destruct f; reflexivity. Qed.

Lemma isUndefined_true (v : value) : isUndefined v = true <-> v = VUndefined.
Proof. by destruct v. Qed.

Lemma lookupField_None (fds : list GraphQLInputField) (k : string) :
  lookupField fds k = None <-> k ∉ fieldNames fds.
Proof.
  induction fds as [| f rest IH]; simpl.
  - split; [intros _; apply not_elem_of_nil | done].
  - destruct (String.eqb (field_name f) k) eqn:E.
    + apply String.eqb_eq in E. subst k. split; [done |].
      intros Hnot. exfalso. apply Hnot. left.
    + apply String.eqb_neq in E. rewrite IH, not_elem_of_cons.
      split; [| by intros [_ ?]].
      intros Hrest. split; [congruence | exact Hrest].
Qed.

Lemma unknownKeys_spec (fds : list GraphQLInputField) (v : value) (k : string) :
  k ∈ unknownKeys fds v <-> k ∈ Object_keys v /\ k ∉ fieldNames fds.
Proof.
  unfold unknownKeys. rewrite list_elem_of_In, filter_In, <- list_elem_of_In.
  rewrite <- lookupField_None.
  destruct (lookupField fds k) eqn:E; cbn.
  - split; intros [? ?]; done.
  - split; intros [? _]; done.
Qed.

Lemma everyKeyDefined_false (fds : list GraphQLInputField) (v : value) :
  everyKeyDefined fds v = false <-> unknownKeys fds v <> [].
Proof.
  unfold everyKeyDefined, unknownKeys.
  induction (Object_keys v) as [| k keys IH]; simpl.
  - split; [discriminate | done].
  - destruct (bool_decide (is_Some (lookupField fds k))); simpl.
    + exact IH.
    + split; [discriminate | done].
Qed.

(** With an undeclared key in the input, the field loop yields no value
    whatever happens to the declared fields. *)
Lemma coerceFields_unknown_key (name : string) (fds : list GraphQLInputField)
    (v : value) (p : option Path) :
  everyKeyDefined fds v = false ->
  forall fields acc h, (coerceFields name fds v p fields acc h).1 = VUndefined.
Proof.
  intros Hkeys fields.
  induction fields as [| f rest IH]; intros acc h.
  - rewrite coerceFields_nil, Hkeys. reflexivity.
  - rewrite coerceFields_cons. cbv zeta.
    destruct (negb (isUndefined (getProperty v (field_name f)))).
    + rewrite bind_eq.
      destruct (isUndefined _); [reflexivity | apply IH].
    + destruct (negb (isUndefined (field_defaultValue f))).
      * rewrite bind_eq. apply IH.
      * destruct (isNonNullType (field_type f)); [reflexivity | apply IH].
Qed.

(** ** Where coercion yields no value, validation has something to report *)

Lemma coerceItems_undefined_reports (t : GraphQLInputType)
    (p p' : option Path) :
  (forall v p1 h p2,
      (coerceInputValueImpl v t p1 h).1 = VUndefined ->
      reportsOf v t p2 <> []) ->
  forall items index acc h,
    (coerceItems
       (fun itemValue i =>
          coerceInputValueImpl itemValue t (addPath p (KeyIndex i) None))
       items index acc h).1 = VUndefined ->
    itemsReports t p' items index <> [].
Proof.
  intros IH items. induction items as [| item rest IHrest];
    intros index acc h; simpl.
  - discriminate.
  - rewrite bind_eq.
    destruct (isUndefined _) eqn:Hitem.
    + intros _ Hnil. apply app_eq_nil in Hnil as [Hnil _].
      apply isUndefined_true in Hitem. by eapply IH.
    + intros Hrest Hnil. apply app_eq_nil in Hnil as [_ Hnil].
      by eapply IHrest.
Qed.

Lemma coerceFields_undefined_reports (name : string)
    (fds : list GraphQLInputField) (v : value) (p p' : option Path)
    (fields : list GraphQLInputField) :
  Forall (fun f => forall v p1 h p2,
              (coerceInputValueImpl v (field_type f) p1 h).1 = VUndefined ->
              reportsOf v (field_type f) p2 <> []) fields ->
  forall acc h,
    (coerceFields name fds v p fields acc h).1 = VUndefined ->
    flat_map (fieldReports name v p') fields <> []
    \/ everyKeyDefined fds v = false.
Proof.
  induction 1 as [| f rest Hf _ IH]; intros acc h.
  - rewrite coerceFields_nil. unfold ret. simpl.
    destruct (everyKeyDefined fds v); [discriminate | by right].
  - rewrite coerceFields_cons. cbv zeta. simpl flat_map.
    unfold fieldReports at 1. unfold isRequiredInputField.
    destruct (negb (isUndefined (getProperty v (field_name f)))).
    + rewrite bind_eq. destruct (isUndefined _) eqn:Hc.
      * intros _. left. intros Hnil. apply app_eq_nil in Hnil as [Hnil _].
        apply isUndefined_true in Hc. by eapply Hf.
      * intros Hrest. destruct (IH _ _ Hrest) as [Hr | Hk]; [left | by right].
        intros Hnil. by apply app_eq_nil in Hnil as [_ Hnil].
    + destruct (isUndefined (field_defaultValue f)); simpl.
      * destruct (isNonNullType (field_type f)); simpl.
        { intros _. by left. }
        { intros Hrest.
          destruct (IH _ _ Hrest) as [Hr | Hk]; [by left | by right]. }
      * rewrite bind_eq, andb_false_r. simpl.
        intros Hrest.
        destruct (IH _ _ Hrest) as [Hr | Hk]; [by left | by right].
Qed.

Lemma coerce_undefined_reports (t : GraphQLInputType) :
  forall v p h p',
    (coerceInputValueImpl v t p h).1 = VUndefined -> reportsOf v t p' <> [].
Proof.
  induction t as [t IH | t IH | name fds IH | name pv pl | name pv pl]
    using GraphQLInputType_nested_ind; intros v p h p'.
  - destruct (isNullish v) eqn:Hn.
    + intros _. by rewrite reportsOf_nonNull_nullish.
    + simpl. rewrite Hn, reportsOf_nonNull_present by done. apply IH.
  - destruct (isNullish v) eqn:Hn.
    { simpl. rewrite Hn. discriminate. }
    destruct (isIterableObject v) eqn:Hi.
    + destruct v; try discriminate. simpl. rewrite reportsOf_list_items.
      by apply coerceItems_undefined_reports.
    + rewrite coerceInputValueImpl_list_single, reportsOf_list_single by done.
      simpl. unfold listOfOne.
      destruct (isUndefined _) eqn:Hc; [| discriminate].
      intros _. apply isUndefined_true in Hc. by eapply IH.
  - rewrite coerceInputValueImpl_object.
    destruct (isNullish v) eqn:Hn; [discriminate |].
    destruct (isObjectLike v) eqn:Ho; simpl negb; cbv iota.
    + rewrite reportsOf_object by done. intros Hc Hnil.
      apply app_eq_nil in Hnil as [Hfields Hkeys].
      destruct (coerceFields_undefined_reports name fds v p p' fds IH _ _ Hc)
        as [Hr | Hk]; [done |].
      apply everyKeyDefined_false in Hk. apply Hk.
      unfold unknownKeysReports in Hkeys. by apply map_eq_nil in Hkeys.
    + intros _. by rewrite reportsOf_object_not_object.
  - simpl. destruct (isNullish v) eqn:Hn; [discriminate |].
    intros Hc. unfold reportsOf. simpl. rewrite Hn.
    destruct (pv v) as [r | [e | m]]; simpl in *; try done.
    by rewrite Hc.
  - simpl. destruct (isNullish v) eqn:Hn; [discriminate |].
    intros Hc. unfold reportsOf. simpl. rewrite Hn.
    destruct (pv v) as [r | [e | m]]; simpl in *; try done.
    by rewrite Hc.
Qed.

(** ** Where coercion yields a value, validation has nothing to report *)

Lemma coerceItems_defined_no_reports (t : GraphQLInputType)
    (p p' : option Path) :
  (forall v p1 h p2,
      isUndefined (coerceInputValueImpl v t p1 h).1 = false ->
      reportsOf v t p2 = []) ->
  forall items index acc h,
    isUndefined
      (coerceItems
         (fun itemValue i =>
            coerceInputValueImpl itemValue t (addPath p (KeyIndex i) None))
         items index acc h).1 = false ->
    itemsReports t p' items index = [].
Proof.
  intros IH items. induction items as [| item rest IHrest];
    intros index acc h; simpl.
  - done.
  - rewrite bind_eq.
    destruct (isUndefined (coerceInputValueImpl item t _ h).1) eqn:Hitem.
    + discriminate.
    + intros Hrest. rewrite (IH _ _ _ _ Hitem). simpl.
      by eapply IHrest.
Qed.

Lemma coerceFields_defined_no_reports (name : string)
    (fds : list GraphQLInputField) (v : value) (p p' : option Path)
    (fields : list GraphQLInputField) :
  Forall (fun f => forall v p1 h p2,
              isUndefined (coerceInputValueImpl v (field_type f) p1 h).1
              = false ->
              reportsOf v (field_type f) p2 = []) fields ->
  forall acc h,
    isUndefined (coerceFields name fds v p fields acc h).1 = false ->
    flat_map (fieldReports name v p') fields = []
    /\ everyKeyDefined fds v = true.
Proof.
  induction 1 as [| f rest Hf _ IH]; intros acc h.
  - rewrite coerceFields_nil. unfold ret. simpl.
    by destruct (everyKeyDefined fds v).
  - rewrite coerceFields_cons. cbv zeta. simpl flat_map.
    unfold fieldReports at 1. unfold isRequiredInputField.
    destruct (negb (isUndefined (getProperty v (field_name f)))).
    + rewrite bind_eq.
      destruct (isUndefined (coerceInputValueImpl _ (field_type f) _ h).1)
        eqn:Hc; [discriminate |].
      intros Hrest. rewrite (Hf _ _ _ _ Hc). simpl. by eapply IH.
    + destruct (isUndefined (field_defaultValue f)); simpl.
      * destruct (isNonNullType (field_type f)); simpl; [discriminate |].
        apply IH.
      * rewrite bind_eq, andb_false_r. simpl. apply IH.
Qed.

Lemma coerce_defined_no_reports (t : GraphQLInputType) :
  forall v p h p',
    isUndefined (coerceInputValueImpl v t p h).1 = false ->
    reportsOf v t p' = [].
Proof.
  induction t as [t IH | t IH | name fds IH | name pv pl | name pv pl]
    using GraphQLInputType_nested_ind; intros v p h p'.
  - simpl. destruct (isNullish v) eqn:Hn; [discriminate |].
    rewrite reportsOf_nonNull_present by done. apply IH.
  - destruct (isNullish v) eqn:Hn.
    { intros _. by apply reportsOf_nullish. }
    destruct (isIterableObject v) eqn:Hi.
    + destruct v; try discriminate. simpl. rewrite reportsOf_list_items.
      by apply coerceItems_defined_no_reports.
    + rewrite coerceInputValueImpl_list_single, reportsOf_list_single by done.
      simpl. unfold listOfOne.
      destruct (isUndefined (coerceInputValueImpl v t p h).1) eqn:Hc;
        [discriminate |].
      intros _. by eapply IH.
  - rewrite coerceInputValueImpl_object.
    destruct (isNullish v) eqn:Hn.
    { intros _. by apply reportsOf_nullish. }
    destruct (isObjectLike v) eqn:Ho; simpl negb; cbv iota; [| discriminate].
    rewrite reportsOf_object by done. intros Hc.
    destruct (coerceFields_defined_no_reports name fds v p p' fds IH _ _ Hc)
      as [-> Hkeys].
    unfold unknownKeysReports.
    destruct (unknownKeys fds v) eqn:Hunknown; [done |].
    assert (everyKeyDefined fds v = false) as Hfalse
      by (apply everyKeyDefined_false; by rewrite Hunknown).
    congruence.
  - simpl. destruct (isNullish v) eqn:Hn.
    { intros _. by apply reportsOf_nullish. }
    intros Hc. unfold reportsOf. simpl. rewrite Hn.
    destruct (pv v) as [r | [e | m]]; simpl in *; try done.
    by rewrite Hc.
  - simpl. destruct (isNullish v) eqn:Hn.
    { intros _. by apply reportsOf_nullish. }
    intros Hc. unfold reportsOf. simpl. rewrite Hn.
    destruct (pv v) as [r | [e | m]]; simpl in *; try done.
    by rewrite Hc.
Qed.


(* ================================================================== *)
(** ** Non-null types *)
(* ================================================================== *)

(** C4.  For every inner type [T], a null or absent input against
    Non-Null([T]): value coercion yields no value ([undefined]);
    validation calls the error callback exactly once, with the "expected
    non-nullable type" error, and does not descend into [T]; the coercion
    entry point returns no value whenever that one callback call returns;
    and a null literal against Non-Null([T]) yields no value from literal
    coercion.  A non-null wrapper, outermost or at any depth of the type
    hint, never changes the node [astFromValue] produces. *)
Theorem nonNull_rejects_null (T : GraphQLInputType) (inputValue : value) :
  isNullish inputValue = true ->
  (forall path h,
      coerceInputValueImpl inputValue (GraphQLNonNull T) path h
      = (VUndefined, h))
  /\ (forall St (onError : OnErrorCB St) path s,
         validateInputValueImpl inputValue (GraphQLNonNull T) onError path s
         = onError (pathToArray path) inputValue
             (mkGraphQLError
                ("Expected non-nullable type " +:+ dq
                   +:+ inspectType (GraphQLNonNull T) +:+ dq
                   +:+ " not to be null.") None) s)
  /\ (forall path,
         reportsOf inputValue (GraphQLNonNull T) path
         = [nonNullReport inputValue (GraphQLNonNull T) path])
  /\ (forall St (onError : OnErrorCB St) h s s',
         validateInputValue inputValue (GraphQLNonNull T) onError s
         = Return s' ->
         coerceInputValue inputValue (GraphQLNonNull T) onError h s
         = Return (VUndefined, h, s'))
  /\ (forall variables h,
         coerceInputLiteral NullValue (GraphQLNonNull T) variables h
         = (VUndefined, h))
  /\ (forall v,
         astFromValue v (Some (GraphQLNonNull T)) = astFromValue v (Some T))
  /\ (forall v T',
         astFromValue v (Some (stripNonNull T')) = astFromValue v (Some T')).
Proof.
  intros Hnull. repeat split.
  - intros path h. simpl. by rewrite Hnull.
  - intros St onError path s. simpl. by rewrite Hnull.
  - intros path. by apply reportsOf_nonNull_nullish.
  - intros St onError h s s' Hvalid. unfold coerceInputValue.
    simpl coerceInputValueImpl. rewrite Hnull. unfold ret.
    simpl isUndefined. cbv iota. by rewrite Hvalid.
  - intros v. by destruct v.
  - intros v T'. apply astFromValue_stripNonNull.
Qed.

(* ================================================================== *)
(** ** Variable references *)
(* ================================================================== *)

(** How a variable reference is resolved: no value when no mapping is
    supplied or when [variables[name]] reads [undefined], which is so for
    a name mapped to [undefined] and for a name the mapping lacks and
    plain objects do not inherit; no value when the variable is [null]
    and the expected type is non-null; otherwise the variable's value
    itself, whatever the expected type, leaving the store untouched. *)
Lemma variable_resolution_by_lookup (name : string) (T : GraphQLInputType)
    (variables : option (gmap string value)) (h : Heap) :
  (variables = None ->
   coerceInputLiteral (VariableNode name) T variables h = (VUndefined, h))
  /\ (forall vars,
         variables = Some vars ->
         lookupVariable vars name = VUndefined ->
         coerceInputLiteral (VariableNode name) T variables h
         = (VUndefined, h))
  /\ (forall vars,
         variables = Some vars ->
         (vars !! name = None /\ inheritedProperty name = VUndefined)
         \/ vars !! name = Some VUndefined ->
         coerceInputLiteral (VariableNode name) T variables h
         = (VUndefined, h))
  /\ (forall vars,
         variables = Some vars ->
         vars !! name = Some VNull -> isNonNullType T = true ->
         coerceInputLiteral (VariableNode name) T variables h
         = (VUndefined, h))
  /\ (forall vars v,
         variables = Some vars ->
         vars !! name = Some v -> v <> VUndefined ->
         (v = VNull -> isNonNullType T = false) ->
         coerceInputLiteral (VariableNode name) T variables h = (v, h)).
Proof.
  rewrite coerceInputLiteral_variable. split_and!.
  - by intros ->.
  - intros vars -> Hlookup. unfold isMissingVariable. by rewrite Hlookup.
  - intros vars -> Hlookup. unfold isMissingVariable, lookupVariable.
    destruct Hlookup as [[-> ->] | ->]; done.
  - intros vars -> Hlookup Hnn. unfold isMissingVariable, lookupVariable.
    rewrite Hlookup. simpl. by rewrite Hnn.
  - intros vars v -> Hlookup Hdef Hnull.
    unfold isMissingVariable, lookupVariable. rewrite Hlookup. simpl.
    destruct v; try done. simpl. by rewrite Hnull.
Qed.

(** C5.  A name the mapping lacks is not always treated as missing: the
    mapping is read with [variables[name]], which also finds what plain
    objects inherit.  With the empty mapping, the variable [constructor]
    is absent from the mapping, yet it is not a missing variable, and
    literal coercion returns for it the inherited function
    [Object.prototype.constructor], whatever the expected type, instead
    of no value. *)
Theorem inherited_name_resolves_as_variable (T : GraphQLInputType)
    (h : Heap) :
  let variables : gmap string value := ∅ in
  variables !! "constructor" = None
  /\ isMissingVariable (VariableNode "constructor") (Some variables) = false
  /\ coerceInputLiteral (VariableNode "constructor") T (Some variables) h
     = (builtinFunction "Object", h)
  /\ builtinFunction "Object" <> VUndefined.
Proof.
  intros variables. split_and!.
  - apply lookup_empty.
  - reflexivity.
  - rewrite coerceInputLiteral_variable.
    assert (isMissingVariable (VariableNode "constructor") (Some variables)
            = false) as -> by reflexivity.
    assert (lookupVariable variables "constructor" = builtinFunction "Object")
      as -> by reflexivity.
    reflexivity.
  - discriminate.
Qed.

(* ================================================================== *)
(** ** Lists of one *)
(* ================================================================== *)

(** C7.  For every non-null, non-iterable value [x] and inner type [T],
    coercing [x] against List([T]) gives the one-element array of the
    coercion of [x] against [T] when that succeeds and no value when it
    yields no value, in the recursive coercion and at the entry point
    alike; literal coercion promotes a literal node that is neither a
    variable, null nor a list in the same way. *)
Theorem list_promotes_single_value (x : value) (T : GraphQLInputType) :
  isNullish x = false -> isIterableObject x = false ->
  (forall path h c h',
      coerceInputValueImpl x T path h = (c, h') -> c <> VUndefined ->
      coerceInputValueImpl x (GraphQLList T) path h = (VList [c], h'))
  /\ (forall path h h',
         coerceInputValueImpl x T path h = (VUndefined, h') ->
         coerceInputValueImpl x (GraphQLList T) path h = (VUndefined, h'))
  /\ (forall St (onError : OnErrorCB St) h s,
         coerceInputValue x (GraphQLList T) onError h s
         = match coerceInputValue x T onError h s with
           | Return (c, h', s') => Return (listOfOne c, h', s')
           | Throw t => Throw t
           end)
  /\ (forall node variables h,
         isVariableNode node = false -> isNullNode node = false ->
         isListNode node = false ->
         coerceInputLiteral node (GraphQLList T) variables h
         = (listOfOne (coerceInputLiteral node T variables h).1,
            (coerceInputLiteral node T variables h).2)).
Proof.
  intros Hnull Hiter. repeat split.
  - intros path h c h' Hc Hdef.
    rewrite coerceInputValueImpl_list_single, Hc by done. simpl.
    unfold listOfOne. by destruct c.
  - intros path h h' Hc.
    by rewrite coerceInputValueImpl_list_single, Hc.
  - intros St onError h s. unfold coerceInputValue.
    rewrite coerceInputValueImpl_list_single by done.
    destruct (coerceInputValueImpl x T None h) as [c h'] eqn:Hc. simpl.
    assert (validateInputValue x (GraphQLList T) onError s
            = validateInputValue x T onError s) as Hsame.
    { unfold validateInputValue. by destruct x. }
    unfold listOfOne. destruct (isUndefined c) eqn:Hu; simpl.
    + rewrite Hsame.
      destruct (validateInputValue x T onError s); [| reflexivity].
      by rewrite Hu.
    + by rewrite Hu.
  - intros node variables h Hv Hn Hl.
    by apply coerceInputLiteral_list_single.
Qed.

(* ================================================================== *)
(** ** Number literals *)
(* ================================================================== *)

(** C8.  For every finite number, [astFromValue] returns an integer
    literal holding the number's string form when that string has integer
    syntax (an optional minus sign, then 0 alone or a non-zero digit
    followed by digits), and a float literal holding the string form
    otherwise; for NaN and the infinities it returns a null literal; in
    neither case does it throw. *)
Theorem number_literals (n : float) (type : option GraphQLInputType) :
  (PrimFloat.is_finite n = true ->
   IntegerSyntax (Number_toString n) ->
   astFromValue (VNum n) type = Return (IntValue (Number_toString n)))
  /\ (PrimFloat.is_finite n = true ->
      ~ IntegerSyntax (Number_toString n) ->
      astFromValue (VNum n) type = Return (FloatValue (Number_toString n)))
  /\ (PrimFloat.is_nan n = true \/ PrimFloat.is_infinity n = true ->
      astFromValue (VNum n) type = Return NullValue)
  /\ (exists node, astFromValue (VNum n) type = Return node).
Proof.
  repeat split.
  - intros Hfin Hint%integerStringRegExp_test_spec. simpl.
    by rewrite Hfin, Hint.
  - intros Hfin Hnot. simpl. rewrite Hfin. simpl.
    destruct (integerStringRegExp_test (Number_toString n)) eqn:E; [| done].
    by apply integerStringRegExp_test_spec in E.
  - intros Hnon. simpl.
    assert (PrimFloat.is_finite n = false) as ->; [| done].
    unfold PrimFloat.is_finite.
    by destruct Hnon as [-> | ->]; rewrite ?orb_true_r.
  - simpl. destruct (negb (PrimFloat.is_finite n)); eauto.
Qed.

(* ================================================================== *)
(** ** Re-validation on failure *)
(* ================================================================== *)

(** C1.  For every input value and input type, if the recursive coercion
    inside [coerceInputValue] yields no value ([undefined]), then
    [coerceInputValue] runs [validateInputValue] over the same value and
    type; validation hands its reports, of which there is at least one, to
    the supplied callback in order; if the callback does not throw,
    [coerceInputValue] returns no value, and if it throws, the throw
    reaches the caller. *)
Theorem coerceInputValue_revalidates {St : Type} (onError : OnErrorCB St)
    (inputValue : value) (type : GraphQLInputType) (h h' : Heap) (s : St) :
  coerceInputValueImpl inputValue type None h = (VUndefined, h') ->
  coerceInputValue inputValue type onError h s
  = match validateInputValue inputValue type onError s with
    | Return s' => Return (VUndefined, h', s')
    | Throw t => Throw t
    end
  /\ validateInputValue inputValue type onError s
     = deliver onError (reportsOf inputValue type None) s
  /\ reportsOf inputValue type None <> []
  /\ (forall s',
         validateInputValue inputValue type onError s = Return s' ->
         coerceInputValue inputValue type onError h s
         = Return (VUndefined, h', s'))
  /\ (forall t,
         validateInputValue inputValue type onError s = Throw t ->
         coerceInputValue inputValue type onError h s = Throw t).
Proof.
  intros Hcoerce.
  assert (coerceInputValue inputValue type onError h s
          = match validateInputValue inputValue type onError s with
            | Return s' => Return (VUndefined, h', s')
            | Throw t => Throw t
            end) as Hentry.
  { unfold coerceInputValue. by rewrite Hcoerce. }
  repeat split.
  - exact Hentry.
  - apply validate_delivers.
  - apply (coerce_undefined_reports type inputValue None h None).
    by rewrite Hcoerce.
  - intros s' Hs'. by rewrite Hentry, Hs'.
  - intros t Ht. by rewrite Hentry, Ht.
Qed.

(* ================================================================== *)
(** ** Unknown keys *)
(* ================================================================== *)

(** C3.  For every object-like input value and input-object type, if the
    input carries at least one key that is not a declared field name, then
    value coercion yields no value (the entry point never returns anything
    else), and validation reports, after the reports of the declared
    fields, exactly one "is not defined by type" error per undeclared key,
    in key order, each ending in the did-you-mean text of the suggestions
    computed from that key and the declared field names. *)
Theorem unknown_keys_rejected (inputValue : value) (name : string)
    (fieldDefs : list GraphQLInputField) :
  isObjectLike inputValue = true ->
  (exists key, key ∈ Object_keys inputValue /\ key ∉ fieldNames fieldDefs) ->
  (forall path h,
      (coerceInputValueImpl inputValue
         (GraphQLInputObjectType name fieldDefs) path h).1 = VUndefined)
  /\ (forall St (onError : OnErrorCB St) h s result,
         coerceInputValue inputValue (GraphQLInputObjectType name fieldDefs)
           onError h s = Return result ->
         result.1.1 = VUndefined)
  /\ (forall path,
         reportsOf inputValue (GraphQLInputObjectType name fieldDefs) path
         = flat_map (fieldReports name inputValue path) fieldDefs
           ++ map (unknownFieldReport name fieldDefs inputValue path)
                (unknownKeys fieldDefs inputValue))
  /\ (forall St (onError : OnErrorCB St) path s,
         validateInputValueImpl inputValue
           (GraphQLInputObjectType name fieldDefs) onError path s
         = deliver onError
             (flat_map (fieldReports name inputValue path) fieldDefs
              ++ map (unknownFieldReport name fieldDefs inputValue path)
                   (unknownKeys fieldDefs inputValue)) s)
  /\ (forall key,
         key ∈ unknownKeys fieldDefs inputValue
         <-> key ∈ Object_keys inputValue /\ key ∉ fieldNames fieldDefs)
  /\ (forall path key,
         unknownFieldReport name fieldDefs inputValue path key
         = (pathToArray path, inputValue,
            mkGraphQLError
              ("Field " +:+ dq +:+ key +:+ dq +:+ " is not defined by type "
                 +:+ dq +:+ name +:+ dq +:+ "."
                 +:+ didYouMean (suggestionList key (fieldNames fieldDefs)))
              None)).
Proof.
  intros Hobj [key [Hkey Hundeclared]].
  pose proof (objectLike_not_nullish _ Hobj) as Hnn.
  assert (everyKeyDefined fieldDefs inputValue = false) as Hkeys.
  { apply everyKeyDefined_false. intros Hnil.
    assert (key ∈ unknownKeys fieldDefs inputValue) as Hin
      by (by apply unknownKeys_spec).
    rewrite Hnil in Hin. by apply elem_of_nil in Hin. }
  assert (forall path h,
             (coerceInputValueImpl inputValue
                (GraphQLInputObjectType name fieldDefs) path h).1 = VUndefined)
    as Hcoerce.
  { intros path h. rewrite coerceInputValueImpl_object, Hnn, Hobj.
    simpl negb. cbv iota. by apply coerceFields_unknown_key. }
  split_and!.
  - exact Hcoerce.
  - intros St onError h s result. unfold coerceInputValue.
    specialize (Hcoerce None h).
    destruct (coerceInputValueImpl _ _ None h) as [c h'].
    simpl in Hcoerce. subst c. simpl.
    destruct (validateInputValue _ _ onError s); [| discriminate].
    by intros [= <-].
  - intros path. by apply reportsOf_object.
  - intros St onError path s. rewrite validate_delivers.
    by rewrite reportsOf_object.
  - intros key'. apply unknownKeys_spec.
  - reflexivity.
Qed.

(* ================================================================== *)
(** ** Validation does not stop at the first violation *)
(* ================================================================== *)



(* ================================================================== *)
(** ** The keys of a coerced input object *)
(* ================================================================== *)

Lemma coerceLiteralFields_nil (fieldNodes : gmap string ValueNode)
    (variables : option (gmap string value)) (acc : list (string * value)) :
  coerceLiteralFields fieldNodes variables [] acc = ret (VObj acc).
Proof. reflexivity. Qed.

Lemma coerceLiteralFields_cons (fieldNodes : gmap string ValueNode)
    (variables : option (gmap string value)) (f : GraphQLInputField)
    (rest : list GraphQLInputField) (acc : list (string * value)) :
  coerceLiteralFields fieldNodes variables (f :: rest) acc
  = (let orDefault :=
       if negb (isUndefined (field_defaultValue f)) then
         let* coercedDefault := coerceDefaultValue f in
         coerceLiteralFields fieldNodes variables rest
           (setProperty (field_name f) coercedDefault acc)
       else if isNonNullType (field_type f) then ret VUndefined
       else coerceLiteralFields fieldNodes variables rest acc in
     match fieldNodes !! field_name f with
     | Some fieldNode =>
         if negb (isMissingVariable fieldNode variables) then
           let* fieldValue :=
             coerceInputLiteral fieldNode (field_type f) variables in
           if isUndefined fieldValue then ret VUndefined
           else coerceLiteralFields fieldNodes variables rest
                  (setProperty (field_name f) fieldValue acc)
         else orDefault
     | None => orDefault
     end).
Proof. destruct f. simpl. destruct (fieldNodes !! name); reflexivity. Qed.

Lemma coerceInputLiteral_object (fields : list (string * ValueNode))
    (name : string) (fds : list GraphQLInputField)
    (variables : option (gmap string value)) :
  coerceInputLiteral (ObjectValue fields) (GraphQLInputObjectType name fds)
    variables
  = coerceLiteralFields (keyMap fields) variables fds [].
Proof. reflexivity. Qed.

Lemma setProperty_keys (k : string) (v : value) (acc : list (string * value)) :
  map fst (setProperty k v acc)
  = if bool_decide (k ∈ map fst acc) then map fst acc else map fst acc ++ [k].
Proof.
  induction acc as [| [k' old] rest IH]; simpl.
  - reflexivity.
  - destruct (String.eqb k' k) eqn:E; simpl.
    + apply String.eqb_eq in E. subst k'.
      rewrite bool_decide_eq_true_2 by left. reflexivity.
    + apply String.eqb_neq in E. rewrite IH.
      destruct (bool_decide (k ∈ map fst rest)) eqn:Hin.
      * apply bool_decide_eq_true in Hin.
        rewrite bool_decide_eq_true_2 by (by right). reflexivity.
      * apply bool_decide_eq_false in Hin.
        rewrite bool_decide_eq_false_2; [reflexivity |].
        rewrite elem_of_cons. intros [-> | ?]; done.
Qed.

Lemma setProperty_keys_sublist (k : string) (v : value)
    (acc : list (string * value)) (processed : list string) :
  map fst acc `sublist_of` processed ->
  map fst (setProperty k v acc) `sublist_of` processed ++ [k].
Proof.
  intros Hsub. rewrite setProperty_keys.
  destruct (bool_decide (k ∈ map fst acc)).
  - by apply sublist_inserts_r.
  - by apply sublist_app.
Qed.

(** The field loop of value coercion only ever returns no value or an
    object whose keys follow the declared fields. *)
Lemma coerceFields_keys (name : string) (fds : list GraphQLInputField)
    (v : value) (p : option Path) (fields : list GraphQLInputField) :
  forall acc h processed,
    map fst acc `sublist_of` processed ->
    (coerceFields name fds v p fields acc h).1 = VUndefined
    \/ exists o, (coerceFields name fds v p fields acc h).1 = VObj o
                 /\ map fst o `sublist_of` processed ++ fieldNames fields.
Proof.
  induction fields as [| f rest IH]; intros acc h processed Hsub.
  - rewrite coerceFields_nil. unfold ret. simpl.
    destruct (everyKeyDefined fds v); [right | by left].
    exists acc. by rewrite app_nil_r.
  - rewrite coerceFields_cons. cbv zeta.
    change (fieldNames (f :: rest)) with ([field_name f] ++ fieldNames rest).
    rewrite app_assoc.
    destruct (negb (isUndefined (getProperty v (field_name f)))).
    + rewrite bind_eq. destruct (isUndefined _); [by left |].
      apply IH. by apply setProperty_keys_sublist.
    + destruct (negb (isUndefined (field_defaultValue f))).
      * rewrite bind_eq. apply IH. by apply setProperty_keys_sublist.
      * destruct (isNonNullType (field_type f)); [by left |].
        apply IH. by apply sublist_inserts_r.
Qed.

Lemma coerceLiteralFields_keys (fieldNodes : gmap string ValueNode)
    (variables : option (gmap string value))
    (fields : list GraphQLInputField) :
  forall acc h processed,
    map fst acc `sublist_of` processed ->
    (coerceLiteralFields fieldNodes variables fields acc h).1 = VUndefined
    \/ exists o,
        (coerceLiteralFields fieldNodes variables fields acc h).1 = VObj o
        /\ map fst o `sublist_of` processed ++ fieldNames fields.
Proof.
  induction fields as [| f rest IH]; intros acc h processed Hsub.
  - rewrite coerceLiteralFields_nil. right. exists acc. by rewrite app_nil_r.
  - rewrite coerceLiteralFields_cons. cbv zeta.
    change (fieldNames (f :: rest)) with ([field_name f] ++ fieldNames rest).
    rewrite app_assoc.
    set (orDefault :=
           if negb (isUndefined (field_defaultValue f)) then
             let* coercedDefault := coerceDefaultValue f in
             coerceLiteralFields fieldNodes variables rest
               (setProperty (field_name f) coercedDefault acc)
           else if isNonNullType (field_type f) then ret VUndefined
           else coerceLiteralFields fieldNodes variables rest acc).
    assert ((orDefault h).1 = VUndefined
            \/ exists o,
                (orDefault h).1 = VObj o
                /\ map fst o `sublist_of`
                     (processed ++ [field_name f]) ++ fieldNames rest)
      as Hdefault.
    { unfold orDefault.
      destruct (negb (isUndefined (field_defaultValue f))).
      - rewrite bind_eq. apply IH. by apply setProperty_keys_sublist.
      - destruct (isNonNullType (field_type f)); [by left |].
        apply IH. by apply sublist_inserts_r. }
    destruct (fieldNodes !! field_name f) as [fieldNode |]; [| exact Hdefault].
    destruct (negb (isMissingVariable fieldNode variables)); [| exact Hdefault].
    rewrite bind_eq.
    destruct (isUndefined (coerceInputLiteral fieldNode (field_type f)
                             variables h).1); [by left |].
    apply IH. by apply setProperty_keys_sublist.
Qed.

(** C10, as amended.  For every input-object type and every input on
    which coercion succeeds (returns something other than [undefined]),
    the result of value coercion, and of literal coercion of a node that
    is not a variable reference, is [null] (for a null input) or an object
    whose keys are declared field names of the type, in declared-field
    order; so no key of the input appears in the result unless a field
    declares it. *)
Theorem coerced_object_keys_are_declared (name : string)
    (fieldDefs : list GraphQLInputField) :
  (forall inputValue path h result,
      (coerceInputValueImpl inputValue
         (GraphQLInputObjectType name fieldDefs) path h).1 = result ->
      result <> VUndefined ->
      (isNullish inputValue = true /\ result = VNull)
      \/ exists coercedValue,
          result = VObj coercedValue
          /\ map fst coercedValue `sublist_of` fieldNames fieldDefs
          /\ forall key,
              key ∈ map fst coercedValue -> key ∈ fieldNames fieldDefs)
  /\ (forall valueNode variables h result,
         isVariableNode valueNode = false ->
         (coerceInputLiteral valueNode
            (GraphQLInputObjectType name fieldDefs) variables h).1 = result ->
         result <> VUndefined ->
         (valueNode = NullValue /\ result = VNull)
         \/ exists coercedValue,
             result = VObj coercedValue
             /\ map fst coercedValue `sublist_of` fieldNames fieldDefs
             /\ forall key,
                 key ∈ map fst coercedValue -> key ∈ fieldNames fieldDefs).
Proof.
  split.
  - intros inputValue path h result Hres Hdef.
    rewrite coerceInputValueImpl_object in Hres.
    destruct (isNullish inputValue) eqn:Hn; [by left |].
    destruct (negb (isObjectLike inputValue)); [by subst |].
    right.
    destruct (coerceFields_keys name fieldDefs inputValue path fieldDefs
                [] h [] (sublist_nil_l _)) as [Hu | [o [Ho Hsub]]].
    + congruence.
    + exists o. rewrite Ho in Hres. subst result. split_and!; [done.. |].
      intros key Hkey. by apply (sublist_subseteq _ _ Hsub).
  - intros valueNode variables h result Hvar Hres Hdef.
    destruct valueNode; try discriminate; try (by subst).
    + by left.
    + right. rewrite coerceInputLiteral_object in Hres.
      destruct (coerceLiteralFields_keys (keyMap fields) variables fieldDefs
                  [] h [] (sublist_nil_l _)) as [Hu | [o [Ho Hsub]]].
      * congruence.
      * exists o. rewrite Ho in Hres. subst result. split_and!; [done.. |].
        intros key Hkey. by apply (sublist_subseteq _ _ Hsub).
Qed.

(* ================================================================== *)
(** ** The memoized default *)
(* ================================================================== *)

Lemma readMemo_noteRecompute (a addr : positive) (h : Heap) :
  readMemo a (noteRecompute addr h) = readMemo a h.
Proof. reflexivity. Qed.

Lemma readMemo_writeMemo_eq (a : positive) (v : value) (h : Heap) :
  readMemo a (writeMemo a v h) = v.
Proof. unfold readMemo, writeMemo. simpl. by rewrite lookup_insert_eq. Qed.

Lemma readMemo_writeMemo_ne (a addr : positive) (v : value) (h : Heap) :
  addr <> a -> readMemo a (writeMemo addr v h) = readMemo a h.
Proof.
  intros Hne. unfold readMemo, writeMemo. simpl. by rewrite lookup_insert_ne.
Qed.

Lemma coerceDefaultValueWith_cached (compute : M value) (addr : positive)
    (h : Heap) :
  readMemo addr h <> VUndefined ->
  coerceDefaultValueWith compute addr h = (readMemo addr h, h).
Proof.
  intros Hc. unfold coerceDefaultValueWith.
  destruct (isUndefined (readMemo addr h)) eqn:E; [| reflexivity].
  by apply isUndefined_true in E.
Qed.

Lemma coerceDefaultValueWith_fresh (compute : M value) (addr : positive)
    (h : Heap) :
  readMemo addr h = VUndefined ->
  coerceDefaultValueWith compute addr h
  = ((compute (noteRecompute addr h)).1,
     writeMemo addr (compute (noteRecompute addr h)).1
       (compute (noteRecompute addr h)).2).
Proof.
  intros Hc. unfold coerceDefaultValueWith. rewrite Hc. simpl.
  by destruct (compute (noteRecompute addr h)).
Qed.

Section CachedValue.
(** A descriptor [slot] whose hidden field holds [cachedValue]. *)
Variable slot : positive.
Variable cachedValue : value.
Hypothesis cachedValue_defined : cachedValue <> VUndefined.

Local Notation "'cached'" := (holds slot cachedValue).

Lemma coerceDefaultValueWith_holds (compute : M value) (addr : positive) :
  (forall h, cached h -> cached (compute h).2) ->
  forall h, cached h -> cached (coerceDefaultValueWith compute addr h).2.
Proof using cachedValue_defined.
  intros Hcompute h Hh.
  destruct (isUndefined (readMemo addr h)) eqn:Hfresh.
  - apply isUndefined_true in Hfresh.
    rewrite coerceDefaultValueWith_fresh by done. simpl. unfold holds.
    rewrite readMemo_writeMemo_ne.
    + apply Hcompute. unfold holds. by rewrite readMemo_noteRecompute.
    + intros ->. unfold holds in Hh. congruence.
  - rewrite coerceDefaultValueWith_cached; [done |].
    intros Hu. by rewrite Hu in Hfresh.
Qed.

Lemma coerceItems_holds (coerceItem : value -> nat -> M value) :
  (forall v i h, cached h -> cached (coerceItem v i h).2) ->
  forall items index acc h,
    cached h -> cached (coerceItems coerceItem items index acc h).2.
Proof using Type.
  intros Hitem items. induction items as [| item rest IH];
    intros index acc h Hh; simpl.
  - exact Hh.
  - rewrite bind_eq. destruct (isUndefined _); [by apply Hitem |].
    apply IH. by apply Hitem.
Qed.

Lemma coerceFields_holds (name : string) (fds : list GraphQLInputField)
    (v : value) (p : option Path) (fields : list GraphQLInputField) :
  Forall (fun f => forall v p h,
              cached h ->
              cached (coerceInputValueImpl v (field_type f) p h).2) fields ->
  forall acc h, cached h -> cached (coerceFields name fds v p fields acc h).2.
Proof using cachedValue_defined.
  induction 1 as [| f rest Hf _ IH]; intros acc h Hh.
  - exact Hh.
  - rewrite coerceFields_cons. cbv zeta.
    destruct (negb (isUndefined (getProperty v (field_name f)))).
    + rewrite bind_eq. destruct (isUndefined _); [by apply Hf |].
      apply IH. by apply Hf.
    + destruct (negb (isUndefined (field_defaultValue f))).
      * rewrite bind_eq. apply IH. unfold coerceDefaultValue.
        apply coerceDefaultValueWith_holds; [| done].
        intros h0. apply Hf.
      * destruct (isNonNullType (field_type f)); [done | by apply IH].
Qed.

(** No value coercion disturbs a cached default. *)
Lemma coerceInputValueImpl_holds (t : GraphQLInputType) :
  forall v p h, cached h -> cached (coerceInputValueImpl v t p h).2.
Proof using cachedValue_defined.
  induction t as [t IH | t IH | name fds IH | name pv pl | name pv pl]
    using GraphQLInputType_nested_ind; intros v p h Hh.
  - simpl. destruct (isNullish v); [done | by apply IH].
  - simpl. destruct (isNullish v); [done |].
    destruct v; try (rewrite bind_eq; by apply IH).
    apply coerceItems_holds; [| done]. intros. by apply IH.
  - rewrite coerceInputValueImpl_object.
    destruct (isNullish v); [done |].
    destruct (negb (isObjectLike v)); [done |].
    by apply coerceFields_holds.
  - simpl. destruct (isNullish v); [done |]. by destruct (pv v).
  - simpl. destruct (isNullish v); [done |]. by destruct (pv v).
Qed.

Lemma coerceDefaultValue_holds (f : GraphQLInputField) (h : Heap) :
  cached h -> cached (coerceDefaultValue f h).2.
Proof using cachedValue_defined.
  apply coerceDefaultValueWith_holds. intros h0.
  apply coerceInputValueImpl_holds.
Qed.

Lemma coerceItemNodes_holds (coerceItem : ValueNode -> M value)
    (nonNull : bool) (variables : option (gmap string value)) :
  (forall node h, cached h -> cached (coerceItem node h).2) ->
  forall values acc h,
    cached h ->
    cached (coerceItemNodes coerceItem nonNull variables values acc h).2.
Proof using Type.
  intros Hitem values. induction values as [| node rest IH];
    intros acc h Hh; simpl.
  - exact Hh.
  - rewrite bind_eq. destruct (isUndefined _).
    + destruct (isMissingVariable node variables && negb nonNull).
      * apply IH. by apply Hitem.
      * by apply Hitem.
    + apply IH. by apply Hitem.
Qed.

Lemma coerceLiteralFields_holds (fieldNodes : gmap string ValueNode)
    (variables : option (gmap string value))
    (fields : list GraphQLInputField) :
  Forall (fun f => forall node vars h,
              cached h ->
              cached (coerceInputLiteral node (field_type f) vars h).2)
         fields ->
  forall acc h,
    cached h ->
    cached (coerceLiteralFields fieldNodes variables fields acc h).2.
Proof using cachedValue_defined.
  induction 1 as [| f rest Hf _ IH]; intros acc h Hh.
  - exact Hh.
  - rewrite coerceLiteralFields_cons. cbv zeta.
    set (orDefault :=
           if negb (isUndefined (field_defaultValue f)) then
             let* coercedDefault := coerceDefaultValue f in
             coerceLiteralFields fieldNodes variables rest
               (setProperty (field_name f) coercedDefault acc)
           else if isNonNullType (field_type f) then ret VUndefined
           else coerceLiteralFields fieldNodes variables rest acc).
    assert (cached (orDefault h).2) as Hdefault.
    { unfold orDefault.
      destruct (negb (isUndefined (field_defaultValue f))).
      - rewrite bind_eq. apply IH. by apply coerceDefaultValue_holds.
      - destruct (isNonNullType (field_type f)); [done | by apply IH]. }
    destruct (fieldNodes !! field_name f) as [fieldNode |]; [| done].
    destruct (negb (isMissingVariable fieldNode variables)); [| done].
    rewrite bind_eq.
    destruct (isUndefined (coerceInputLiteral fieldNode (field_type f)
                             variables h).1); [by apply Hf |].
    apply IH. by apply Hf.
Qed.

(** Nor does any literal coercion. *)
Lemma coerceInputLiteral_holds (t : GraphQLInputType) :
  forall node variables h,
    cached h -> cached (coerceInputLiteral node t variables h).2.
Proof using cachedValue_defined.
  induction t as [t IH | t IH | name fds IH | name pv pl | name pv pl]
    using GraphQLInputType_nested_ind; intros node variables h Hh.
  - destruct (isVariableNode node) eqn:Hvar.
    { destruct node; try discriminate.
      rewrite coerceInputLiteral_variable.
      destruct variables; [| done].
      destruct (isMissingVariable _ _); [done |]. cbv zeta.
      by destruct (isNull _ && _). }
    destruct node; try discriminate; simpl; try by apply IH. done.
  - destruct (isVariableNode node) eqn:Hvar.
    { destruct node; try discriminate.
      rewrite coerceInputLiteral_variable.
      destruct variables; [| done].
      destruct (isMissingVariable _ _); [done |]. cbv zeta.
      by destruct (isNull _ && _). }
    destruct node; try discriminate; simpl;
      try (rewrite bind_eq; by apply IH); [done |].
    apply coerceItemNodes_holds; [| done]. intros. by apply IH.
  - destruct (isVariableNode node) eqn:Hvar.
    { destruct node; try discriminate.
      rewrite coerceInputLiteral_variable.
      destruct variables; [| done].
      destruct (isMissingVariable _ _); [done |]. cbv zeta.
      by destruct (isNull _ && _). }
    destruct node; try discriminate; try done.
    rewrite coerceInputLiteral_object. by apply coerceLiteralFields_holds.
  - destruct (isVariableNode node) eqn:Hvar.
    { destruct node; try discriminate.
      rewrite coerceInputLiteral_variable.
      destruct variables; [| done].
      destruct (isMissingVariable _ _); [done |]. cbv zeta.
      by destruct (isNull _ && _). }
    destruct node; try discriminate; simpl; try done;
      by destruct (pl _ variables).
  - destruct (isVariableNode node) eqn:Hvar.
    { destruct node; try discriminate.
      rewrite coerceInputLiteral_variable.
      destruct variables; [| done].
      destruct (isMissingVariable _ _); [done |]. cbv zeta.
      by destruct (isNull _ && _). }
    destruct node; try discriminate; simpl; try done;
      by destruct (pl _ variables).
Qed.
End CachedValue.

(** *** Every logged event belongs to a descriptor of the type *)

Lemma logsWithin_refl (A : list positive) (h : Heap) : logsWithin A h h.
Proof. exists []. by rewrite app_nil_r. Qed.

Lemma logsWithin_trans (A : list positive) (h1 h2 h3 : Heap) :
  logsWithin A h1 h2 -> logsWithin A h2 h3 -> logsWithin A h1 h3.
Proof.
  intros [e1 [H1 F1]] [e2 [H2 F2]]. exists (e1 ++ e2). split.
  - by rewrite H2, H1, app_assoc.
  - by apply Forall_app.
Qed.

Lemma logsWithin_mono (A B : list positive) (h h' : Heap) :
  A ⊆ B -> logsWithin A h h' -> logsWithin B h h'.
Proof.
  intros Hsub [evs [Hev Hall]]. exists evs. split; [done |].
  eapply Forall_impl; [exact Hall |]. intros e He. by apply Hsub.
Qed.

Lemma logsWithin_loggedSince (A : list positive) (h h' : Heap) :
  logsWithin A h h' ->
  events h' = events h ++ loggedSince h h'
  /\ Forall (fun e => eventAddr e ∈ A) (loggedSince h h').
Proof.
  intros [evs [Hev Hall]]. unfold loggedSince. rewrite Hev.
  by rewrite drop_app_length.
Qed.

Lemma typeAddrs_object (name : string) (fds : list GraphQLInputField) :
  typeAddrs (GraphQLInputObjectType name fds) = fieldsAddrs fds.
Proof.
  simpl. induction fds as [| [fname ftype fdefault faddr] rest IH].
  - reflexivity.
  - simpl. by rewrite IH.
Qed.

Lemma coerceDefaultValueWith_logs (A : list positive) (compute : M value)
    (addr : positive) :
  addr ∈ A ->
  (forall h, logsWithin A h (compute h).2) ->
  forall h, logsWithin A h (coerceDefaultValueWith compute addr h).2.
Proof.
  intros Haddr Hcompute h. unfold coerceDefaultValueWith.
  destruct (isUndefined (readMemo addr h)); [| apply logsWithin_refl].
  specialize (Hcompute (noteRecompute addr h)).
  destruct (compute (noteRecompute addr h)) as [c h']. simpl in *.
  destruct Hcompute as [evs [Hev Hall]].
  exists ([Recomputed addr] ++ evs ++ [Written addr c]). split.
  - simpl. rewrite Hev. simpl. by rewrite <- !app_assoc.
  - apply Forall_app. split; [by repeat constructor |].
    apply Forall_app. split; [done | by repeat constructor].
Qed.

Lemma coerceItems_logs (A : list positive)
    (coerceItem : value -> nat -> M value) :
  (forall v i h, logsWithin A h (coerceItem v i h).2) ->
  forall items index acc h,
    logsWithin A h (coerceItems coerceItem items index acc h).2.
Proof.
  intros Hitem items. induction items as [| item rest IH];
    intros index acc h; simpl.
  - apply logsWithin_refl.
  - rewrite bind_eq. destruct (isUndefined _); [apply Hitem |].
    eapply logsWithin_trans; [apply Hitem | apply IH].
Qed.

Lemma coerceFields_logs (A : list positive) (name : string)
    (fds : list GraphQLInputField) (v : value) (p : option Path)
    (fields : list GraphQLInputField) :
  Forall (fun f => forall v p h,
              logsWithin (typeAddrs (field_type f)) h
                (coerceInputValueImpl v (field_type f) p h).2) fields ->
  fieldsAddrs fields ⊆ A ->
  forall acc h, logsWithin A h (coerceFields name fds v p fields acc h).2.
Proof.
  induction 1 as [| f rest Hf _ IH]; intros Hsub acc h.
  - apply logsWithin_refl.
  - assert (field_addr f ∈ A) as Haddr.
    { apply Hsub. unfold fieldsAddrs. simpl. left. }
    assert (typeAddrs (field_type f) ⊆ A) as Htype.
    { intros x Hx. apply Hsub. unfold fieldsAddrs. simpl.
      right. apply elem_of_app. by left. }
    assert (fieldsAddrs rest ⊆ A) as Hrest.
    { intros x Hx. apply Hsub. unfold fieldsAddrs. simpl.
      right. apply elem_of_app. by right. }
    rewrite coerceFields_cons. cbv zeta.
    destruct (negb (isUndefined (getProperty v (field_name f)))).
    + rewrite bind_eq.
      destruct (isUndefined _).
      * eapply logsWithin_mono; [exact Htype | apply Hf].
      * eapply logsWithin_trans; [| by apply IH].
        eapply logsWithin_mono; [exact Htype | apply Hf].
    + destruct (negb (isUndefined (field_defaultValue f))).
      * rewrite bind_eq. eapply logsWithin_trans; [| by apply IH].
        unfold coerceDefaultValue.
        apply coerceDefaultValueWith_logs; [done |].
        intros h0. eapply logsWithin_mono; [exact Htype | apply Hf].
      * destruct (isNonNullType (field_type f));
          [apply logsWithin_refl | by apply IH].
Qed.

(** Value coercion against a type logs events of the descriptors inside
    that type only. *)
Lemma coerceInputValueImpl_logs (t : GraphQLInputType) :
  forall v p h, logsWithin (typeAddrs t) h (coerceInputValueImpl v t p h).2.
Proof.
  induction t as [t IH | t IH | name fds IH | name pv pl | name pv pl]
    using GraphQLInputType_nested_ind; intros v p h.
  - simpl. destruct (isNullish v); [apply logsWithin_refl | apply IH].
  - simpl. destruct (isNullish v); [apply logsWithin_refl |].
    destruct v; try (rewrite bind_eq; apply IH).
    apply coerceItems_logs. intros. apply IH.
  - rewrite coerceInputValueImpl_object, typeAddrs_object.
    destruct (isNullish v); [apply logsWithin_refl |].
    destruct (negb (isObjectLike v)); [apply logsWithin_refl |].
    by apply coerceFields_logs.
  - simpl. destruct (isNullish v); [apply logsWithin_refl |].
    destruct (pv v); apply logsWithin_refl.
  - simpl. destruct (isNullish v); [apply logsWithin_refl |].
    destruct (pv v); apply logsWithin_refl.
Qed.

Lemma countWritten_app (addr : positive) (l1 l2 : list MemoEvent) :
  countWritten addr (l1 ++ l2) = countWritten addr l1 + countWritten addr l2.
Proof.
  induction l1 as [| [a | a v] rest IH]; simpl; [done | done |].
  rewrite IH. lia.
Qed.

Lemma countRecomputed_app (addr : positive) (l1 l2 : list MemoEvent) :
  countRecomputed addr (l1 ++ l2)
  = countRecomputed addr l1 + countRecomputed addr l2.
Proof.
  induction l1 as [| [a | a v] rest IH]; simpl; [done | | done].
  rewrite IH. lia.
Qed.

Lemma counts_outside (addr : positive) (A : list positive)
    (evs : list MemoEvent) :
  addr ∉ A -> Forall (fun e => eventAddr e ∈ A) evs ->
  countWritten addr evs = 0 /\ countRecomputed addr evs = 0.
Proof.
  intros Hout. induction 1 as [| [a | a v] rest He _ [IHw IHr]]; simpl.
  - done.
  - rewrite IHw, IHr. destruct (Pos.eqb a addr) eqn:E; [| done].
    apply Pos.eqb_eq in E. subst a. done.
  - rewrite IHw, IHr. destruct (Pos.eqb a addr) eqn:E; [| done].
    apply Pos.eqb_eq in E. subst a. done.
Qed.

(** C9, as amended.  For every field descriptor carrying a default value
    whose coercion yields a value other than [undefined]: the first call
    of [coerceDefaultValue] on the descriptor (nothing cached yet, and the
    descriptor not nested in its own type) coerces the default once and
    assigns the result to the hidden field exactly once; every later call
    on the same descriptor, in any store where the field still holds that
    value, returns that same value and leaves the store as it is, log
    included (no recomputation, no further assignment); and no coercion of
    any value, literal or default ever changes the field again. *)
Theorem default_memoized_once (f : GraphQLInputField) (h h1 : Heap)
    (v : value) :
  field_defaultValue f <> VUndefined ->
  readMemo (field_addr f) h = VUndefined ->
  field_addr f ∉ typeAddrs (field_type f) ->
  coerceDefaultValue f h = (v, h1) ->
  v <> VUndefined ->
  events h1 = events h ++ loggedSince h h1
  /\ countWritten (field_addr f) (loggedSince h h1) = 1
  /\ countRecomputed (field_addr f) (loggedSince h h1) = 1
  /\ holds (field_addr f) v h1
  /\ (forall h2,
         holds (field_addr f) v h2 -> coerceDefaultValue f h2 = (v, h2))
  /\ (forall inputValue type path h2,
         holds (field_addr f) v h2 ->
         holds (field_addr f) v
           (coerceInputValueImpl inputValue type path h2).2)
  /\ (forall valueNode type variables h2,
         holds (field_addr f) v h2 ->
         holds (field_addr f) v
           (coerceInputLiteral valueNode type variables h2).2)
  /\ (forall g h2,
         holds (field_addr f) v h2 ->
         holds (field_addr f) v (coerceDefaultValue g h2).2).
Proof.
  intros _ Hfresh Hnested Hcall Hdefined.
  unfold coerceDefaultValue in Hcall.
  rewrite coerceDefaultValueWith_fresh in Hcall by done.
  pose proof (coerceInputValueImpl_logs (field_type f) (field_defaultValue f)
                None (noteRecompute (field_addr f) h)) as [evs [Hev Hall]].
  destruct (coerceInputValueImpl (field_defaultValue f) (field_type f) None
              (noteRecompute (field_addr f) h)) as [c h'] eqn:Hcompute.
  simpl in Hcall, Hev. injection Hcall as -> <-.
  assert (loggedSince h (writeMemo (field_addr f) v h')
          = [Recomputed (field_addr f)] ++ evs ++ [Written (field_addr f) v])
    as Hlogged.
  { unfold loggedSince. simpl. rewrite Hev.
    rewrite <- !app_assoc. by rewrite drop_app_length. }
  destruct (counts_outside _ _ _ Hnested Hall) as [Hw Hr].
  split_and!.
  - rewrite Hlogged. simpl. rewrite Hev. by rewrite <- !app_assoc.
  - rewrite Hlogged. simpl. rewrite countWritten_app, Hw. simpl.
    by rewrite Pos.eqb_refl.
  - rewrite Hlogged. simpl. rewrite countRecomputed_app, Hr. simpl.
    by rewrite Pos.eqb_refl.
  - apply readMemo_writeMemo_eq.
  - intros h2 Hh2. unfold coerceDefaultValue.
    rewrite coerceDefaultValueWith_cached; rewrite Hh2; done.
  - intros inputValue type path h2. by apply coerceInputValueImpl_holds.
  - intros valueNode type variables h2. by apply coerceInputLiteral_holds.
  - intros g h2. by apply coerceDefaultValue_holds.
Qed.

(* ================================================================== *)
(** ** Literal round trip *)
(* ================================================================== *)

Lemma astFromValue_not_variable (v : value) (type : option GraphQLInputType)
    (node : ValueNode) :
  astFromValue v type = Return node -> isVariableNode node = false.
Proof.
  destruct v.
  - by intros [= <-].
  - by intros [= <-].
  - by intros [= <-].
  - simpl. destruct (negb (PrimFloat.is_finite n)); [by intros [= <-] |].
    destruct (integerStringRegExp_test _); by intros [= <-].
  - simpl. destruct (_ && _); [by intros [= <-] |].
    destruct (_ && _); by intros [= <-].
  - discriminate.
  - rewrite astFromValue_list. destruct (astFromItems _ _); [| discriminate].
    by intros [= <-].
  - rewrite astFromValue_object. destruct (astFromProps _ _); [| discriminate].
    by intros [= <-].
Qed.

Lemma coerceInputLiteral_null (t : GraphQLInputType)
    (variables : option (gmap string value)) (h : Heap) :
  coerceInputLiteral NullValue t variables h
  = (if isNonNullType t then VUndefined else VNull, h).
Proof. by destruct t. Qed.

Lemma coerceInputLiteral_nonNull (node : ValueNode) (t : GraphQLInputType)
    (variables : option (gmap string value)) :
  isVariableNode node = false -> isNullNode node = false ->
  coerceInputLiteral node (GraphQLNonNull t) variables
  = coerceInputLiteral node t variables.
Proof. intros Hv Hn. by destruct node. Qed.

Lemma coerceInputLiteral_leaf (node : ValueNode) (t : GraphQLInputType)
    (variables : option (gmap string value)) (h : Heap) :
  isVariableNode node = false -> isNullNode node = false ->
  forall name pv pl,
    t = GraphQLScalarType name pv pl \/ t = GraphQLEnumType name pv pl ->
    coerceInputLiteral node t variables h
    = (match pl node variables with
       | Return parsed => parsed
       | Throw _ => VUndefined
       end, h).
Proof.
  intros Hv Hn name pv pl [-> | ->];
    destruct node; try discriminate; simpl; by destruct (pl _ variables).
Qed.

Lemma Canonical_defined (v : value) (t : GraphQLInputType) :
  Canonical v t -> v <> VUndefined.
Proof.
  intros Hc ->. inversion Hc as [| | | | | | v' t' Hleaf]; subst; try done.
  destruct t; try done; destruct Hleaf as [node [Hast [Hnull _]]];
    simpl in Hast; injection Hast as <-; done.
Qed.

Lemma setProperty_fresh (k : string) (v : value) (acc : list (string * value)) :
  k ∉ map fst acc -> setProperty k v acc = acc ++ [(k, v)].
Proof.
  induction acc as [| [k' old] rest IH]; simpl; [done |].
  rewrite not_elem_of_cons. intros [Hne Hrest].
  destruct (String.eqb k' k) eqn:E.
  - apply String.eqb_eq in E. congruence.
  - by rewrite IH.
Qed.

Lemma keyMap_fold_absent (l : list (string * ValueNode))
    (m : gmap string ValueNode) (k : string) :
  k ∉ map fst l ->
  foldl (fun map field => <[field.1 := field.2]> map) m l !! k = m !! k.
Proof.
  revert m. induction l as [| [k' n'] rest IH]; intros m; simpl; [done |].
  rewrite not_elem_of_cons. intros [Hne Hrest].
  rewrite IH by done. by rewrite lookup_insert_ne.
Qed.

Lemma keyMap_fold_present (l : list (string * ValueNode))
    (m : gmap string ValueNode) (k : string) (n : ValueNode) :
  NoDup (map fst l) -> (k, n) ∈ l ->
  foldl (fun map field => <[field.1 := field.2]> map) m l !! k = Some n.
Proof.
  revert m. induction l as [| [k' n'] rest IH]; intros m; simpl.
  - intros _ Hin. by apply elem_of_nil in Hin.
  - rewrite NoDup_cons. intros [Hfresh Hnodup].
    rewrite elem_of_cons. intros [[= -> ->] | Hin].
    + rewrite keyMap_fold_absent by done. by rewrite lookup_insert_eq.
    + by apply IH.
Qed.

Lemma CanonicalFields_keys (props : list (string * value))
    (fields : list GraphQLInputField) :
  CanonicalFields props fields -> map fst props `sublist_of` fieldNames fields.
Proof.
  induction 1 as [| f fv props rest _ _ IH | f props rest _ _ _ IH]; simpl.
  - constructor.
  - by constructor.
  - by constructor.
Qed.

Lemma lookupField_NoDup (fds : list GraphQLInputField) (f : GraphQLInputField) :
  NoDup (fieldNames fds) -> f ∈ fds -> lookupField fds (field_name f) = Some f.
Proof.
  induction fds as [| g rest IH]; simpl.
  - intros _ Hin. by apply elem_of_nil in Hin.
  - rewrite NoDup_cons. intros [Hfresh Hnodup].
    rewrite elem_of_cons. intros [-> | Hin].
    + by rewrite String.eqb_refl.
    + destruct (String.eqb (field_name g) (field_name f)) eqn:E.
      * apply String.eqb_eq in E. exfalso. apply Hfresh. rewrite E.
        unfold fieldNames. by apply list_elem_of_fmap_2.
      * by apply IH.
Qed.

Section RoundTripSteps.
Variable name : string.

(** The array case, given the round trip at the item type. *)
Lemma items_roundtrip (t : GraphQLInputType) :
  (forall v, Canonical v t ->
             exists node,
               astFromValue v (Some t) = Return node
               /\ forall h, coerceInputLiteral node t None h = (v, h)) ->
  forall items,
    Forall (fun item => Canonical item t) items ->
    exists nodes,
      astFromItems (Some (getNamedType t)) items = Return nodes
      /\ forall acc h,
          coerceItemNodes (fun itemNode => coerceInputLiteral itemNode t None)
            (isNonNullType t) None nodes acc h
          = (VList (acc ++ items), h).
Proof.
  intros IHt items. induction 1 as [| item rest Hitem _ [nodes [Hast Hback]]].
  - exists []. split; [done |]. intros acc h. simpl. by rewrite app_nil_r.
  - destruct (IHt item Hitem) as [node [Hnode Hcoerce]].
    exists (node :: nodes). split.
    + by rewrite astFromItems_cons, astFromValue_named, Hnode, Hast.
    + intros acc h. simpl. rewrite bind_eq, Hcoerce. simpl.
      pose proof (Canonical_defined _ _ Hitem) as Hdef.
      destruct item; try done; simpl; rewrite Hback;
        by rewrite <- app_assoc.
Qed.

(** The object case, given the round trip at each field type. *)
Lemma fields_roundtrip (props : list (string * value))
    (fields : list GraphQLInputField) :
  CanonicalFields props fields ->
  Forall (fun f => forall v, Canonical v (field_type f) ->
              exists node,
                astFromValue v (Some (field_type f)) = Return node
                /\ forall h,
                    coerceInputLiteral node (field_type f) None h = (v, h))
         fields ->
  NoDup (fieldNames fields) ->
  exists nodes,
    map fst nodes = map fst props
    /\ (forall fds,
           (forall f, f ∈ fields -> lookupField fds (field_name f) = Some f) ->
           astFromProps (Some (GraphQLInputObjectType name fds)) props
           = Return nodes)
    /\ (forall km,
           (forall k n, (k, n) ∈ nodes -> km !! k = Some n) ->
           (forall f, f ∈ fields -> field_name f ∉ map fst nodes ->
                      km !! field_name f = None) ->
           forall acc h,
             (forall f, f ∈ fields -> field_name f ∉ map fst acc) ->
             coerceLiteralFields km None fields acc h
             = (VObj (acc ++ props), h)).
Proof.
  induction 1
    as [| f fv props rest Hfv Hrest IH | f props rest Hd Hnn Hrest IH];
    intros Hall Hnodup.
  - exists []. split_and!; [done | done |].
    intros km _ _ acc h _. rewrite coerceLiteralFields_nil.
    by rewrite app_nil_r.
  - apply Forall_cons in Hall as [Hf Hall].
    simpl in Hnodup. apply NoDup_cons in Hnodup as [Hfresh Hnodup].
    destruct (IH Hall Hnodup) as [nodes [Hkeys [Hast Hback]]].
    destruct (Hf fv Hfv) as [node [Hnode Hcoerce]].
    exists ((field_name f, node) :: nodes). split_and!.
    + simpl. by rewrite Hkeys.
    + intros fds Hlookup. rewrite astFromProps_cons. simpl.
      rewrite (Hlookup f) by left. simpl. rewrite Hnode.
      rewrite Hast; [done |]. intros g Hg. apply Hlookup. by right.
    + intros km Hpresent Habsent acc h Hacc.
      rewrite coerceLiteralFields_cons. cbv zeta.
      rewrite (Hpresent (field_name f) node) by left.
      assert (isMissingVariable node None = false) as ->.
      { apply astFromValue_not_variable in Hnode. by destruct node. }
      change (negb false) with true. cbv iota.
      rewrite bind_eq, Hcoerce. simpl.
      pose proof (Canonical_defined _ _ Hfv) as Hdef.
      assert (isUndefined fv = false) as -> by (by destruct fv).
      rewrite setProperty_fresh by (apply Hacc; left).
      rewrite Hback.
      * by rewrite <- app_assoc.
      * intros k n Hin. apply Hpresent. by right.
      * intros g Hg Hnot. apply Habsent; [by right |].
        simpl. rewrite not_elem_of_cons. split; [| done].
        intros Heq. apply Hfresh. rewrite <- Heq.
        unfold fieldNames. by apply list_elem_of_fmap_2.
      * intros g Hg. rewrite map_app. simpl.
        rewrite elem_of_app, list_elem_of_singleton.
        intros [Hin | Heq].
        { by apply (Hacc g); [right |]. }
        { apply Hfresh. rewrite <- Heq.
          unfold fieldNames. by apply list_elem_of_fmap_2. }
  - apply Forall_cons in Hall as [Hf Hall].
    simpl in Hnodup. apply NoDup_cons in Hnodup as [Hfresh Hnodup].
    destruct (IH Hall Hnodup) as [nodes [Hkeys [Hast Hback]]].
    exists nodes. split_and!.
    + done.
    + intros fds Hlookup. apply Hast. intros g Hg. apply Hlookup. by right.
    + intros km Hpresent Habsent acc h Hacc.
      rewrite coerceLiteralFields_cons. cbv zeta.
      assert (km !! field_name f = None) as ->.
      { apply Habsent; [left |]. rewrite Hkeys. intros Hin.
        apply Hfresh.
        by apply (sublist_subseteq _ _ (CanonicalFields_keys _ _ Hrest)). }
      rewrite Hd, Hnn. change (negb (isUndefined VUndefined)) with false.
      cbv iota.
      apply Hback; [done | |].
      * intros g Hg Hnot. apply Habsent; [by right | done].
      * intros g Hg. apply Hacc. by right.
Qed.
End RoundTripSteps.

(** C2, as amended.  For every input type [T] and every value [v] in
    coerced form for [T] (see [Canonical]: arrays at list types, objects
    that list their fields in declaration order and leave out only
    nullable fields without default, and leaf values that the leaf reads
    back from their literal), [astFromValue] returns a literal, and
    coercing that literal against [T] gives back [v] and leaves the store
    untouched. *)
Theorem literal_roundtrip_of_canonical (T : GraphQLInputType) :
  forall v,
    Canonical v T ->
    exists node,
      astFromValue v (Some T) = Return node
      /\ forall h, coerceInputLiteral node T None h = (v, h).
Proof.
  induction T as [t IH | t IH | name fds IH | name pv pl | name pv pl]
    using GraphQLInputType_nested_ind; intros v Hc.
  - inversion Hc as [v' t' Hnn Hv | | | | | t' Hleaf | v' t' Hleaf];
      subst; try done.
    destruct (IH v Hv) as [node [Hast Hback]]. exists node. split.
    + rewrite <- Hast. by destruct v.
    + intros h.
      pose proof (astFromValue_not_variable _ _ _ Hast) as Hvar.
      destruct (isNullNode node) eqn:Hnull.
      * destruct node; try discriminate.
        specialize (Hback h). rewrite coerceInputLiteral_null in Hback.
        destruct (isNonNullType t); injection Hback as <-; done.
      * by rewrite coerceInputLiteral_nonNull.
  - inversion Hc as [| t' | items t' Hitems | | | t' Hleaf | v' t' Hleaf];
      subst; try done.
    + exists NullValue. split; [done |]. intros h.
      by rewrite coerceInputLiteral_null.
    + destruct (items_roundtrip t IH items Hitems) as [nodes [Hast Hback]].
      exists (ListValue nodes). split.
      * rewrite astFromValue_list. simpl. by rewrite Hast.
      * intros h. simpl. by rewrite Hback.
  - inversion Hc
      as [| | | name' fds' | props name' fds' Hnodup Hfields
          | t' Hleaf | v' t' Hleaf];
      subst; try done.
    + exists NullValue. split; [done |]. intros h.
      by rewrite coerceInputLiteral_null.
    + destruct (fields_roundtrip name props fds Hfields IH Hnodup)
        as [nodes [Hkeys [Hast Hback]]].
      exists (ObjectValue nodes). split.
      * rewrite astFromValue_object. simpl. rewrite Hast; [done |].
        intros f Hf. by apply lookupField_NoDup.
      * intros h. rewrite coerceInputLiteral_object.
        assert (NoDup (map fst nodes)) as Hnodes.
        { rewrite Hkeys.
          pose proof (CanonicalFields_keys _ _ Hfields) as Hsub.
          eapply sublist_NoDup; eassumption. }
        rewrite Hback; [done | | |].
        { intros k n Hin. by apply keyMap_fold_present. }
        { intros f _ Hnot. unfold keyMap.
          by rewrite keyMap_fold_absent, lookup_empty. }
        { intros f _. apply not_elem_of_nil. }
  - inversion Hc as [| | | | | t' Hleaf | v' t' Hleaf]; subst.
    + exists NullValue. split; [done |]. intros h.
      by rewrite coerceInputLiteral_null.
    + destruct Hleaf as [node [Hast [Hnull Hparse]]]. exists node.
      split; [done |]. intros h.
      pose proof (astFromValue_not_variable _ _ _ Hast) as Hvar.
      rewrite (coerceInputLiteral_leaf node _ None h Hvar Hnull name pv pl)
        by (by left).
      by rewrite Hparse.
  - inversion Hc as [| | | | | t' Hleaf | v' t' Hleaf]; subst.
    + exists NullValue. split; [done |]. intros h.
      by rewrite coerceInputLiteral_null.
    + destruct Hleaf as [node [Hast [Hnull Hparse]]]. exists node.
      split; [done |]. intros h.
      pose proof (astFromValue_not_variable _ _ _ Hast) as Hvar.
      rewrite (coerceInputLiteral_leaf node _ None h Hvar Hnull name pv pl)
        by (by right).
      by rewrite Hparse.
Qed.

(* ================================================================== *)
(** ** Further properties *)
(* ================================================================== *)

(** X1.  Value coercion and value validation agree: for every value and
    type, coercion yields no value exactly when validation has at least
    one error to report, whatever paths and store the two start from. *)
Theorem coercion_fails_iff_validation_reports (inputValue : value)
    (type : GraphQLInputType) (path path' : option Path) (h : Heap) :
  (coerceInputValueImpl inputValue type path h).1 = VUndefined
  <-> reportsOf inputValue type path' <> [].
Proof.
  split.
  - apply coerce_undefined_reports.
  - intros Hreports.
    destruct (isUndefined (coerceInputValueImpl inputValue type path h).1)
      eqn:Hc.
    + by apply isUndefined_true.
    + exfalso. apply Hreports. by eapply coerce_defined_no_reports.
Qed.

Lemma coerceItems_ext (f g : value -> nat -> M value) :
  (forall v i h, f v i h = g v i h) ->
  forall items index acc h,
    coerceItems f items index acc h = coerceItems g items index acc h.
Proof.
  intros Hfg items. induction items as [| item rest IH];
    intros index acc h; simpl; [done |].
  rewrite !bind_eq, Hfg. destruct (isUndefined _); [done | apply IH].
Qed.

Lemma coerceFields_ignores_path (name : string)
    (fds : list GraphQLInputField) (v : value) (p p' : option Path)
    (fields : list GraphQLInputField) :
  Forall (fun f => forall v p p' h,
              coerceInputValueImpl v (field_type f) p h
              = coerceInputValueImpl v (field_type f) p' h) fields ->
  forall acc h,
    coerceFields name fds v p fields acc h
    = coerceFields name fds v p' fields acc h.
Proof.
  induction 1 as [| f rest Hf _ IHrest]; intros acc h; [done |].
  rewrite !coerceFields_cons. cbv zeta.
  destruct (negb (isUndefined (getProperty v (field_name f)))).
  - rewrite !bind_eq.
    rewrite (Hf _ (addPath p (KeyName (field_name f)) (Some name))
               (addPath p' (KeyName (field_name f)) (Some name))).
    destruct (isUndefined _); [done | apply IHrest].
  - destruct (negb (isUndefined (field_defaultValue f))).
    + rewrite !bind_eq. apply IHrest.
    + destruct (isNonNullType (field_type f)); [done | apply IHrest].
Qed.

(** X2.  The path is carried for error reporting only: the outcome of
    value coercion, store included, does not depend on it. *)
Theorem coercion_ignores_path (type : GraphQLInputType) :
  forall inputValue path path' h,
    coerceInputValueImpl inputValue type path h
    = coerceInputValueImpl inputValue type path' h.
Proof.
  induction type as [t IH | t IH | name fds IH | name pv pl | name pv pl]
    using GraphQLInputType_nested_ind; intros v p p' h.
  - simpl. destruct (isNullish v); [done | apply IH].
  - simpl. destruct (isNullish v); [done |].
    destruct v; try (rewrite !bind_eq, (IH _ p p'); done).
    apply coerceItems_ext. intros. apply IH.
  - rewrite !coerceInputValueImpl_object.
    destruct (isNullish v); [done |].
    destruct (negb (isObjectLike v)); [done |].
    by apply coerceFields_ignores_path.
  - reflexivity.
  - reflexivity.
Qed.

Lemma coerceFields_result_keys (name : string) (fds : list GraphQLInputField)
    (v : value) (p : option Path) (fields : list GraphQLInputField) :
  forall acc h o,
    (coerceFields name fds v p fields acc h).1 = VObj o ->
    forall key,
      key ∈ map fst o
      <-> key ∈ map fst acc
          \/ exists f,
              f ∈ fields /\ field_name f = key
              /\ (isUndefined (getProperty v key) = false
                  \/ isUndefined (field_defaultValue f) = false).
Proof.
  induction fields as [| f rest IH]; intros acc h o.
  - rewrite coerceFields_nil. unfold ret. simpl.
    destruct (everyKeyDefined fds v); [| discriminate].
    intros [= <-] key. split; [by left |].
    intros [Hin | [f [Hf _]]]; [done | by apply elem_of_nil in Hf].
  - rewrite coerceFields_cons. cbv zeta.
    assert (forall c key,
               key ∈ map fst (setProperty (field_name f) c acc)
               <-> key ∈ map fst acc \/ key = field_name f) as Hset.
    { intros c key. rewrite setProperty_keys.
      destruct (bool_decide (field_name f ∈ map fst acc)) eqn:E.
      - apply bool_decide_eq_true in E. split; [by left |].
        intros [Hin | ->]; done.
      - rewrite elem_of_app, list_elem_of_singleton. done. }
    destruct (isUndefined (getProperty v (field_name f))) eqn:Hprovided;
      cbn [negb].
    + destruct (isUndefined (field_defaultValue f)) eqn:Hdefault;
        cbn [negb].
      * destruct (isNonNullType (field_type f)); [discriminate |].
        intros Hres key. rewrite (IH _ _ _ Hres key).
        split; intros [Hin | [g [Hg [Hname Hwhy]]]]; try (by left).
        { right. exists g. split_and!; [by right | done..]. }
        { apply elem_of_cons in Hg as [-> | Hg].
          - subst key. destruct Hwhy; congruence.
          - right. by exists g. }
      * rewrite bind_eq. intros Hres key.
        rewrite (IH _ _ _ Hres key), Hset.
        split.
        { intros [[Hin | ->] | [g [Hg [Hname Hwhy]]]].
          - by left.
          - right. exists f. split_and!; [left | done | by right].
          - right. exists g. split_and!; [by right | done..]. }
        { intros [Hin | [g [Hg [Hname Hwhy]]]]; [by left; left |].
          apply elem_of_cons in Hg as [-> | Hg].
          - left. by right.
          - right. by exists g. }
    + rewrite bind_eq.
      destruct (isUndefined (coerceInputValueImpl _ (field_type f) _ h).1);
        [discriminate |].
      intros Hres key. rewrite (IH _ _ _ Hres key), Hset.
      split.
      { intros [[Hin | ->] | [g [Hg [Hname Hwhy]]]].
        - by left.
        - right. exists f. split_and!; [left | done | by left].
        - right. exists g. split_and!; [by right | done..]. }
      { intros [Hin | [g [Hg [Hname Hwhy]]]]; [by left; left |].
        apply elem_of_cons in Hg as [-> | Hg].
        - left. by right.
        - right. by exists g. }
Qed.

(** X3.  When value coercion against an input-object type returns an
    object, the keys of that object are exactly the names of the declared
    fields that the input provides or that declare a default: a field
    that is neither provided nor defaulted is left out, not set to
    [null]. *)
Theorem coerced_object_fills_provided_and_defaulted (inputValue : value)
    (name : string) (fieldDefs : list GraphQLInputField) (path : option Path)
    (h : Heap) (coercedValue : list (string * value)) (key : string) :
  (coerceInputValueImpl inputValue (GraphQLInputObjectType name fieldDefs)
     path h).1 = VObj coercedValue ->
  key ∈ map fst coercedValue
  <-> exists f,
      f ∈ fieldDefs /\ field_name f = key
      /\ (isUndefined (getProperty inputValue key) = false
          \/ isUndefined (field_defaultValue f) = false).
Proof.
  rewrite coerceInputValueImpl_object.
  destruct (isNullish inputValue); [discriminate |].
  destruct (negb (isObjectLike inputValue)); [discriminate |].
  intros Hres. rewrite (coerceFields_result_keys _ _ _ _ _ _ _ _ Hres key).
  split; [| by right].
  intros [Hin | Hf]; [by apply elem_of_nil in Hin | done].
Qed.

(* ================================================================== *)
(** * Further properties of the entry points *)
(* ================================================================== *)

(** ** The default error callback *)



(** ** The paths of the reports *)

Lemma pathToArray_addPath (path : option Path) (key : PathKey)
    (typename : option string) :
  pathToArray (addPath path key typename) = pathToArray path ++ [key].
Proof. destruct path as [p |]; reflexivity. Qed.

Lemma itemsReports_elem (t : GraphQLInputType) (p : option Path)
    (items : list value) :
  forall index r,
    r ∈ itemsReports t p items index ->
    exists i itemValue,
      items !! i = Some itemValue
      /\ r ∈ reportsOf itemValue t (addPath p (KeyIndex (index + i)) None).
Proof.
  induction items as [| item rest IH]; intros index r; simpl.
  - intros Hr. by apply elem_of_nil in Hr.
  - rewrite elem_of_app. intros [Hr | Hr].
    + exists 0, item. split; [done |]. by rewrite Nat.add_0_r.
    + destruct (IH _ _ Hr) as (i & itemValue & Hi & Hin).
      exists (S i), itemValue. split; [done |].
      by replace (index + S i) with (S index + i) by lia.
Qed.

Lemma prefix_of_snoc {A : Type} (l : list A) (x : A) (l' : list A) :
  (l ++ [x]) `prefix_of` l' -> l `prefix_of` l'.
Proof. intros [k ->]. exists (x :: k). by rewrite <- app_assoc. Qed.

Lemma reportsOf_leaf_path (v : value) (t : GraphQLInputType)
    (p : option Path) (r : Report) :
  isLeafType t = true -> r ∈ reportsOf v t p -> r.1.1 = pathToArray p.
Proof.
  destruct t as [| | | name pv pl | name pv pl]; try discriminate; intros _;
    unfold reportsOf; simpl;
    (destruct (isNullish v); [intros Hr; by apply elem_of_nil in Hr |]);
    (destruct (pv v) as [res | [e | m]]; simpl;
     [destruct (isUndefined res); simpl | |]);
    intros Hr;
    try (by apply elem_of_nil in Hr);
    by apply list_elem_of_singleton in Hr as ->.
Qed.

Lemma report_path_extends (type : GraphQLInputType) :
  forall inputValue path report,
    report ∈ reportsOf inputValue type path ->
    pathToArray path `prefix_of` report.1.1.
Proof.
  induction type as [t IH | t IH | name fds IH | name pv pl | name pv pl]
    using GraphQLInputType_nested_ind; intros v p r.
  - destruct (isNullish v) eqn:Hn.
    + rewrite reportsOf_nonNull_nullish by done.
      intros Hr. by apply list_elem_of_singleton in Hr as ->.
    + rewrite reportsOf_nonNull_present by done. apply IH.
  - destruct (isNullish v) eqn:Hn.
    { rewrite reportsOf_nullish by done. intros Hr. by apply elem_of_nil in Hr. }
    destruct (isIterableObject v) eqn:Hi.
    + destruct v; try discriminate. rewrite reportsOf_list_items.
      intros Hr. apply itemsReports_elem in Hr as (i & item & _ & Hr).
      apply IH in Hr. rewrite pathToArray_addPath in Hr.
      by eapply prefix_of_snoc.
    + rewrite reportsOf_list_single by done. apply IH.
  - destruct (isNullish v) eqn:Hn.
    { rewrite reportsOf_nullish by done. intros Hr. by apply elem_of_nil in Hr. }
    destruct (isObjectLike v) eqn:Ho.
    + rewrite reportsOf_object by done. rewrite elem_of_app.
      intros [Hr | Hr].
      * apply list_elem_of_In, in_flat_map in Hr as (f & Hf & Hr).
        apply list_elem_of_In in Hf, Hr.
        rewrite Forall_forall in IH. specialize (IH f Hf).
        unfold fieldReports in Hr.
        destruct (negb (isUndefined (getProperty v (field_name f)))).
        { apply IH in Hr. rewrite pathToArray_addPath in Hr.
          by eapply prefix_of_snoc. }
        destruct (isRequiredInputField f).
        { by apply list_elem_of_singleton in Hr as ->. }
        by apply elem_of_nil in Hr.
      * unfold unknownKeysReports in Hr.
        apply list_elem_of_In, in_map_iff in Hr as (k & <- & _). done.
    + rewrite reportsOf_object_not_object by done.
      intros Hr. by apply list_elem_of_singleton in Hr as ->.
  - intros Hr. apply reportsOf_leaf_path in Hr as ->; done.
  - intros Hr. apply reportsOf_leaf_path in Hr as ->; done.
Qed.

(** X5.  Every report of validation carries a path that extends the path
    validation started from; a report about an array given for a list
    type carries, right after that path, the index of the item it is
    about. *)
Theorem report_paths_extend_the_path (inputValue : value)
    (type : GraphQLInputType) (path : option Path) (report : Report) :
  report ∈ reportsOf inputValue type path ->
  pathToArray path `prefix_of` report.1.1
  /\ (forall items itemType,
         inputValue = VList items -> type = GraphQLList itemType ->
         exists index itemValue,
           items !! index = Some itemValue
           /\ report ∈ reportsOf itemValue itemType
                         (addPath path (KeyIndex index) None)
           /\ (pathToArray path ++ [KeyIndex index]) `prefix_of` report.1.1).
Proof.
  intros Hr. split; [by apply report_path_extends in Hr |].
  intros items itemType -> ->. rewrite reportsOf_list_items in Hr.
  apply itemsReports_elem in Hr as (i & item & Hi & Hr).
  exists i, item. split_and!; [done.. |].
  apply report_path_extends in Hr. by rewrite pathToArray_addPath in Hr.
Qed.

(** ** Validation and the callback *)

Lemma deliver_throw {St : Type} (onError : OnErrorCB St) (rs : list Report) :
  forall s t,
    deliver onError rs s = Throw t ->
    exists path invalidValue error s0,
      (path, invalidValue, error) ∈ rs
      /\ onError path invalidValue error s0 = Throw t.
Proof.
  induction rs as [| [[p v] e] rest IH]; intros s t; simpl; [done |].
  unfold andThen. destruct (onError p v e s) as [s1 | t1] eqn:Hcall.
  - intros Hrest. destruct (IH _ _ Hrest) as (p' & v' & e' & s0 & Hin & Hthrow).
    exists p', v', e', s0. split; [by right | done].
  - intros [= <-]. exists p, v, e, s. split; [by left | done].
Qed.

Lemma deliver_returns {St : Type} (onError : OnErrorCB St) :
  (forall p v e s, exists s', onError p v e s = Return s') ->
  forall rs s, exists s', deliver onError rs s = Return s'.
Proof.
  intros Hret rs. induction rs as [| [[p v] e] rest IH]; intros s; simpl.
  - by exists s.
  - unfold andThen. destruct (Hret p v e s) as [s1 ->]. apply IH.
Qed.

(** X6.  Validation throws only what the callback throws: if
    [validateInputValue] throws, the callback threw that on one of the
    reports, and with a callback that always returns validation returns. *)
Theorem validation_throws_only_what_callback_throws {St : Type}
    (inputValue : value) (type : GraphQLInputType) (onError : OnErrorCB St)
    (s : St) :
  (forall t,
      validateInputValue inputValue type onError s = Throw t ->
      exists path invalidValue error s0,
        (path, invalidValue, error) ∈ reportsOf inputValue type None
        /\ onError path invalidValue error s0 = Throw t)
  /\ ((forall p v e s0, exists s1, onError p v e s0 = Return s1) ->
      exists s', validateInputValue inputValue type onError s = Return s').
Proof.
  unfold validateInputValue. rewrite validate_delivers. split.
  - intros t. apply deliver_throw.
  - intros Hret. by apply deliver_returns.
Qed.

(* ================================================================== *)
(** * Further properties of [astFromValue] *)
(* ================================================================== *)

Lemma containsSymbol_list_cons (item : value) (rest : list value) :
  containsSymbol (VList (item :: rest))
  = containsSymbol item || containsSymbol (VList rest).
Proof. reflexivity. Qed.

Lemma containsSymbol_object_cons (k : string) (fieldValue : value)
    (rest : list (string * value)) :
  containsSymbol (VObj ((k, fieldValue) :: rest))
  = containsSymbol fieldValue || containsSymbol (VObj rest).
Proof. reflexivity. Qed.

Lemma firstSymbol_list_cons (item : value) (rest : list value) :
  firstSymbol (VList (item :: rest))
  = match firstSymbol item with
    | Some description => Some description
    | None => firstSymbol (VList rest)
    end.
Proof. reflexivity. Qed.

Lemma firstSymbol_object_cons (k : string) (fieldValue : value)
    (rest : list (string * value)) :
  firstSymbol (VObj ((k, fieldValue) :: rest))
  = match firstSymbol fieldValue with
    | Some description => Some description
    | None => firstSymbol (VObj rest)
    end.
Proof. reflexivity. Qed.

Lemma containsSymbol_firstSymbol (v : value) :
  containsSymbol v = bool_decide (is_Some (firstSymbol v)).
Proof.
  induction v as [| | b | n | s | d | items IH | props IH]
    using value_nested_ind; try reflexivity.
  - induction IH as [| item rest Hitem _ IHrest]; [reflexivity |].
    rewrite containsSymbol_list_cons, firstSymbol_list_cons, Hitem, IHrest.
    by destruct (firstSymbol item).
  - induction IH as [| [k fieldValue] rest Hfield _ IHrest]; [reflexivity |].
    rewrite containsSymbol_object_cons, firstSymbol_object_cons.
    cbn [snd] in Hfield. rewrite Hfield, IHrest.
    by destruct (firstSymbol fieldValue).
Qed.

Lemma astFromValue_outcome (v : value) :
  forall type, astOutcome (firstSymbol v) (astFromValue v type).
Proof.
  induction v as [| | b | n | s | d | items IH | props IH]
    using value_nested_ind; intros type.
  - by exists NullValue.
  - by exists NullValue.
  - by exists (BooleanValue b).
  - simpl. destruct (negb (is_finite n)); eauto.
  - simpl. destruct (_ && _); [eauto |]. destruct (_ && _); eauto.
  - reflexivity.
  - rewrite astFromValue_list. generalize (getNamedType <$> type) as nt.
    intros nt.
    assert (astOutcome (firstSymbol (VList items)) (astFromItems nt items))
      as Hitems.
    { induction IH as [| item rest Hitem _ IHrest].
      - by exists [].
      - rewrite firstSymbol_list_cons, astFromItems_cons.
        specialize (Hitem nt). unfold astOutcome in *.
        destruct (firstSymbol item) as [d |].
        + by rewrite Hitem.
        + destruct Hitem as [node ->].
          destruct (firstSymbol (VList rest)) as [d |].
          * by rewrite IHrest.
          * destruct IHrest as [nodes ->]. by eexists. }
    unfold astOutcome in *. destruct (firstSymbol (VList items)) as [d |].
    + by rewrite Hitems.
    + destruct Hitems as [nodes ->]. by eexists.
  - rewrite astFromValue_object. generalize (getNamedType <$> type) as nt.
    intros nt.
    assert (astOutcome (firstSymbol (VObj props)) (astFromProps nt props))
      as Hprops.
    { induction IH as [| [k fieldValue] rest Hfield _ IHrest].
      - by exists [].
      - rewrite firstSymbol_object_cons, astFromProps_cons.
        specialize (Hfield (fieldTypeHint nt k)). unfold astOutcome in *.
        cbn [snd] in Hfield. destruct (firstSymbol fieldValue) as [d |].
        + by rewrite Hfield.
        + destruct Hfield as [node ->].
          destruct (firstSymbol (VObj rest)) as [d |].
          * by rewrite IHrest.
          * destruct IHrest as [nodes ->]. by eexists. }
    unfold astOutcome in *. destruct (firstSymbol (VObj props)) as [d |].
    + by rewrite Hprops.
    + destruct Hprops as [nodes ->]. by eexists.
Qed.

(** X7.  [astFromValue] throws exactly when the value holds, at any
    depth of its arrays and objects, a value that is neither nullish,
    boolean, number, string, array nor object; the error it throws names
    the first such value it meets, array items taken in order and object
    properties in key order.  Otherwise it returns a node: the type hint
    never makes it fail. *)
Theorem astFromValue_throws_iff_unsupported (inputValue : value)
    (type : option GraphQLInputType) :
  (containsSymbol inputValue = true
   <-> exists thrown, astFromValue inputValue type = Throw thrown)
  /\ (containsSymbol inputValue = false
      <-> exists node, astFromValue inputValue type = Return node)
  /\ (forall thrown,
         astFromValue inputValue type = Throw thrown ->
         exists description,
           firstSymbol inputValue = Some description
           /\ thrown = ThrownError
                         ("Cannot convert value to AST: "
                            +:+ inspect (VSymbol description) +:+ "."))
  /\ (forall description,
         firstSymbol inputValue = Some description ->
         astFromValue inputValue type
         = Throw (ThrownError
                    ("Cannot convert value to AST: "
                       +:+ inspect (VSymbol description) +:+ ".")))
  /\ ((exists node, astFromValue inputValue type = Return node)
      <-> exists node, astFromValue inputValue None = Return node).
Proof.
  pose proof (astFromValue_outcome inputValue type) as Ht.
  pose proof (astFromValue_outcome inputValue None) as Hn.
  rewrite containsSymbol_firstSymbol.
  unfold astOutcome in *.
  destruct (firstSymbol inputValue) as [d |].
  - rewrite Ht, Hn. split_and!.
    + split; [eauto | intros _; by apply bool_decide_eq_true].
    + split; [| intros [node [=]]].
      intros Hno. apply bool_decide_eq_false in Hno. by destruct Hno.
    + intros thrown [= <-]. by exists d.
    + by intros d' [= <-].
    + split; intros [node [=]].
  - destruct Ht as [node Ht], Hn as [node' Hn]. rewrite Ht, Hn. split_and!.
    + split; [| intros [thrown [=]]].
      intros Hyes. apply bool_decide_eq_true in Hyes. by destruct Hyes.
    + split; [eauto |]. intros _. apply bool_decide_eq_false. by intros [? ?].
    + intros thrown [=].
    + intros d [=].
    + split; eauto.
Qed.

Lemma nodeHasVariable_list_cons (item : ValueNode) (rest : list ValueNode) :
  nodeHasVariable (ListValue (item :: rest))
  = nodeHasVariable item || nodeHasVariable (ListValue rest).
Proof. reflexivity. Qed.

Lemma nodeHasVariable_object_cons (k : string) (fieldNode : ValueNode)
    (rest : list (string * ValueNode)) :
  nodeHasVariable (ObjectValue ((k, fieldNode) :: rest))
  = nodeHasVariable fieldNode || nodeHasVariable (ObjectValue rest).
Proof. reflexivity. Qed.

(** X8.  The literal [astFromValue] returns is constant: no variable
    reference occurs in it, at any depth. *)
Theorem astFromValue_yields_constant_literal (inputValue : value) :
  forall type node,
    astFromValue inputValue type = Return node ->
    nodeHasVariable node = false.
Proof.
  induction inputValue as [| | b | n | s | d | items IH | props IH]
    using value_nested_ind; intros type node.
  - by intros [= <-].
  - by intros [= <-].
  - by intros [= <-].
  - simpl. destruct (negb (is_finite n)); [by intros [= <-] |].
    destruct (integerStringRegExp_test _); by intros [= <-].
  - simpl. destruct (_ && _); [by intros [= <-] |].
    destruct (_ && _); by intros [= <-].
  - discriminate.
  - rewrite astFromValue_list. generalize (getNamedType <$> type) as nt.
    intros nt.
    destruct (astFromItems nt items) as [nodes |] eqn:Hnodes; [| done].
    intros [= <-]. revert nodes Hnodes.
    induction IH as [| item rest Hitem _ IHrest]; intros nodes.
    + by intros [= <-].
    + rewrite astFromItems_cons.
      destruct (astFromValue item nt) as [itemNode |] eqn:Hi; [| done].
      destruct (astFromItems nt rest) as [restNodes |]; [| done].
      intros [= <-]. rewrite nodeHasVariable_list_cons.
      by rewrite (Hitem _ _ Hi), (IHrest _ eq_refl).
  - rewrite astFromValue_object. generalize (getNamedType <$> type) as nt.
    intros nt.
    destruct (astFromProps nt props) as [nodes |] eqn:Hnodes; [| done].
    intros [= <-]. revert nodes Hnodes.
    induction IH as [| [k fieldValue] rest Hfield _ IHrest]; intros nodes.
    + by intros [= <-].
    + rewrite astFromProps_cons.
      destruct (astFromValue fieldValue (fieldTypeHint nt k))
        as [fieldNode |] eqn:Hf; [| done].
      destruct (astFromProps nt rest) as [restNodes |]; [| done].
      intros [= <-]. rewrite nodeHasVariable_object_cons.
      by rewrite (Hfield _ _ Hf), (IHrest _ eq_refl).
Qed.

Lemma astFromItems_each (nt : option GraphQLInputType) (items : list value) :
  forall nodes,
    astFromItems nt items = Return nodes ->
    Forall2 (fun item node => astFromValue item nt = Return node) items nodes.
Proof.
  induction items as [| item rest IH]; intros nodes.
  - intros [= <-]. constructor.
  - rewrite astFromItems_cons.
    destruct (astFromValue item nt) as [node |] eqn:Hi; [| done].
    destruct (astFromItems nt rest) as [restNodes |]; [| done].
    intros [= <-]. constructor; [done | by apply IH].
Qed.

Lemma astFromProps_each (nt : option GraphQLInputType)
    (props : list (string * value)) :
  forall fields,
    astFromProps nt props = Return fields ->
    Forall2
      (fun prop field =>
         field.1 = prop.1
         /\ astFromValue prop.2 (fieldTypeHint nt prop.1) = Return field.2)
      props fields.
Proof.
  induction props as [| [k fieldValue] rest IH]; intros fields.
  - intros [= <-]. constructor.
  - rewrite astFromProps_cons.
    destruct (astFromValue fieldValue (fieldTypeHint nt k))
      as [node |] eqn:Hf; [| done].
    destruct (astFromProps nt rest) as [restFields |]; [| done].
    intros [= <-]. constructor; [done | by apply IH].
Qed.

(** X9.  [astFromValue] keeps the shape of arrays and objects: an array
    becomes a list literal of the same length whose items are the
    literals of the array's items under the named type of the hint, and
    an object becomes an object literal with the same keys in the same
    order. *)
Theorem astFromValue_keeps_shape (type : option GraphQLInputType)
    (node : ValueNode) :
  (forall items,
      astFromValue (VList items) type = Return node ->
      exists values,
        node = ListValue values
        /\ length values = length items
        /\ Forall2
             (fun item itemNode =>
                astFromValue item (getNamedType <$> type) = Return itemNode)
             items values)
  /\ (forall props,
         astFromValue (VObj props) type = Return node ->
         exists fields,
           node = ObjectValue fields
           /\ map fst fields = map fst props
           /\ Forall2
                (fun prop field =>
                   field.1 = prop.1
                   /\ astFromValue prop.2
                        (fieldTypeHint (getNamedType <$> type) prop.1)
                      = Return field.2)
                props fields).
Proof.
  split.
  - intros items. rewrite astFromValue_list.
    destruct (astFromItems _ items) as [values |] eqn:Hv; [| done].
    intros [= <-]. exists values. apply astFromItems_each in Hv.
    split_and!; [done | | done]. symmetry. by eapply Forall2_length.
  - intros props. rewrite astFromValue_object.
    destruct (astFromProps _ props) as [fields |] eqn:Hf; [| done].
    intros [= <-]. exists fields. apply astFromProps_each in Hf.
    split_and!; [done | | done].
    clear -Hf. induction Hf as [| prop field ? ? [Hk _] _ IH]; [done |].
    simpl. by rewrite Hk, IH.
Qed.

(* ================================================================== *)
(** * Further properties of [coerceInputLiteral] on object literals *)
(* ================================================================== *)

Lemma keyMap_fold_lookup (l : list (string * ValueNode)) :
  forall (m : gmap string ValueNode) (k : string),
    foldl (fun map field => <[field.1 := field.2]> map) m l !! k
    = match lastNode k l with
      | Some n => Some n
      | None => m !! k
      end.
Proof.
  induction l as [| [k' n] rest IH]; intros m k; [done |].
  cbn [foldl lastNode]. rewrite IH.
  destruct (lastNode k rest); [done |]. cbn [fst snd].
  destruct (String.eqb_spec k' k) as [-> | Hne].
  - by rewrite lookup_insert_eq.
  - by rewrite lookup_insert_ne.
Qed.

Lemma keyMap_lookup (fields : list (string * ValueNode)) (k : string) :
  keyMap fields !! k = lastNode k fields.
Proof.
  unfold keyMap. rewrite keyMap_fold_lookup, lookup_empty.
  by destruct (lastNode k fields).
Qed.

Lemma lastNode_app (k : string) (l1 l2 : list (string * ValueNode)) :
  lastNode k (l1 ++ l2)
  = match lastNode k l2 with
    | Some n => Some n
    | None => lastNode k l1
    end.
Proof.
  induction l1 as [| [k' n] rest IH]; simpl.
  - by destruct (lastNode k l2).
  - rewrite IH. by destruct (lastNode k l2).
Qed.

Lemma lastNode_None (k : string) (l : list (string * ValueNode)) :
  k ∉ map fst l -> lastNode k l = None.
Proof.
  induction l as [| [k' n] rest IH]; [done |].
  simpl. rewrite not_elem_of_cons. intros [Hne Hrest].
  rewrite IH by done. destruct (String.eqb_spec k' k); congruence.
Qed.

Lemma lastNode_is_Some (k : string) (l : list (string * ValueNode)) :
  k ∈ map fst l -> is_Some (lastNode k l).
Proof.
  induction l as [| [k' n] rest IH]; simpl.
  - intros Hin. by apply elem_of_nil in Hin.
  - rewrite elem_of_cons. intros [-> | Hin].
    + destruct (lastNode k' rest); [done |]. by rewrite String.eqb_refl.
    + destruct (IH Hin) as [later ->]. done.
Qed.

Lemma lastNode_cons_ne (k k' : string) (n : ValueNode)
    (l : list (string * ValueNode)) :
  k' <> k -> lastNode k ((k', n) :: l) = lastNode k l.
Proof.
  intros Hne. simpl. destruct (lastNode k l); [done |].
  destruct (String.eqb_spec k' k); congruence.
Qed.

Lemma coerceLiteralFields_supplied (km1 km2 : gmap string ValueNode)
    (variables : option (gmap string value))
    (fields : list GraphQLInputField) :
  (forall f, f ∈ fields ->
             suppliedNode km1 variables (field_name f)
             = suppliedNode km2 variables (field_name f)) ->
  forall acc h,
    coerceLiteralFields km1 variables fields acc h
    = coerceLiteralFields km2 variables fields acc h.
Proof.
  induction fields as [| f rest IH]; intros Hsame acc h; [done |].
  assert (forall acc h,
             coerceLiteralFields km1 variables rest acc h
             = coerceLiteralFields km2 variables rest acc h) as IHrest.
  { apply IH. intros g Hg. apply Hsame. by right. }
  specialize (Hsame f (list_elem_of_here _ _)). unfold suppliedNode in Hsame.
  rewrite !coerceLiteralFields_cons. cbv zeta.
  assert (forall h,
             (if negb (isUndefined (field_defaultValue f)) then
                let* coercedDefault := coerceDefaultValue f in
                coerceLiteralFields km1 variables rest
                  (setProperty (field_name f) coercedDefault acc)
              else if isNonNullType (field_type f) then ret VUndefined
              else coerceLiteralFields km1 variables rest acc) h
             = (if negb (isUndefined (field_defaultValue f)) then
                  let* coercedDefault := coerceDefaultValue f in
                  coerceLiteralFields km2 variables rest
                    (setProperty (field_name f) coercedDefault acc)
                else if isNonNullType (field_type f) then ret VUndefined
                else coerceLiteralFields km2 variables rest acc) h)
    as Hdefault.
  { intros h0. destruct (negb (isUndefined (field_defaultValue f))).
    - rewrite !bind_eq. apply IHrest.
    - destruct (isNonNullType (field_type f)); [done | apply IHrest]. }
  destruct (km1 !! field_name f) as [n1 |], (km2 !! field_name f) as [n2 |].
  - destruct (isMissingVariable n1 variables),
      (isMissingVariable n2 variables); cbn [negb];
      try discriminate; try apply Hdefault.
    injection Hsame as ->. rewrite !bind_eq.
    destruct (isUndefined (coerceInputLiteral _ _ _ _).1);
      [done | apply IHrest].
  - destruct (isMissingVariable n1 variables); cbn [negb];
      [apply Hdefault | discriminate].
  - destruct (isMissingVariable n2 variables); cbn [negb];
      [apply Hdefault | discriminate].
  - apply Hdefault.
Qed.

Lemma coerceInputLiteral_object_supplied (fields fields' : list (string * ValueNode))
    (name : string) (fds : list GraphQLInputField)
    (variables : option (gmap string value)) (h : Heap) :
  (forall k, k ∈ fieldNames fds ->
             suppliedNode (keyMap fields) variables k
             = suppliedNode (keyMap fields') variables k) ->
  coerceInputLiteral (ObjectValue fields) (GraphQLInputObjectType name fds)
    variables h
  = coerceInputLiteral (ObjectValue fields') (GraphQLInputObjectType name fds)
      variables h.
Proof.
  intros Hsame. rewrite !coerceInputLiteral_object.
  apply coerceLiteralFields_supplied. intros f Hf. apply Hsame.
  unfold fieldNames. apply list_elem_of_In, in_map, list_elem_of_In, Hf.
Qed.

(** X10.  [coerceInputLiteral] reads an object literal only through the
    field node [keyMap] gives for each declared field name: two literals
    for which [keyMap] gives the same node under every declared name
    coerce alike, store included. *)
Theorem literal_read_through_declared_names
    (name : string) (fieldDefs : list GraphQLInputField)
    (variables : option (gmap string value)) (h : Heap)
    (fields fields' : list (string * ValueNode)) :
  (forall key, key ∈ fieldNames fieldDefs ->
               keyMap fields !! key = keyMap fields' !! key) ->
  coerceInputLiteral (ObjectValue fields)
    (GraphQLInputObjectType name fieldDefs) variables h
  = coerceInputLiteral (ObjectValue fields')
      (GraphQLInputObjectType name fieldDefs) variables h.
Proof.
  intros Hsame. apply coerceInputLiteral_object_supplied.
  intros k Hk. unfold suppliedNode. by rewrite (Hsame k Hk).
Qed.

(** X11.  Where an object literal lists two fields of the same name,
    [keyMap] keeps the later one, so [coerceInputLiteral] ignores the
    earlier one: the literal coerces as it does without it. *)
Theorem literal_later_duplicate_field_wins
    (name : string) (fieldDefs : list GraphQLInputField)
    (variables : option (gmap string value)) (h : Heap)
    (before between after : list (string * ValueNode)) (key : string)
    (earlier later : ValueNode) :
  coerceInputLiteral
    (ObjectValue
       (before ++ (key, earlier) :: between ++ (key, later) :: after))
    (GraphQLInputObjectType name fieldDefs) variables h
  = coerceInputLiteral
      (ObjectValue (before ++ between ++ (key, later) :: after))
      (GraphQLInputObjectType name fieldDefs) variables h.
Proof.
  apply coerceInputLiteral_object_supplied.
  intros k _. unfold suppliedNode. rewrite !keyMap_lookup.
  rewrite !(lastNode_app k before).
  destruct (decide (key = k)) as [-> | Hne].
  - destruct (lastNode_is_Some k (between ++ (k, later) :: after))
      as [n Hn].
    { rewrite map_app, elem_of_app. right. by left. }
    assert (lastNode k ((k, earlier) :: between ++ (k, later) :: after)
            = Some n) as ->; [| by rewrite Hn].
    simpl. simpl in Hn. by rewrite Hn.
  - by rewrite lastNode_cons_ne.
Qed.

(** X12.  [coerceInputLiteral] ignores a field of an object literal that
    the input-object type does not declare: the literal coerces as it
    does without that field. *)
Theorem literal_ignores_undeclared_field
    (name : string) (fieldDefs : list GraphQLInputField)
    (variables : option (gmap string value)) (h : Heap)
    (before after : list (string * ValueNode)) (key : string)
    (fieldNode : ValueNode) :
  key ∉ fieldNames fieldDefs ->
  coerceInputLiteral (ObjectValue (before ++ (key, fieldNode) :: after))
    (GraphQLInputObjectType name fieldDefs) variables h
  = coerceInputLiteral (ObjectValue (before ++ after))
      (GraphQLInputObjectType name fieldDefs) variables h.
Proof.
  intros Hundeclared. apply coerceInputLiteral_object_supplied.
  intros k Hk. unfold suppliedNode. rewrite !keyMap_lookup.
  rewrite !(lastNode_app k before), lastNode_cons_ne; [done |].
  intros ->. done.
Qed.

(** X13.  When the fields of an object literal have distinct names, the
    order in which the literal lists them does not matter. *)
Theorem literal_field_order_is_irrelevant
    (name : string) (fieldDefs : list GraphQLInputField)
    (variables : option (gmap string value)) (h : Heap)
    (fields fields' : list (string * ValueNode)) :
  NoDup (map fst fields) -> fields ≡ₚ fields' ->
  coerceInputLiteral (ObjectValue fields)
    (GraphQLInputObjectType name fieldDefs) variables h
  = coerceInputLiteral (ObjectValue fields')
      (GraphQLInputObjectType name fieldDefs) variables h.
Proof.
  intros Hnodup Hperm. apply coerceInputLiteral_object_supplied.
  intros k _. unfold suppliedNode.
  assert (keyMap fields !! k = keyMap fields' !! k) as ->; [| done].
  assert (map fst fields ≡ₚ map fst fields') as Hkeys
    by by apply Permutation_map.
  assert (NoDup (map fst fields')) as Hnodup' by by rewrite <- Hkeys.
  unfold keyMap. destruct (decide (k ∈ map fst fields)) as [Hin | Hout].
  - apply list_elem_of_In, in_map_iff in Hin as ([k' n] & <- & Hin).
    apply list_elem_of_In in Hin. cbn [fst].
    rewrite (keyMap_fold_present fields _ k' n) by done.
    rewrite (keyMap_fold_present fields' _ k' n); [done.. |].
    by rewrite <- Hperm.
  - rewrite keyMap_fold_absent by done.
    rewrite keyMap_fold_absent; [done |].
    by rewrite <- Hkeys.
Qed.

(** X14.  A field whose value is a missing variable counts as a field
    the object literal does not list: where no earlier field of the
    literal has the same name, the literal coerces as it does without
    that field, so the default of the field applies, or the literal is
    invalid for a required field. *)
Theorem literal_field_of_missing_variable_is_absent
    (name : string) (fieldDefs : list GraphQLInputField)
    (variables : option (gmap string value)) (h : Heap)
    (before after : list (string * ValueNode)) (key : string)
    (fieldNode : ValueNode) :
  isMissingVariable fieldNode variables = true ->
  key ∉ map fst before ->
  coerceInputLiteral (ObjectValue (before ++ (key, fieldNode) :: after))
    (GraphQLInputObjectType name fieldDefs) variables h
  = coerceInputLiteral (ObjectValue (before ++ after))
      (GraphQLInputObjectType name fieldDefs) variables h.
Proof.
  intros Hmissing Hfresh. apply coerceInputLiteral_object_supplied.
  intros k _. unfold suppliedNode. rewrite !keyMap_lookup.
  rewrite !(lastNode_app k before).
  destruct (decide (key = k)) as [-> | Hne].
  - simpl. destruct (lastNode k after) as [later |]; [done |].
    rewrite String.eqb_refl, Hmissing. by rewrite lastNode_None.
  - by rewrite lastNode_cons_ne.
Qed.

(* ================================================================== *)
(** * Further properties of list coercion *)
(* ================================================================== *)

Lemma coerceInputLiteral_missing (node : ValueNode) (t : GraphQLInputType)
    (variables : option (gmap string value)) (h : Heap) :
  isMissingVariable node variables = true ->
  coerceInputLiteral node t variables h = (VUndefined, h).
Proof.
  destruct node; try discriminate. intros Hmissing.
  rewrite coerceInputLiteral_variable.
  destruct variables as [vars |]; [| done]. by rewrite Hmissing.
Qed.

Lemma coerceItemNodes_missing_as_null (t : GraphQLInputType)
    (variables : option (gmap string value)) (itemNode : ValueNode)
    (before after : list ValueNode) :
  isMissingVariable itemNode variables = true ->
  forall acc h,
    coerceItemNodes (fun node => coerceInputLiteral node t variables)
      (isNonNullType t) variables (before ++ itemNode :: after) acc h
    = coerceItemNodes (fun node => coerceInputLiteral node t variables)
        (isNonNullType t) variables (before ++ NullValue :: after) acc h.
Proof.
  intros Hmissing. induction before as [| node rest IH]; intros acc h.
  - cbn [app coerceItemNodes]. rewrite !bind_eq.
    rewrite coerceInputLiteral_missing by done.
    rewrite coerceInputLiteral_null, Hmissing.
    by destruct (isNonNullType t).
  - cbn [app coerceItemNodes]. rewrite !bind_eq.
    destruct (isUndefined _); [| apply IH].
    destruct (_ && _); [apply IH | done].
Qed.

(** X15.  Inside a list literal a missing variable behaves exactly like
    the literal [null]: the item becomes [null] where the item type is
    nullable, and the whole list is invalid where it is non-null. *)
Theorem list_item_of_missing_variable_is_null (itemType : GraphQLInputType)
    (variables : option (gmap string value)) (itemNode : ValueNode)
    (before after : list ValueNode) (h : Heap) :
  isMissingVariable itemNode variables = true ->
  coerceInputLiteral (ListValue (before ++ itemNode :: after))
    (GraphQLList itemType) variables h
  = coerceInputLiteral (ListValue (before ++ NullValue :: after))
      (GraphQLList itemType) variables h
  /\ (isNonNullType itemType = true ->
      coerceInputLiteral (ListValue (before ++ itemNode :: after))
        (GraphQLList itemType) variables h
      = (VUndefined,
         (coerceInputLiteral (ListValue (before ++ itemNode :: after))
            (GraphQLList itemType) variables h).2)).
Proof.
  intros Hmissing. split.
  - cbn [coerceInputLiteral isNullNode].
    by apply coerceItemNodes_missing_as_null.
  - intros Hnonnull. cbn [coerceInputLiteral isNullNode]. rewrite Hnonnull.
    generalize (@nil value) as acc. revert h.
    induction before as [| node rest IH]; intros h acc.
    + cbn [app coerceItemNodes]. rewrite !bind_eq.
      rewrite coerceInputLiteral_missing by done.
      by rewrite Hmissing.
    + cbn [app coerceItemNodes]. rewrite !bind_eq.
      destruct (isUndefined _); [| apply IH].
      by destruct (_ && _).
Qed.

Lemma coerceItems_result (coerceItem : value -> nat -> M value)
    (items : list value) :
  forall index acc h,
    (coerceItems coerceItem items index acc h).1 = VUndefined
    \/ exists cs,
        (coerceItems coerceItem items index acc h).1 = VList (acc ++ cs)
        /\ length cs = length items
        /\ Forall (fun c => c <> VUndefined) cs
        /\ forall i item,
            items !! i = Some item ->
            exists h0, cs !! i = Some (coerceItem item (index + i) h0).1.
Proof.
  induction items as [| item rest IH]; intros index acc h.
  - right. exists []. simpl. rewrite app_nil_r. split_and!; try done.
  - simpl. rewrite bind_eq.
    destruct (isUndefined (coerceItem item index h).1) eqn:Hu; [by left |].
    destruct (IH (S index) (acc ++ [(coerceItem item index h).1])
                (coerceItem item index h).2)
      as [Hfail | (cs & Hres & Hlen & Hdef & Hitems)]; [by left |].
    right. exists ((coerceItem item index h).1 :: cs).
    rewrite Hres, <- app_assoc. split_and!.
    + done.
    + simpl. by rewrite Hlen.
    + constructor; [| done]. intros Heq. by rewrite Heq in Hu.
    + intros [| i] it Hi.
      * injection Hi as <-. exists h. by rewrite Nat.add_0_r.
      * destruct (Hitems i it Hi) as [h0 Hh0]. exists h0.
        by replace (index + S i) with (S index + i) by lia.
Qed.

Lemma coerceItemNodes_result (coerceItem : ValueNode -> M value)
    (nonNull : bool) (variables : option (gmap string value))
    (values : list ValueNode) :
  (forall node h,
      isMissingVariable node variables = true ->
      (coerceItem node h).1 = VUndefined) ->
  forall acc h,
    (coerceItemNodes coerceItem nonNull variables values acc h).1 = VUndefined
    \/ exists cs,
        (coerceItemNodes coerceItem nonNull variables values acc h).1
        = VList (acc ++ cs)
        /\ length cs = length values
        /\ Forall (fun c => c <> VUndefined) cs
        /\ forall i node,
            values !! i = Some node ->
            exists h0,
              cs !! i
              = Some (if isMissingVariable node variables then VNull
                      else (coerceItem node h0).1).
Proof.
  intros Hmissing. induction values as [| node rest IH]; intros acc h.
  - right. exists []. simpl. rewrite app_nil_r. split_and!; try done.
  - simpl. rewrite bind_eq.
    destruct (isUndefined (coerceItem node h).1) eqn:Hu.
    + destruct (isMissingVariable node variables) eqn:Hm; [| by left].
      destruct nonNull; [by left |]. cbn [negb andb].
      destruct (IH (acc ++ [VNull]) (coerceItem node h).2)
        as [Hfail | (cs & Hres & Hlen & Hdef & Hitems)]; [by left |].
      right. exists (VNull :: cs). rewrite Hres, <- app_assoc.
      split_and!; [done | by simpl; rewrite Hlen | by constructor |].
      intros [| i] it Hi.
      * injection Hi as <-. exists h. by rewrite Hm.
      * apply (Hitems i it Hi).
    + destruct (IH (acc ++ [(coerceItem node h).1]) (coerceItem node h).2)
        as [Hfail | (cs & Hres & Hlen & Hdef & Hitems)]; [by left |].
      right. exists ((coerceItem node h).1 :: cs).
      rewrite Hres, <- app_assoc. split_and!.
      * done.
      * simpl. by rewrite Hlen.
      * constructor; [| done]. intros Heq. by rewrite Heq in Hu.
      * intros [| i] it Hi; [| apply (Hitems i it Hi)].
        injection Hi as <-. exists h.
        destruct (isMissingVariable node variables) eqn:Hm; [| done].
        by rewrite (Hmissing _ _ Hm) in Hu.
Qed.

(** X16.  A list type turns an array, and a list literal, into an array
    of the same length, item by item and in order: no item of the result
    is [undefined], the item at each index is the coercion of the input
    item at that index, and in a literal a missing variable gives
    [null]. *)
Theorem list_coercion_keeps_length (itemType : GraphQLInputType) :
  (forall items path h result,
      (coerceInputValueImpl (VList items) (GraphQLList itemType) path h).1
      = result ->
      result <> VUndefined ->
      exists coercedValue,
        result = VList coercedValue
        /\ length coercedValue = length items
        /\ Forall (fun c => c <> VUndefined) coercedValue
        /\ forall index itemValue,
            items !! index = Some itemValue ->
            exists h0,
              coercedValue !! index
              = Some (coerceInputValueImpl itemValue itemType
                        (addPath path (KeyIndex index) None) h0).1)
  /\ (forall values variables h result,
         (coerceInputLiteral (ListValue values) (GraphQLList itemType)
            variables h).1 = result ->
         result <> VUndefined ->
         exists coercedValue,
           result = VList coercedValue
           /\ length coercedValue = length values
           /\ Forall (fun c => c <> VUndefined) coercedValue
           /\ forall index itemNode,
               values !! index = Some itemNode ->
               exists h0,
                 coercedValue !! index
                 = Some (if isMissingVariable itemNode variables then VNull
                         else (coerceInputLiteral itemNode itemType
                                 variables h0).1)).
Proof.
  split.
  - intros items path h result. cbn [coerceInputValueImpl isNullish].
    destruct (coerceItems_result
                (fun itemValue index =>
                   coerceInputValueImpl itemValue itemType
                     (addPath path (KeyIndex index) None)) items 0 [] h)
      as [-> | (cs & -> & Hlen & Hdef & Hitems)].
    + by intros <-.
    + intros <- _. exists cs. split_and!; done.
  - intros values variables h result. cbn [coerceInputLiteral isNullNode].
    destruct (coerceItemNodes_result
                (fun itemNode => coerceInputLiteral itemNode itemType variables)
                (isNonNullType itemType) variables values) with (acc := @nil value) (h := h)
      as [-> | (cs & -> & Hlen & Hdef & Hitems)].
    + intros node h0 Hm. by rewrite coerceInputLiteral_missing.
    + by intros <-.
    + intros <- _. exists cs. split_and!; done.
Qed.

(* ================================================================== *)
(** * Further properties of the store *)
(* ================================================================== *)

Lemma memoWithin_refl (A : list positive) (h : Heap) : memoWithin A h h.
Proof. by intros a _. Qed.

Lemma memoWithin_trans (A : list positive) (h1 h2 h3 : Heap) :
  memoWithin A h1 h2 -> memoWithin A h2 h3 -> memoWithin A h1 h3.
Proof. intros H12 H23 a Ha. by rewrite H23, H12. Qed.

Lemma memoWithin_mono (A B : list positive) (h h' : Heap) :
  A ⊆ B -> memoWithin A h h' -> memoWithin B h h'.
Proof. intros Hsub Hw a Ha. apply Hw. intros Hin. by apply Ha, Hsub. Qed.

Lemma coerceDefaultValueWith_memo (A : list positive) (compute : M value)
    (addr : positive) :
  addr ∈ A ->
  (forall h, memoWithin A h (compute h).2) ->
  forall h, memoWithin A h (coerceDefaultValueWith compute addr h).2.
Proof.
  intros Haddr Hcompute h. unfold coerceDefaultValueWith.
  destruct (isUndefined (readMemo addr h)); [| apply memoWithin_refl].
  specialize (Hcompute (noteRecompute addr h)).
  destruct (compute (noteRecompute addr h)) as [c h']. simpl in *.
  intros a Ha. simpl. rewrite lookup_insert_ne.
  - by rewrite Hcompute.
  - intros ->. done.
Qed.

Lemma coerceItems_memo (A : list positive)
    (coerceItem : value -> nat -> M value) :
  (forall v i h, memoWithin A h (coerceItem v i h).2) ->
  forall items index acc h,
    memoWithin A h (coerceItems coerceItem items index acc h).2.
Proof.
  intros Hitem items. induction items as [| item rest IH];
    intros index acc h; simpl.
  - apply memoWithin_refl.
  - rewrite bind_eq. destruct (isUndefined _); [apply Hitem |].
    eapply memoWithin_trans; [apply Hitem | apply IH].
Qed.

Lemma fieldsAddrs_cons_sub (A : list positive) (f : GraphQLInputField)
    (rest : list GraphQLInputField) :
  fieldsAddrs (f :: rest) ⊆ A ->
  field_addr f ∈ A /\ typeAddrs (field_type f) ⊆ A /\ fieldsAddrs rest ⊆ A.
Proof.
  intros Hsub. split_and!.
  - apply Hsub. unfold fieldsAddrs. simpl. left.
  - intros x Hx. apply Hsub. unfold fieldsAddrs. simpl.
    right. apply elem_of_app. by left.
  - intros x Hx. apply Hsub. unfold fieldsAddrs. simpl.
    right. apply elem_of_app. by right.
Qed.

Lemma coerceFields_memo (A : list positive) (name : string)
    (fds : list GraphQLInputField) (v : value) (p : option Path)
    (fields : list GraphQLInputField) :
  Forall (fun f => forall v p h,
              memoWithin (typeAddrs (field_type f)) h
                (coerceInputValueImpl v (field_type f) p h).2) fields ->
  fieldsAddrs fields ⊆ A ->
  forall acc h, memoWithin A h (coerceFields name fds v p fields acc h).2.
Proof.
  induction 1 as [| f rest Hf _ IH]; intros Hsub acc h.
  - apply memoWithin_refl.
  - apply fieldsAddrs_cons_sub in Hsub as (Haddr & Htype & Hrest).
    rewrite coerceFields_cons. cbv zeta.
    destruct (negb (isUndefined (getProperty v (field_name f)))).
    + rewrite bind_eq.
      destruct (isUndefined _).
      * eapply memoWithin_mono; [exact Htype | apply Hf].
      * eapply memoWithin_trans; [| by apply IH].
        eapply memoWithin_mono; [exact Htype | apply Hf].
    + destruct (negb (isUndefined (field_defaultValue f))).
      * rewrite bind_eq. eapply memoWithin_trans; [| by apply IH].
        unfold coerceDefaultValue.
        apply coerceDefaultValueWith_memo; [done |].
        intros h0. eapply memoWithin_mono; [exact Htype | apply Hf].
      * destruct (isNonNullType (field_type f));
          [apply memoWithin_refl | by apply IH].
Qed.

Lemma coerceInputValueImpl_memo (t : GraphQLInputType) :
  forall v p h, memoWithin (typeAddrs t) h (coerceInputValueImpl v t p h).2.
Proof.
  induction t as [t IH | t IH | name fds IH | name pv pl | name pv pl]
    using GraphQLInputType_nested_ind; intros v p h.
  - simpl. destruct (isNullish v); [apply memoWithin_refl | apply IH].
  - simpl. destruct (isNullish v); [apply memoWithin_refl |].
    destruct v; try (rewrite bind_eq; apply IH).
    apply coerceItems_memo. intros. apply IH.
  - rewrite coerceInputValueImpl_object, typeAddrs_object.
    destruct (isNullish v); [apply memoWithin_refl |].
    destruct (negb (isObjectLike v)); [apply memoWithin_refl |].
    by apply coerceFields_memo.
  - simpl. destruct (isNullish v); [apply memoWithin_refl |].
    destruct (pv v); apply memoWithin_refl.
  - simpl. destruct (isNullish v); [apply memoWithin_refl |].
    destruct (pv v); apply memoWithin_refl.
Qed.

Lemma coerceItemNodes_memo (A : list positive)
    (coerceItem : ValueNode -> M value) (nonNull : bool)
    (variables : option (gmap string value)) :
  (forall node h, memoWithin A h (coerceItem node h).2) ->
  forall values acc h,
    memoWithin A h
      (coerceItemNodes coerceItem nonNull variables values acc h).2.
Proof.
  intros Hitem values. induction values as [| node rest IH];
    intros acc h; simpl.
  - apply memoWithin_refl.
  - rewrite bind_eq. destruct (isUndefined _).
    + destruct (_ && _); [| apply Hitem].
      eapply memoWithin_trans; [apply Hitem | apply IH].
    + eapply memoWithin_trans; [apply Hitem | apply IH].
Qed.

Lemma coerceLiteralFields_memo (A : list positive)
    (fieldNodes : gmap string ValueNode)
    (variables : option (gmap string value))
    (fields : list GraphQLInputField) :
  Forall (fun f => forall node vars h,
              memoWithin (typeAddrs (field_type f)) h
                (coerceInputLiteral node (field_type f) vars h).2) fields ->
  fieldsAddrs fields ⊆ A ->
  forall acc h,
    memoWithin A h (coerceLiteralFields fieldNodes variables fields acc h).2.
Proof.
  induction 1 as [| f rest Hf _ IH]; intros Hsub acc h.
  - apply memoWithin_refl.
  - apply fieldsAddrs_cons_sub in Hsub as (Haddr & Htype & Hrest).
    rewrite coerceLiteralFields_cons. cbv zeta.
    assert (forall h,
               memoWithin A h
                 ((if negb (isUndefined (field_defaultValue f)) then
                     let* coercedDefault := coerceDefaultValue f in
                     coerceLiteralFields fieldNodes variables rest
                       (setProperty (field_name f) coercedDefault acc)
                   else if isNonNullType (field_type f) then ret VUndefined
                   else coerceLiteralFields fieldNodes variables rest acc) h).2)
      as Hdefault.
    { intros h0. destruct (negb (isUndefined (field_defaultValue f))).
      - rewrite bind_eq. eapply memoWithin_trans; [| by apply IH].
        unfold coerceDefaultValue.
        apply coerceDefaultValueWith_memo; [done |].
        intros h1. eapply memoWithin_mono; [exact Htype |].
        apply coerceInputValueImpl_memo.
      - destruct (isNonNullType (field_type f));
          [apply memoWithin_refl | by apply IH]. }
    destruct (fieldNodes !! field_name f) as [fieldNode |];
      [| apply Hdefault].
    destruct (negb (isMissingVariable fieldNode variables));
      [| apply Hdefault].
    rewrite bind_eq.
    destruct (isUndefined (coerceInputLiteral _ _ _ _).1).
    + eapply memoWithin_mono; [exact Htype | apply Hf].
    + eapply memoWithin_trans; [| by apply IH].
      eapply memoWithin_mono; [exact Htype | apply Hf].
Qed.

Lemma coerceInputLiteral_memo (t : GraphQLInputType) :
  forall node variables h,
    memoWithin (typeAddrs t) h (coerceInputLiteral node t variables h).2.
Proof.
  induction t as [t IH | t IH | name fds IH | name pv pl | name pv pl]
    using GraphQLInputType_nested_ind; intros node variables h.
  - destruct (isVariableNode node) eqn:Hv.
    { destruct node; try discriminate. rewrite coerceInputLiteral_variable.
      destruct variables; [| apply memoWithin_refl].
      destruct (isMissingVariable _ _); [apply memoWithin_refl |].
      cbv zeta. destruct (_ && _); apply memoWithin_refl. }
    destruct (isNullNode node) eqn:Hn.
    { destruct node; try discriminate. apply memoWithin_refl. }
    rewrite coerceInputLiteral_nonNull by done. apply IH.
  - destruct (isVariableNode node) eqn:Hv.
    { destruct node; try discriminate. rewrite coerceInputLiteral_variable.
      destruct variables; [| apply memoWithin_refl].
      destruct (isMissingVariable _ _); [apply memoWithin_refl |].
      cbv zeta. destruct (_ && _); apply memoWithin_refl. }
    destruct (isNullNode node) eqn:Hn.
    { destruct node; try discriminate. apply memoWithin_refl. }
    destruct (isListNode node) eqn:Hl.
    + destruct node; try discriminate. cbn [coerceInputLiteral isNullNode].
      apply coerceItemNodes_memo. intros. apply IH.
    + rewrite coerceInputLiteral_list_single by done. apply IH.
  - destruct node;
      try (cbn [coerceInputLiteral isNullNode]; apply memoWithin_refl).
    + rewrite coerceInputLiteral_variable.
      destruct variables; [| apply memoWithin_refl].
      destruct (isMissingVariable _ _); [apply memoWithin_refl |].
      cbv zeta. destruct (_ && _); apply memoWithin_refl.
    + rewrite coerceInputLiteral_object, typeAddrs_object.
      by apply coerceLiteralFields_memo.
  - destruct node; simpl;
      try (destruct (pl _ _); apply memoWithin_refl);
      try apply memoWithin_refl.
    destruct variables; [| apply memoWithin_refl].
    destruct (isUndefined _); [apply memoWithin_refl |].
    destruct (_ && _); apply memoWithin_refl.
  - destruct node; simpl;
      try (destruct (pl _ _); apply memoWithin_refl);
      try apply memoWithin_refl.
    destruct variables; [| apply memoWithin_refl].
    destruct (isUndefined _); [apply memoWithin_refl |].
    destruct (_ && _); apply memoWithin_refl.
Qed.

(** X17.  Coercing a value or a literal against a type changes the
    hidden field of the field descriptors inside that type only: the
    hidden field of every other descriptor keeps its content.  A type
    with no field descriptor inside leaves the store as it is. *)
Theorem coercion_writes_inside_the_type_only (type : GraphQLInputType) :
  (forall addr inputValue path h,
      addr ∉ typeAddrs type ->
      readMemo addr (coerceInputValueImpl inputValue type path h).2
      = readMemo addr h)
  /\ (forall addr valueNode variables h,
         addr ∉ typeAddrs type ->
         readMemo addr (coerceInputLiteral valueNode type variables h).2
         = readMemo addr h)
  /\ (forall inputValue path h,
         typeAddrs type = [] ->
         (coerceInputValueImpl inputValue type path h).2 = h).
Proof.
  split_and!.
  - intros addr v p h Hout. unfold readMemo.
    by rewrite (coerceInputValueImpl_memo type v p h addr Hout).
  - intros addr node vars h Hout. unfold readMemo.
    by rewrite (coerceInputLiteral_memo type node vars h addr Hout).
  - intros v p h Hnone.
    pose proof (coerceInputValueImpl_memo type v p h) as Hmemo.
    pose proof (coerceInputValueImpl_logs type v p h) as (evs & Hev & Hall).
    rewrite Hnone in Hmemo, Hall.
    destruct (coerceInputValueImpl v type p h).2 as [m' e'], h as [m e].
    simpl in *. f_equal.
    + apply map_eq. intros a. apply Hmemo. apply not_elem_of_nil.
    + destruct evs as [| ev evs]; [by rewrite app_nil_r in Hev |].
      apply Forall_cons_1 in Hall as [Hin _]. by apply elem_of_nil in Hin.
Qed.

(* ================================================================== *)
(** * Null at a nullable type *)
(* ================================================================== *)

(** X18.  Every type that is not non-null accepts [null] and [undefined]:
    value coercion turns both into [null] without touching the store or
    calling the callback, validation reports nothing, the literal [null]
    coerces to [null], and [astFromValue] writes both as the literal
    [null]. *)
Theorem nullable_type_accepts_null (type : GraphQLInputType)
    (inputValue : value) :
  isNonNullType type = false -> isNullish inputValue = true ->
  (forall path h, coerceInputValueImpl inputValue type path h = (VNull, h))
  /\ (forall path, reportsOf inputValue type path = [])
  /\ (forall St (onError : OnErrorCB St) h s,
         coerceInputValue inputValue type onError h s = Return (VNull, h, s))
  /\ (forall variables h,
         coerceInputLiteral NullValue type variables h = (VNull, h))
  /\ (forall hint, astFromValue inputValue hint = Return NullValue).
Proof.
  intros Hnullable Hnullish.
  assert (forall path h,
             coerceInputValueImpl inputValue type path h = (VNull, h))
    as Hcoerce.
  { intros path h. destruct type; try discriminate; simpl;
      by rewrite Hnullish. }
  split_and!.
  - done.
  - intros path. by apply reportsOf_nullish.
  - intros St onError h s. unfold coerceInputValue. by rewrite Hcoerce.
  - intros variables h. by rewrite coerceInputLiteral_null, Hnullable.
  - intros hint. by destruct inputValue.
Qed.

(* ================================================================== *)
(** * Validation of arrays *)
(* ================================================================== *)

Lemma itemsReports_imap (t : GraphQLInputType) (p : option Path)
    (items : list value) :
  forall index,
    itemsReports t p items index
    = concat (imap (fun i itemValue =>
                      reportsOf itemValue t
                        (addPath p (KeyIndex (index + i)) None)) items).
Proof.
  induction items as [| item rest IH]; intros index; [done |].
  cbn [itemsReports imap concat]. rewrite Nat.add_0_r, IH.
  do 2 f_equal. apply imap_ext. intros i x _. simpl.
  by replace (index + S i) with (S index + i) by lia.
Qed.

Lemma itemsReports_intro (t : GraphQLInputType) (p : option Path)
    (items : list value) :
  forall index i itemValue r,
    items !! i = Some itemValue ->
    r ∈ reportsOf itemValue t (addPath p (KeyIndex (index + i)) None) ->
    r ∈ itemsReports t p items index.
Proof.
  induction items as [| item rest IH]; intros index i itemValue r; [done |].
  simpl. rewrite elem_of_app. destruct i as [| i]; simpl.
  - intros [= ->]. rewrite Nat.add_0_r. by left.
  - intros Hi Hr. right. apply (IH (S index) i itemValue); [done |].
    by replace (S index + i) with (index + S i) by lia.
Qed.

(** X19.  Validation of an array against a list type does not stop at
    the first invalid item: its reports are the reports of every item,
    each validated under the path extended by its index, in item
    order. *)
Theorem list_validation_reports_every_item (items : list value)
    (itemType : GraphQLInputType) (path : option Path) :
  reportsOf (VList items) (GraphQLList itemType) path
  = concat (imap (fun index itemValue =>
                    reportsOf itemValue itemType
                      (addPath path (KeyIndex index) None)) items)
  /\ (forall index itemValue report,
         items !! index = Some itemValue ->
         report ∈ reportsOf itemValue itemType
                    (addPath path (KeyIndex index) None) ->
         report ∈ reportsOf (VList items) (GraphQLList itemType) path)
  /\ (forall St (onError : OnErrorCB St) s,
         validateInputValueImpl (VList items) (GraphQLList itemType)
           onError path s
         = deliver onError
             (concat (imap (fun index itemValue =>
                              reportsOf itemValue itemType
                                (addPath path (KeyIndex index) None)) items))
             s).
Proof.
  assert (reportsOf (VList items) (GraphQLList itemType) path
          = concat (imap (fun index itemValue =>
                            reportsOf itemValue itemType
                              (addPath path (KeyIndex index) None)) items))
    as Heq.
  { by rewrite reportsOf_list_items, itemsReports_imap. }
  split_and!.
  - done.
  - intros index itemValue report Hi Hr. rewrite reportsOf_list_items.
    by apply (itemsReports_intro _ _ _ 0 index itemValue).
  - intros St onError s. by rewrite validate_delivers, Heq.
Qed.

(* ================================================================== *)
(** * The syntax of the literals [astFromValue] writes *)
(* ================================================================== *)

Lemma literalSyntaxOk_list_cons (item : ValueNode) (rest : list ValueNode) :
  literalSyntaxOk (ListValue (item :: rest))
  = literalSyntaxOk item && literalSyntaxOk (ListValue rest).
Proof. reflexivity. Qed.

Lemma literalSyntaxOk_object_cons (k : string) (fieldNode : ValueNode)
    (rest : list (string * ValueNode)) :
  literalSyntaxOk (ObjectValue ((k, fieldNode) :: rest))
  = literalSyntaxOk fieldNode && literalSyntaxOk (ObjectValue rest).
Proof. reflexivity. Qed.

(** X20.  Every Int literal [astFromValue] writes, at any depth, has the
    syntax of an integer (an optional minus sign, then 0 or a non-zero
    digit followed by digits), and every Enum literal it writes has the
    syntax of a name. *)
Theorem astFromValue_writes_well_formed_literals (inputValue : value) :
  forall type node,
    astFromValue inputValue type = Return node ->
    literalSyntaxOk node = true.
Proof.
  induction inputValue as [| | b | n | s | d | items IH | props IH]
    using value_nested_ind; intros type node.
  - by intros [= <-].
  - by intros [= <-].
  - by intros [= <-].
  - simpl. destruct (negb (is_finite n)); [by intros [= <-] |].
    destruct (integerStringRegExp_test _) eqn:Hint; by intros [= <-].
  - simpl. destruct (from_option isEnumType false _); cbn [andb].
    + destruct (nameRegExp_test s) eqn:Hname; [by intros [= <-] |].
      destruct (from_option isGraphQLID false _); cbn [andb];
        [| by intros [= <-]].
      destruct (integerStringRegExp_test s) eqn:Hint; by intros [= <-].
    + destruct (from_option isGraphQLID false _); cbn [andb];
        [| by intros [= <-]].
      destruct (integerStringRegExp_test s) eqn:Hint; by intros [= <-].
  - discriminate.
  - rewrite astFromValue_list. generalize (getNamedType <$> type) as nt.
    intros nt.
    destruct (astFromItems nt items) as [nodes |] eqn:Hnodes; [| done].
    intros [= <-]. revert nodes Hnodes.
    induction IH as [| item rest Hitem _ IHrest]; intros nodes.
    + by intros [= <-].
    + rewrite astFromItems_cons.
      destruct (astFromValue item nt) as [itemNode |] eqn:Hi; [| done].
      destruct (astFromItems nt rest) as [restNodes |]; [| done].
      intros [= <-]. rewrite literalSyntaxOk_list_cons.
      by rewrite (Hitem _ _ Hi), (IHrest _ eq_refl).
  - rewrite astFromValue_object. generalize (getNamedType <$> type) as nt.
    intros nt.
    destruct (astFromProps nt props) as [nodes |] eqn:Hnodes; [| done].
    intros [= <-]. revert nodes Hnodes.
    induction IH as [| [k fieldValue] rest Hfield _ IHrest]; intros nodes.
    + by intros [= <-].
    + rewrite astFromProps_cons.
      destruct (astFromValue fieldValue (fieldTypeHint nt k))
        as [fieldNode |] eqn:Hf; [| done].
      destruct (astFromProps nt rest) as [restNodes |]; [| done].
      intros [= <-]. rewrite literalSyntaxOk_object_cons.
      by rewrite (Hfield _ _ Hf), (IHrest _ eq_refl).
Qed.

(* ================================================================== *)
(** * The contents of a coerced object *)
(* ================================================================== *)







(* ================================================================== *)
(** * Defaults whose coercion fails *)
(* ================================================================== *)

(** X23.  A default whose coercion fails is never memoized: whenever
    [coerceDefaultValue] returns [undefined], the hidden field held
    nothing before the call, the call coerced the raw default again, and
    the hidden field holds nothing after it, so the next call coerces
    the raw default once more. *)
Theorem failed_default_is_recomputed (f : GraphQLInputField) (h : Heap) :
  (coerceDefaultValue f h).1 = VUndefined ->
  readMemo (field_addr f) h = VUndefined
  /\ readMemo (field_addr f) (coerceDefaultValue f h).2 = VUndefined
  /\ 1 <= countRecomputed (field_addr f)
            (loggedSince h (coerceDefaultValue f h).2).
Proof.
  unfold coerceDefaultValue.
  destruct (isUndefined (readMemo (field_addr f) h)) eqn:Hmemo.
  - apply isUndefined_true in Hmemo.
    rewrite coerceDefaultValueWith_fresh by done. cbn [fst snd].
    intros Hfail. split_and!; [done | |].
    + rewrite Hfail. apply readMemo_writeMemo_eq.
    + pose proof (coerceInputValueImpl_logs (field_type f)
                    (field_defaultValue f) None
                    (noteRecompute (field_addr f) h)) as (evs & Hev & _).
      unfold loggedSince, writeMemo. cbn [events]. rewrite Hev.
      cbn [noteRecompute events]. rewrite <- !app_assoc, drop_app_length.
      cbn [app countRecomputed]. rewrite Pos.eqb_refl. lia.
  - rewrite coerceDefaultValueWith_cached.
    + cbn [fst]. intros Hfail. by rewrite Hfail in Hmemo.
    + intros Heq. by rewrite Heq in Hmemo.
Qed.

End Properties.

(* ================================================================== *)
(** * Concrete instances *)
(* ================================================================== *)

#[local] Existing Instance Sample.jsutils.

(** C9, as stated, fails for a default that does not coerce: the field
    [name: String = true] has a default, yet each call of
    [coerceDefaultValue] coerces it again and assigns the hidden field
    again, so two calls leave two recomputations and two assignments in
    the log. *)
Lemma invalid_default_recomputed :
  let first := coerceDefaultValue Sample.badField emptyHeap in
  let second := coerceDefaultValue Sample.badField first.2 in
  field_defaultValue Sample.badField <> VUndefined
  /\ first.1 = VUndefined
  /\ second.1 = VUndefined
  /\ loggedSince first.2 second.2 = [Recomputed 6; Written 6 VUndefined]
  /\ countWritten 6 (events second.2) = 2
  /\ countRecomputed 6 (events second.2) = 2.
Proof. split_and!; [discriminate | reflexivity..]. Qed.

(** C2, as stated, fails in several ways, each on a value that
    validation accepts without a report.  The string ["FOO"] against
    [[String]]: its literal is a string literal, which coerces back to the
    array [["FOO"]].  The object [{loud: true}] against [Greeting]: its
    literal coerces back to an object that also holds the default of
    [text].  The number 3 against [ID], and the name ["COMPLEX"] against
    [MyEnum]: the leaf reads the literal back as the string ["3"], and as
    the internal value of [COMPLEX].  The object [{loud: true, text: "hi"}]
    against [Greeting]: it comes back with its keys in declaration
    order. *)
Lemma valid_value_does_not_roundtrip :
  (reportsOf (VStr "FOO") (GraphQLList Sample.String_) None = []
   /\ (coerceInputValueImpl (VStr "FOO") (GraphQLList Sample.String_) None
         emptyHeap).1 = VList [VStr "FOO"]
   /\ astFromValue (VStr "FOO") (Some (GraphQLList Sample.String_))
      = Return (StringValue "FOO")
   /\ (coerceInputLiteral (StringValue "FOO") (GraphQLList Sample.String_)
         None emptyHeap).1 = VList [VStr "FOO"]
   /\ VList [VStr "FOO"] <> VStr "FOO")
  /\ (reportsOf (VObj [("loud", VBool true)]) Sample.Greeting None = []
      /\ astFromValue (VObj [("loud", VBool true)]) (Some Sample.Greeting)
         = Return (ObjectValue [("loud", BooleanValue true)])
      /\ (coerceInputLiteral (ObjectValue [("loud", BooleanValue true)])
            Sample.Greeting None emptyHeap).1
         = VObj [("text", VStr "hello"); ("loud", VBool true)]
      /\ VObj [("text", VStr "hello"); ("loud", VBool true)]
         <> VObj [("loud", VBool true)])
  /\ (reportsOf (VNum Sample.three) Sample.ID_ None = []
      /\ astFromValue (VNum Sample.three) (Some Sample.ID_)
         = Return (IntValue "3")
      /\ (coerceInputLiteral (IntValue "3") Sample.ID_ None emptyHeap).1
         = VStr "3"
      /\ VStr "3" <> VNum Sample.three)
  /\ (reportsOf (VStr "COMPLEX") Sample.MyEnum None = []
      /\ astFromValue (VStr "COMPLEX") (Some Sample.MyEnum)
         = Return (EnumValue "COMPLEX")
      /\ (coerceInputLiteral (EnumValue "COMPLEX") Sample.MyEnum None
            emptyHeap).1 = Sample.complexValue
      /\ Sample.complexValue <> VStr "COMPLEX")
  /\ (reportsOf (VObj [("loud", VBool true); ("text", VStr "hi")])
        Sample.Greeting None = []
      /\ astFromValue (VObj [("loud", VBool true); ("text", VStr "hi")])
           (Some Sample.Greeting)
         = Return
             (ObjectValue
                [("loud", BooleanValue true); ("text", StringValue "hi")])
      /\ (coerceInputLiteral
            (ObjectValue
               [("loud", BooleanValue true); ("text", StringValue "hi")])
            Sample.Greeting None emptyHeap).1
         = VObj [("text", VStr "hi"); ("loud", VBool true)]
      /\ VObj [("text", VStr "hi"); ("loud", VBool true)]
         <> VObj [("loud", VBool true); ("text", VStr "hi")]).
Proof. split_and!; first [discriminate | reflexivity]. Qed.

(** ** The theorems at concrete inputs *)

Lemma coerceInputValue_revalidates_witness :
  coerceInputValueImpl VNull (GraphQLNonNull Sample.String_) None emptyHeap
  = (VUndefined, emptyHeap)
  /\ coerceInputValue VNull (GraphQLNonNull Sample.String_)
       Sample.countErrors emptyHeap 0
     = Return (VUndefined, emptyHeap, 1).
Proof.
  split; [reflexivity |].
  destruct (coerceInputValue_revalidates Sample.countErrors VNull
              (GraphQLNonNull Sample.String_) emptyHeap emptyHeap 0
              eq_refl) as (_ & _ & _ & Hreturns & _).
  apply Hreturns. reflexivity.
Defined.

Lemma literal_roundtrip_of_canonical_witness :
  let v := VObj [("name", VStr "Ada"); ("tags", VList [VStr "x"; VNull])] in
  let T :=
    GraphQLInputObjectType "Person" [Sample.nameField; Sample.tagsField] in
  Canonical v T
  /\ exists node,
      astFromValue v (Some T) = Return node
      /\ forall h, coerceInputLiteral node T None h = (v, h).
Proof.
  intros v T.
  assert (forall s, LeafRoundTrips (VStr s) Sample.String_) as Hleaf.
  { intros s. exists (StringValue s). split_and!; reflexivity. }
  assert (Canonical v T) as Hcanonical.
  { apply CanonicalObject.
    - compute_done.
    - apply (CanonicalFieldsPresent Sample.nameField).
      + apply CanonicalNonNull; [reflexivity |].
        apply CanonicalLeaf, Hleaf.
      + apply (CanonicalFieldsPresent Sample.tagsField).
        * apply CanonicalList.
          apply Forall_cons_2; [apply CanonicalLeaf, Hleaf |].
          apply Forall_cons_2; [by apply CanonicalLeafNull |].
          apply Forall_nil_2.
        * apply CanonicalFieldsNil. }
  split; [exact Hcanonical |].
  exact (literal_roundtrip_of_canonical T v Hcanonical).
Defined.

Lemma unknown_keys_rejected_witness :
  let v := VObj [("name", VStr "Ada"); ("nmae", VStr "Bob")] in
  isObjectLike v = true
  /\ (exists key,
         key ∈ Object_keys v
         /\ key ∉ fieldNames [Sample.nameField; Sample.nickField])
  /\ forall path h,
      (coerceInputValueImpl v
         (GraphQLInputObjectType "Person"
            [Sample.nameField; Sample.nickField]) path h).1 = VUndefined.
Proof.
  intros v.
  assert (exists key,
             key ∈ Object_keys v
             /\ key ∉ fieldNames [Sample.nameField; Sample.nickField])
    as Hunknown.
  { exists "nmae". split; compute_done. }
  split_and!; [reflexivity | exact Hunknown |].
  exact (proj1 (unknown_keys_rejected v "Person"
                  [Sample.nameField; Sample.nickField] eq_refl Hunknown)).
Defined.

Lemma nonNull_rejects_null_witness :
  isNullish VNull = true
  /\ forall path h,
      coerceInputValueImpl VNull (GraphQLNonNull Sample.String_) path h
      = (VUndefined, h).
Proof.
  split; [reflexivity |].
  exact (proj1 (nonNull_rejects_null Sample.String_ VNull eq_refl)).
Defined.

Lemma variable_resolution_by_lookup_witness :
  let vars : gmap string value := {[ "who" := VNum Sample.three ]} in
  vars !! "who" = Some (VNum Sample.three)
  /\ coerceInputLiteral (VariableNode "who") Sample.String_ (Some vars)
       emptyHeap
     = (VNum Sample.three, emptyHeap).
Proof.
  intros vars.
  assert (vars !! "who" = Some (VNum Sample.three)) as Hlookup
    by (vm_compute; reflexivity).
  split; [exact Hlookup |].
  destruct (variable_resolution_by_lookup "who" Sample.String_ (Some vars)
              emptyHeap) as (_ & _ & _ & _ & Hvalue).
  apply (Hvalue vars (VNum Sample.three) eq_refl Hlookup); discriminate.
Defined.


Lemma list_promotes_single_value_witness :
  isNullish (VStr "solo") = false
  /\ isIterableObject (VStr "solo") = false
  /\ coerceInputValueImpl (VStr "solo") (GraphQLList Sample.String_) None
       emptyHeap
     = (VList [VStr "solo"], emptyHeap).
Proof.
  split_and!; [reflexivity.. |].
  destruct (list_promotes_single_value (VStr "solo") Sample.String_
              eq_refl eq_refl) as (Hsome & _).
  apply Hsome; [reflexivity | discriminate].
Defined.

Lemma number_literals_witness :
  PrimFloat.is_finite Sample.three = true
  /\ IntegerSyntax (Number_toString Sample.three)
  /\ astFromValue (VNum Sample.three) None = Return (IntValue "3").
Proof.
  assert (IntegerSyntax (Number_toString Sample.three)) as Hsyntax.
  { exact (IntegerNonZero false "3" "" eq_refl eq_refl). }
  split_and!; [reflexivity | exact Hsyntax |].
  exact (proj1 (number_literals Sample.three None) eq_refl Hsyntax).
Defined.

Lemma default_memoized_once_witness :
  let first := coerceDefaultValue Sample.textField emptyHeap in
  field_defaultValue Sample.textField <> VUndefined
  /\ readMemo 4 emptyHeap = VUndefined
  /\ first.1 = VStr "hello"
  /\ countWritten 4 (loggedSince emptyHeap first.2) = 1
  /\ coerceDefaultValue Sample.textField first.2 = (VStr "hello", first.2).
Proof.
  intros first.
  assert (4%positive ∉ typeAddrs (field_type Sample.textField)) as Hnested
    by apply not_elem_of_nil.
  assert (coerceDefaultValue Sample.textField emptyHeap
          = (VStr "hello", first.2)) as Hcall by reflexivity.
  assert (VStr "hello" <> VUndefined) as Hdefined by discriminate.
  assert (field_defaultValue Sample.textField <> VUndefined) as Hdefault
    by discriminate.
  destruct (default_memoized_once Sample.textField emptyHeap first.2
              (VStr "hello") Hdefault eq_refl Hnested Hcall Hdefined)
    as (_ & Hwritten & _ & Hholds & Hlater & _).
  split_and!; [exact Hdefault | reflexivity | reflexivity | exact Hwritten |].
  apply Hlater, Hholds.
Defined.

Lemma coerced_object_keys_are_declared_witness :
  let v := VObj [("nick", VStr "B"); ("name", VStr "A")] in
  let result := (coerceInputValueImpl v Sample.Person None emptyHeap).1 in
  result = VObj [("name", VStr "A"); ("nick", VStr "B")]
  /\ ((isNullish v = true /\ result = VNull)
      \/ exists coercedValue,
          result = VObj coercedValue
          /\ map fst coercedValue
             `sublist_of` fieldNames
                            [Sample.nameField; Sample.nickField;
                             Sample.tagsField]
          /\ forall key,
              key ∈ map fst coercedValue ->
              key ∈ fieldNames
                      [Sample.nameField; Sample.nickField; Sample.tagsField]).
Proof.
  intros v result. split; [reflexivity |].
  apply (proj1 (coerced_object_keys_are_declared "Person"
                  [Sample.nameField; Sample.nickField; Sample.tagsField])
           v None emptyHeap result); [reflexivity | discriminate].
Defined.

(** C10, as stated, fails for a variable reference: literal coercion
    answers it with the variable's value as it is, here an object whose
    only key no field of [Person] declares. *)
Lemma variable_value_keeps_undeclared_keys :
  let variables : gmap string value :=
    {[ "p" := VObj [("age", VNum Sample.three)] ]} in
  let result :=
    (coerceInputLiteral (VariableNode "p") Sample.Person (Some variables)
       emptyHeap).1 in
  result = VObj [("age", VNum Sample.three)]
  /\ result <> VUndefined
  /\ "age" ∉ fieldNames
               [Sample.nameField; Sample.nickField; Sample.tagsField].
Proof.
  split_and!.
  - vm_compute. reflexivity.
  - vm_compute. discriminate.
  - compute_done.
Qed.

(** ** The tests of astFromValue, on the model *)

Example converts_null_values :
  astFromValue VNull (Some Sample.Boolean_) = Return NullValue
  /\ astFromValue VUndefined (Some Sample.Boolean_) = Return NullValue.
Proof. split; reflexivity. Qed.

Example converts_boolean_values :
  astFromValue (VBool true) None = Return (BooleanValue true)
  /\ astFromValue (VBool false) (Some Sample.Boolean_)
     = Return (BooleanValue false)
  /\ astFromValue (VNum PrimFloat.zero) (Some Sample.Boolean_)
     = Return (IntValue "0").
Proof. split_and!; reflexivity. Qed.

Example converts_number_values :
  astFromValue (VNum Sample.minusOne) (Some Sample.Int_)
  = Return (IntValue "-1")
  /\ astFromValue (VNum Sample.tenThousand) (Some Sample.Int_)
     = Return (IntValue "10000")
  /\ astFromValue (VNum Sample.oneHundredTwentyThreeAndAHalf)
       (Some Sample.Int_)
     = Return (FloatValue "123.5")
  /\ astFromValue (VNum PrimFloat.nan) (Some Sample.Int_) = Return NullValue
  /\ astFromValue (VNum PrimFloat.infinity) (Some Sample.Int_)
     = Return NullValue.
Proof. split_and!; reflexivity. Qed.

Example converts_string_and_id_values :
  astFromValue (VStr "hello") (Some Sample.String_)
  = Return (StringValue "hello")
  /\ astFromValue (VStr "VALUE") (Some Sample.ID_)
     = Return (StringValue "VALUE")
  /\ astFromValue (VStr "123") (Some Sample.ID_) = Return (IntValue "123")
  /\ astFromValue (VStr "01") (Some Sample.ID_) = Return (StringValue "01")
  /\ astFromValue (VBool false) (Some Sample.String_)
     = Return (BooleanValue false).
Proof. split_and!; reflexivity. Qed.

Example converts_enum_values :
  astFromValue (VStr "HELLO") (Some Sample.MyEnum) = Return (EnumValue "HELLO")
  /\ astFromValue (VStr "hello") (Some Sample.MyEnum)
     = Return (EnumValue "hello")
  /\ astFromValue (VStr "hello friend") (Some Sample.MyEnum)
     = Return (StringValue "hello friend").
Proof. split_and!; reflexivity. Qed.

Example converts_array_values :
  astFromValue (VList [VStr "HELLO"; VStr "GOODBYE"])
    (Some (GraphQLList Sample.MyEnum))
  = Return (ListValue [EnumValue "HELLO"; EnumValue "GOODBYE"])
  /\ astFromValue (VStr "FOO") (Some (GraphQLList Sample.String_))
     = Return (StringValue "FOO")
  /\ astFromValue (VList [VStr "FOO"; VNull; VStr "BAR"])
       (Some (GraphQLList (GraphQLNonNull Sample.String_)))
     = Return (ListValue [StringValue "FOO"; NullValue; StringValue "BAR"]).
Proof. split_and!; reflexivity. Qed.

Example converts_input_objects :
  astFromValue (VObj [("foo", VNum Sample.three); ("bar", VStr "HELLO")])
    (Some Sample.MyInputObj)
  = Return (ObjectValue [("foo", IntValue "3"); ("bar", EnumValue "HELLO")])
  /\ astFromValue (VObj [("foo", VNull)]) (Some Sample.MyInputObj)
     = Return (ObjectValue [("foo", NullValue)])
  /\ astFromValue (VNum Sample.three) (Some Sample.MyInputObj)
     = Return (IntValue "3")
  /\ astFromValue (VObj [("field", VStr "value")]) (Some Sample.String_)
     = Return (ObjectValue [("field", StringValue "value")]).
Proof. split_and!; reflexivity. Qed.

Example unsupported_value_throws :
  astFromValue (VSymbol "s") None
  = Throw (ThrownError "Cannot convert value to AST: Symbol(s).").
Proof. reflexivity. Qed.

(** ** The test of valueFromAST, and the concrete cases *)

Example rejects_empty_input :
  valueFromAST None Sample.Boolean_ None emptyHeap = (VUndefined, emptyHeap).
Proof. reflexivity. Qed.

Example coerces_an_int :
  coerceInputValue (VNum Sample.three) Sample.Int_ defaultOnError
    emptyHeap tt
  = Return (VNum Sample.three, emptyHeap, tt).
Proof. reflexivity. Qed.

Example rejects_a_string_for_an_int :
  coerceInputValue (VStr "x") (GraphQLNonNull Sample.Int_)
    Sample.countErrors emptyHeap 0
  = Return (VUndefined, emptyHeap, 1).
Proof. reflexivity. Qed.

Example rejects_a_null_field :
  coerceInputValue (VObj [("foo", VNull)]) Sample.Point collect emptyHeap []
  = Return
      (VUndefined, emptyHeap,
       [([KeyName "foo"], VNull,
         mkGraphQLError
           ("Expected non-nullable type " +:+ dq +:+ "Int!" +:+ dq
              +:+ " not to be null.") None)]).
Proof. reflexivity. Qed.

Example rejects_a_bad_item :
  (coerceInputValueImpl
     (VList [VNum Sample.one; VStr "bad"; VNum Sample.three])
     (GraphQLList Sample.Int_) None emptyHeap).1 = VUndefined
  /\ length (reportsOf
               (VList [VNum Sample.one; VStr "bad"; VNum Sample.three])
               (GraphQLList Sample.Int_) None) = 1.
Proof. split; reflexivity. Qed.

Example default_callback_throws_with_path :
  coerceInputValue (VObj [("foo", VNull)]) Sample.Point defaultOnError
    emptyHeap tt
  = Throw (ThrownGraphQLError
             (mkGraphQLError
                ("Invalid value null at " +:+ dq +:+ "value.foo" +:+ dq
                   +:+ ": Expected non-nullable type " +:+ dq +:+ "Int!"
                   +:+ dq +:+ " not to be null.") None)).
Proof. reflexivity. Qed.

Lemma coerced_object_fills_provided_and_defaulted_witness :
  let v := VObj [("loud", VBool true)] in
  let coercedValue := [("text", VStr "hello"); ("loud", VBool true)] in
  (coerceInputValueImpl v Sample.Greeting None emptyHeap).1 = VObj coercedValue
  /\ ("text" ∈ map fst coercedValue
      <-> exists f,
          f ∈ [Sample.textField; Sample.loudField] /\ field_name f = "text"
          /\ (isUndefined (getProperty v "text") = false
              \/ isUndefined (field_defaultValue f) = false)).
Proof.
  intros v coercedValue. split; [reflexivity |].
  apply (coerced_object_fills_provided_and_defaulted v "Greeting"
           [Sample.textField; Sample.loudField] None emptyHeap coercedValue
           "text").
  reflexivity.
Defined.

(** ** Instances of the further properties *)

Lemma report_paths_extend_the_path_witness :
  let v := VList [VStr "a"; VNull] in
  let type := GraphQLList (GraphQLNonNull Sample.String_) in
  let report :=
    nonNullReport VNull (GraphQLNonNull Sample.String_)
      (addPath None (KeyIndex 1) None) in
  report ∈ reportsOf v type None
  /\ report.1.1 = [KeyIndex 1]
  /\ pathToArray None `prefix_of` report.1.1.
Proof.
  intros v type report.
  assert (report ∈ reportsOf v type None) as Hin.
  { assert (reportsOf v type None = [report]) as -> by reflexivity.
    apply list_elem_of_here. }
  split_and!; [exact Hin | reflexivity |].
  exact (proj1 (report_paths_extend_the_path v type None report Hin)).
Defined.

Lemma validation_throws_only_what_callback_throws_witness :
  (forall p v e s0, exists s1, Sample.countErrors p v e s0 = Return s1)
  /\ exists s',
      validateInputValue VNull (GraphQLNonNull Sample.String_)
        Sample.countErrors 0 = Return s'.
Proof.
  assert (forall p v e s0, exists s1, Sample.countErrors p v e s0 = Return s1)
    as Hreturns.
  { intros p v e n. exists (S n). reflexivity. }
  split; [exact Hreturns |].
  exact (proj2 (validation_throws_only_what_callback_throws VNull
                  (GraphQLNonNull Sample.String_) Sample.countErrors 0)
           Hreturns).
Defined.

Lemma astFromValue_throws_iff_unsupported_witness :
  let v := VObj [("ok", VNum Sample.three);
                 ("bad", VList [VSymbol "s"; VSymbol "t"])] in
  firstSymbol v = Some "s"
  /\ astFromValue v (Some Sample.MyInputObj)
     = Throw (ThrownError
                ("Cannot convert value to AST: "
                   +:+ inspect (VSymbol "s") +:+ ".")).
Proof.
  intros v.
  assert (firstSymbol v = Some "s") as Hfirst by reflexivity.
  split; [exact Hfirst |].
  destruct (astFromValue_throws_iff_unsupported v (Some Sample.MyInputObj))
    as (_ & _ & _ & Hnames & _).
  exact (Hnames "s" Hfirst).
Defined.

Lemma astFromValue_yields_constant_literal_witness :
  let v := VObj [("foo", VNum Sample.three)] in
  let node := ObjectValue [("foo", IntValue "3")] in
  astFromValue v (Some Sample.MyInputObj) = Return node
  /\ nodeHasVariable node = false.
Proof.
  intros v node.
  assert (astFromValue v (Some Sample.MyInputObj) = Return node) as Hnode
    by reflexivity.
  split; [exact Hnode |].
  exact (astFromValue_yields_constant_literal v (Some Sample.MyInputObj) node
           Hnode).
Defined.

Lemma astFromValue_keeps_shape_witness :
  let items := [VStr "a"; VNull; VBool true] in
  let node := ListValue [StringValue "a"; NullValue; BooleanValue true] in
  astFromValue (VList items) None = Return node
  /\ exists values,
      node = ListValue values
      /\ length values = length items
      /\ Forall2
           (fun item itemNode =>
              astFromValue item (getNamedType <$> None) = Return itemNode)
           items values.
Proof.
  intros items node.
  assert (astFromValue (VList items) None = Return node) as Hnode
    by reflexivity.
  split; [exact Hnode |].
  exact (proj1 (astFromValue_keeps_shape None node) items Hnode).
Defined.

Lemma literal_read_through_declared_names_witness :
  let fields := [("foo", IntValue "1"); ("zap", NullValue)] in
  let fields' := [("foo", IntValue "1")] in
  let fieldDefs := [mkInputField "foo" Sample.Int_ VUndefined 7;
                    mkInputField "bar" Sample.MyEnum VUndefined 8] in
  (forall key, key ∈ fieldNames fieldDefs ->
               keyMap fields !! key = keyMap fields' !! key)
  /\ coerceInputLiteral (ObjectValue fields)
       (GraphQLInputObjectType "MyInputObj" fieldDefs) None emptyHeap
     = coerceInputLiteral (ObjectValue fields')
         (GraphQLInputObjectType "MyInputObj" fieldDefs) None emptyHeap.
Proof.
  intros fields fields' fieldDefs.
  assert (forall key, key ∈ fieldNames fieldDefs ->
                      keyMap fields !! key = keyMap fields' !! key) as Hsame.
  { intros key Hkey.
    apply elem_of_cons in Hkey as [-> | Hkey]; [vm_compute; reflexivity |].
    apply elem_of_cons in Hkey as [-> | Hkey]; [vm_compute; reflexivity |].
    by apply elem_of_nil in Hkey. }
  split; [exact Hsame |].
  exact (literal_read_through_declared_names "MyInputObj" fieldDefs None
           emptyHeap fields fields' Hsame).
Defined.

Lemma literal_ignores_undeclared_field_witness :
  let fieldDefs := [Sample.textField; Sample.loudField] in
  ("shout" ∉ fieldNames fieldDefs)
  /\ coerceInputLiteral
       (ObjectValue
          ([("text", StringValue "hi")]
           ++ ("shout", BooleanValue true) :: [("loud", BooleanValue false)]))
       (GraphQLInputObjectType "Greeting" fieldDefs) None emptyHeap
     = coerceInputLiteral
         (ObjectValue
            ([("text", StringValue "hi")] ++ [("loud", BooleanValue false)]))
         (GraphQLInputObjectType "Greeting" fieldDefs) None emptyHeap.
Proof.
  intros fieldDefs.
  assert ("shout" ∉ fieldNames fieldDefs) as Hundeclared by compute_done.
  split; [exact Hundeclared |].
  exact (literal_ignores_undeclared_field "Greeting" fieldDefs None emptyHeap
           [("text", StringValue "hi")] [("loud", BooleanValue false)]
           "shout" (BooleanValue true) Hundeclared).
Defined.

Lemma literal_field_order_is_irrelevant_witness :
  let fields := [("text", StringValue "hi"); ("loud", BooleanValue true)] in
  let fields' := [("loud", BooleanValue true); ("text", StringValue "hi")] in
  NoDup (map fst fields)
  /\ fields ≡ₚ fields'
  /\ coerceInputLiteral (ObjectValue fields) Sample.Greeting None emptyHeap
     = coerceInputLiteral (ObjectValue fields') Sample.Greeting None emptyHeap.
Proof.
  intros fields fields'.
  assert (NoDup (map fst fields)) as Hnodup by compute_done.
  assert (fields ≡ₚ fields') as Hperm by apply perm_swap.
  split_and!; [exact Hnodup | exact Hperm |].
  exact (literal_field_order_is_irrelevant "Greeting"
           [Sample.textField; Sample.loudField] None emptyHeap fields fields'
           Hnodup Hperm).
Defined.

Lemma literal_field_of_missing_variable_is_absent_witness :
  let before := [("loud", BooleanValue true)] in
  isMissingVariable (VariableNode "t") None = true
  /\ ("text" ∉ map fst before)
  /\ coerceInputLiteral
       (ObjectValue (before ++ ("text", VariableNode "t") :: []))
       Sample.Greeting None emptyHeap
     = coerceInputLiteral (ObjectValue (before ++ [])) Sample.Greeting None
         emptyHeap.
Proof.
  intros before.
  assert ("text" ∉ map fst before) as Hfresh by compute_done.
  split_and!; [reflexivity | exact Hfresh |].
  exact (literal_field_of_missing_variable_is_absent "Greeting"
           [Sample.textField; Sample.loudField] None emptyHeap before []
           "text" (VariableNode "t") eq_refl Hfresh).
Defined.

Lemma list_item_of_missing_variable_is_null_witness :
  isMissingVariable (VariableNode "x") None = true
  /\ coerceInputLiteral
       (ListValue ([IntValue "1"] ++ VariableNode "x" :: [IntValue "3"]))
       (GraphQLList Sample.Int_) None emptyHeap
     = coerceInputLiteral
         (ListValue ([IntValue "1"] ++ NullValue :: [IntValue "3"]))
         (GraphQLList Sample.Int_) None emptyHeap.
Proof.
  split; [reflexivity |].
  exact (proj1 (list_item_of_missing_variable_is_null Sample.Int_ None
                  (VariableNode "x") [IntValue "1"] [IntValue "3"] emptyHeap
                  eq_refl)).
Defined.

Lemma list_coercion_keeps_length_witness :
  let items := [VStr "a"; VNull; VStr "c"] in
  let result :=
    (coerceInputValueImpl (VList items) (GraphQLList Sample.String_) None
       emptyHeap).1 in
  result <> VUndefined
  /\ exists coercedValue,
      result = VList coercedValue
      /\ length coercedValue = length items
      /\ Forall (fun c => c <> VUndefined) coercedValue
      /\ forall index itemValue,
          items !! index = Some itemValue ->
          exists h0,
            coercedValue !! index
            = Some (coerceInputValueImpl itemValue Sample.String_
                      (addPath None (KeyIndex index) None) h0).1.
Proof.
  intros items result.
  assert (result <> VUndefined) as Hdefined by discriminate.
  split; [exact Hdefined |].
  exact (proj1 (list_coercion_keeps_length Sample.String_) items None
           emptyHeap result eq_refl Hdefined).
Defined.

Lemma coercion_writes_inside_the_type_only_witness :
  let v := VObj [("loud", VBool true)] in
  (1%positive ∉ typeAddrs Sample.Greeting)
  /\ readMemo 4 (coerceInputValueImpl v Sample.Greeting None emptyHeap).2
     = VStr "hello"
  /\ readMemo 1 (coerceInputValueImpl v Sample.Greeting None emptyHeap).2
     = readMemo 1 emptyHeap.
Proof.
  intros v.
  assert (1%positive ∉ typeAddrs Sample.Greeting) as Houtside by compute_done.
  split_and!; [exact Houtside | reflexivity |].
  exact (proj1 (coercion_writes_inside_the_type_only Sample.Greeting)
           1%positive v None emptyHeap Houtside).
Defined.

Lemma nullable_type_accepts_null_witness :
  isNonNullType (GraphQLList Sample.Int_) = false
  /\ isNullish VUndefined = true
  /\ forall path h,
      coerceInputValueImpl VUndefined (GraphQLList Sample.Int_) path h
      = (VNull, h).
Proof.
  split_and!; [reflexivity.. |].
  exact (proj1 (nullable_type_accepts_null (GraphQLList Sample.Int_)
                  VUndefined eq_refl eq_refl)).
Defined.

Lemma list_validation_reports_every_item_witness :
  let items := [VNull; VStr "b"; VNull] in
  let itemType := GraphQLNonNull Sample.String_ in
  let report := nonNullReport VNull itemType (addPath None (KeyIndex 2) None) in
  items !! 2 = Some VNull
  /\ report ∈ reportsOf VNull itemType (addPath None (KeyIndex 2) None)
  /\ report ∈ reportsOf (VList items) (GraphQLList itemType) None.
Proof.
  intros items itemType report.
  assert (report ∈ reportsOf VNull itemType (addPath None (KeyIndex 2) None))
    as Hin.
  { assert (reportsOf VNull itemType (addPath None (KeyIndex 2) None)
            = [report]) as -> by reflexivity.
    apply list_elem_of_here. }
  split_and!; [reflexivity | exact Hin |].
  destruct (list_validation_reports_every_item items itemType None)
    as (_ & Hevery & _).
  exact (Hevery 2 VNull report eq_refl Hin).
Defined.

Lemma astFromValue_writes_well_formed_literals_witness :
  let v := VList [VStr "123"; VStr "abc"; VNum Sample.minusOne] in
  let node := ListValue [IntValue "123"; StringValue "abc"; IntValue "-1"] in
  astFromValue v (Some (GraphQLList Sample.ID_)) = Return node
  /\ literalSyntaxOk node = true.
Proof.
  intros v node.
  assert (astFromValue v (Some (GraphQLList Sample.ID_)) = Return node)
    as Hnode by reflexivity.
  split; [exact Hnode |].
  exact (astFromValue_writes_well_formed_literals v
           (Some (GraphQLList Sample.ID_)) node Hnode).
Defined.



Lemma failed_default_is_recomputed_witness :
  let first := coerceDefaultValue Sample.badField emptyHeap in
  first.1 = VUndefined
  /\ readMemo (field_addr Sample.badField) first.2 = VUndefined
  /\ 1 <= countRecomputed (field_addr Sample.badField)
            (loggedSince emptyHeap first.2).
Proof.
  intros first. split; [reflexivity |].
  exact (proj2 (failed_default_is_recomputed Sample.badField emptyHeap
                  eq_refl)).
Defined.
